(** * Office-Item-classifier: the detection pipeline, embedded and verified

  The development follows the Python sources
    - [The_final_official_GUI/model_loader.py]   ([ModelLoader])
    - [The_final_official_GUI/camera_handler.py] ([CameraThread])
    - [file_processor.py]                        ([FileProcessor])
    - [ui/main_window.py]                        ([MainWindow])

  Python floats are read as the rationals they denote ([Q]); images are
  objects in a store addressed by reference, so that [image.copy()] and the
  in-place drawing of OpenCV keep their aliasing; the detector, OpenCV and
  the file system are an explicit [World] of fallible operations.  The
  detector reads the image it is given and does not write to it.  Signals
  and calls to the widgets are recorded as events; what the program prints
  on the standard output is left out. *)

From Stdlib Require Import QArith Qround Qabs.
From stdpp Require Import gmap strings list pretty.

Local Open Scope Z_scope.

(** ** Python run-time: exceptions, floats, formatting, [queue.Queue] *)

Module Py.

(** Any instance of [Exception]; what [except Exception] and a bare
    [except] catch. *)
Inductive exn := Exception (msg : string).

(** A computation that returns or raises. *)
Definition Exc (A : Type) : Type := (exn + A)%type.

(** A computation on a state [S] that returns or raises; the state
    survives a [raise]. *)
Definition SE (S A : Type) : Type := S -> S * Exc A.

Definition ret {S A} (x : A) : SE S A := fun s => (s, inr x).
Definition raise {S A} (e : exn) : SE S A := fun s => (s, inl e).
Definition bind {S A B} (m : SE S A) (k : A -> SE S B) : SE S B :=
  fun s => match m s with
           | (s', inr x) => k x s'
           | (s', inl e) => (s', inl e)
           end.
Definition lift {S A} (r : Exc A) : SE S A := fun s => (s, r).
Definition get {S} : SE S S := fun s => (s, inr s).
Definition modify {S} (f : S -> S) : SE S unit := fun s => (f s, inr tt).

(** [try: m  except Exception as e: handler e]. *)
Definition try_except {S A} (m : SE S A) (handler : exn -> SE S A) : SE S A :=
  fun s => match m s with
           | (s', inr x) => (s', inr x)
           | (s', inl e) => handler e s'
           end.

(** [try: m  finally: final]. *)
Definition try_finally {S A} (m : SE S A) (final : SE S unit) : SE S A :=
  fun s => match m s with
           | (s', r) =>
               match final s' with
               | (s'', inr _) => (s'', r)
               | (s'', inl e) => (s'', inl e)
               end
           end.

(** [x > y] on floats. *)
Definition Qgtb (x y : Q) : bool := negb (Qle_bool x y).

(** [x >= y] on floats. *)
Definition Qgeb (x y : Q) : bool := Qle_bool y x.

(** [int(x)]: truncation towards zero. *)
Definition int_of_float (x : Q) : Z := Z.quot (Qnum x) (Zpos (Qden x)).

(** Rounding to the nearest integer, ties to even, of a non-negative
    rational: the rounding of [format(x, '.2f')]. *)
Definition round_half_even (x : Q) : Z :=
  let f := Qfloor x in
  match Qcompare (x - inject_Z f) (1 # 2) with
  | Lt => f
  | Gt => f + 1
  | Eq => if Z.even f then f else f + 1
  end.

Definition pad2 (n : Z) : string :=
  if n <? 10 then "0" +:+ pretty n else pretty n.

(** [f"{x:.2f}"]. *)
Definition format_2f (x : Q) : string :=
  let n := round_half_even (Qabs x * inject_Z 100) in
  (if Qgtb 0 x then "-" else "") +:+ pretty (n / 100) +:+ "." +:+ pad2 (n mod 100).

(** [str(n)] for an [int]. *)
Definition str_int (n : Z) : string := pretty n.

(** [time.struct_time], the fields [strftime] reads. *)
Record struct_time := {
  tm_year : Z; tm_mon : Z; tm_mday : Z;
  tm_hour : Z; tm_min : Z; tm_sec : Z
}.

(** [time.strftime("%Y%m%d_%H%M%S", t)]. *)
Definition strftime_Ymd_HMS (t : struct_time) : string :=
  pretty (tm_year t) +:+ pad2 (tm_mon t) +:+ pad2 (tm_mday t) +:+ "_" +:+
  pad2 (tm_hour t) +:+ pad2 (tm_min t) +:+ pad2 (tm_sec t).

(** [queue.Queue(maxsize)]: a FIFO of bounded length. *)
Module Queue.
Record t (A : Type) := mk { maxsize : nat; items : list A }.
Arguments mk {A}.
Arguments maxsize {A}.
Arguments items {A}.

Definition new {A} (maxsize : nat) : t A := mk maxsize [].

Definition qsize {A} (q : t A) : nat := length (items q).
Definition empty {A} (q : t A) : bool := Nat.eqb (qsize q) 0.
Definition full {A} (q : t A) : bool :=
  Nat.ltb 0 (maxsize q) && Nat.leb (maxsize q) (qsize q).

(** [put_nowait]: raises [queue.Full] instead of waiting. *)
Definition put_nowait {A} (q : t A) (x : A) : Exc (t A) :=
  if full q then inl (Exception "Full")
  else inr (mk (maxsize q) (items q ++ [x])).

(** [put] (blocking, no timeout): [None] when the caller would wait. *)
Definition put {A} (q : t A) (x : A) : option (t A) :=
  if full q then None else Some (mk (maxsize q) (items q ++ [x])).

(** [get_nowait], and [get(timeout=...)] once the timeout has run out:
    raise [queue.Empty] on an empty queue. *)
Definition get_nowait {A} (q : t A) : Exc (A * t A) :=
  match items q with
  | [] => inl (Exception "Empty")
  | x :: rest => inr (x, mk (maxsize q) rest)
  end.
End Queue.

End Py.

(** ** OpenCV images as objects in a store *)

Module Cv2.
Import Py.

Definition Color : Type := (Z * Z * Z)%type.
Definition Point : Type := (Z * Z)%type.

Inductive Font := FONT_HERSHEY_SIMPLEX.

(** What has been drawn on an image, in the order of the calls.
    A [thickness] of [-1] fills the rectangle. *)
Inductive DrawOp :=
| Rectangle (pt1 pt2 : Point) (color : Color) (thickness : Z)
| PutText (text : string) (org : Point) (font : Font) (fontScale : Q)
          (color : Color) (thickness : Z).

(** An [ndarray] image: the captured buffer and the drawing done on it. *)
Record Image := { pixels : list Z; canvas : list DrawOp }.

Abbreviation loc := nat.
Abbreviation heap := (list Image).

(** Computations on the store. *)
Definition M (A : Type) : Type := SE heap A.

Definition read (l : loc) : M Image :=
  fun h => match h !! l with
           | Some img => (h, inr img)
           | None => (h, inl (Exception "AttributeError"))
           end.

Definition alloc (img : Image) : M loc :=
  fun h => (h ++ [img], inr (length h)).

(** [image.copy()]: a fresh object with the same contents. *)
Definition copy (l : loc) : M loc := bind (read l) alloc.

Definition draw_on (op : DrawOp) (img : Image) : Image :=
  {| pixels := pixels img; canvas := canvas img ++ [op] |}.

(** An in-place drawing call; [accepts] tells whether OpenCV takes the
    arguments or raises [cv2.error]. *)
Definition draw (accepts : DrawOp -> Image -> bool) (l : loc) (op : DrawOp) : M unit :=
  fun h => match h !! l with
           | Some img =>
               if accepts op img then (<[l := draw_on op img]> h, inr tt)
               else (h, inl (Exception "cv2.error"))
           | None => (h, inl (Exception "cv2.error"))
           end.

End Cv2.

Declare Scope py_scope.
Delimit Scope py_scope with py.
Notation "x <- m ;; k" := (Py.bind m (fun x => k))
(at level 100, m at next level, right associativity) : py_scope.
Notation "m ;;; k" := (Py.bind m (fun _ => k))
(at level 100, right associativity) : py_scope.

(** ** What the program exchanges with the detector, OpenCV and the OS *)

Module Ext.
Import Py Cv2.

(** The detection dictionary [{'class_name', 'confidence', 'class_id'}];
    the placeholder of the background loop has no ['class_id'] key. *)
Record Detection := {
  class_name : string;
  confidence : Q;
  class_id : option Z
}.

(** One element of [result.boxes]: [box.conf[0]], [box.cls[0]],
    [box.xyxy[0]] (tensors of floats). *)
Record Box := { conf : Q; cls : Q; xyxy : Q * Q * Q * Q }.

(** One element of the list [model.predict] returns; [boxes = None] when
    the attribute is missing or is [None]. *)
Record Results := { boxes : option (list Box) }.

(** The keyword arguments of [model.predict]. *)
Record PredictArgs := {
  arg_conf : Q; arg_imgsz : Z; arg_verbose : bool;
  arg_max_det : Z; arg_agnostic_nms : bool
}.

Definition ModelHandle := nat.

(** Signals emitted and calls made to the outside, in order. *)
Inductive Event :=
| progress_update (msg : string)
| finished_processing
| image_processed (image : loc) (detection : option Detection) (filename : string)
| frame_ready (frame : Image)
| fps_update (fps : Q)
| camera_error (msg : string)
| msleep (ms : Z)
| os_makedirs (path : string)
| cv2_imwrite (path : string) (image : loc)
| log_message (msg : string)
| display_detected_image (image : loc)
| update_detection_info (detection : option Detection)
| hide_loading
| start_processing_thread
| set_camera_label_text (text : string).

(** The environment.  Operations on the file system may answer differently
    as the run goes on: they see the events so far. *)
Record World := {
  import_YOLO : bool;
  YOLO : string -> Exc ModelHandle;
  model_call : ModelHandle -> Exc unit;
  model_names : ModelHandle -> option (gmap Z string);
  model_predict : ModelHandle -> Image -> PredictArgs -> Exc (list Results);
  accepts : DrawOp -> Image -> bool;
  getTextSize : string -> Font -> Q -> Z -> Exc (Z * Z);
  flip : Image -> Exc Image;
  imread : list Event -> string -> Exc (option Image);
  imwrite : list Event -> string -> heap -> loc -> Exc bool;
  makedirs : list Event -> string -> Exc unit;
  basename : string -> string;
  path_join : string -> string -> string
}.

(** An object of the program with the store and the events so far. *)
Definition Machine (T : Type) : Type := (T * heap * list Event)%type.

Definition emit {T} (e : Event) : SE (Machine T) unit :=
  fun '(self, h, ev) => ((self, h, ev ++ [e]), inr tt).

(** A call to the outside, which sees the events so far. *)
Definition ask {T A} (f : list Event -> heap -> Exc A) : SE (Machine T) A :=
  fun '(self, h, ev) => ((self, h, ev), f ev h).

Definition on_store {T A} (m : M A) : SE (Machine T) A :=
  fun '(self, h, ev) => let '(h', r) := m h in ((self, h', ev), r).

Definition self_ {T} : SE (Machine T) T :=
  fun '(self, h, ev) => ((self, h, ev), inr self).

Definition update {T} (f : T -> T) : SE (Machine T) unit :=
  fun '(self, h, ev) => ((f self, h, ev), inr tt).

End Ext.

(** ** [model_loader.py] *)

Module ModelLoader.
Import Py Cv2 Ext.
Local Open Scope py_scope.

Definition Frame := option loc.
Definition Result : Type := (Frame * option Detection)%type.

Record t := mk {
  model : option ModelHandle;
  class_names : gmap Z string;
  detection_queue : Queue.t Frame;
  result_queue : Queue.t Result;
  is_processing : bool;
  last_result : option Result;
  use_mock : bool
}.

Definition set_detection_queue (q : Queue.t Frame) (self : t) : t :=
  mk (model self) (class_names self) q (result_queue self)
     (is_processing self) (last_result self) (use_mock self).
Definition set_result_queue (q : Queue.t Result) (self : t) : t :=
  mk (model self) (class_names self) (detection_queue self) q
     (is_processing self) (last_result self) (use_mock self).
Definition set_is_processing (b : bool) (self : t) : t :=
  mk (model self) (class_names self) (detection_queue self) (result_queue self)
     b (last_result self) (use_mock self).
Definition set_last_result (r : Result) (self : t) : t :=
  mk (model self) (class_names self) (detection_queue self) (result_queue self)
     (is_processing self) (Some r) (use_mock self).

(** [__init__]: the import of [ultralytics] decides [use_mock]. *)
Definition init (w : World) : t :=
  mk None ∅ (Queue.new 1) (Queue.new 1) false None (negb (import_YOLO w)).

Definition mock_class_names : gmap Z string := {[ 0 := "Object" ]}.

Definition default_class_names : gmap Z string :=
  list_to_map [(0, "Bin"); (1, "Bottle"); (2, "Keyboard"); (3, "Laptop");
               (4, "Mouse"); (5, "Mug"); (6, "Notebook"); (7, "Pen");
               (8, "Phone"); (9, "Stapler")].

Definition set_model (m : ModelHandle) (self : t) : t :=
  mk (Some m) (class_names self) (detection_queue self) (result_queue self)
     (is_processing self) (last_result self) (use_mock self).
Definition set_class_names (names : gmap Z string) (self : t) : t :=
  mk (model self) names (detection_queue self) (result_queue self)
     (is_processing self) (last_result self) (use_mock self).
Definition set_use_mock (b : bool) (self : t) : t :=
  mk (model self) (class_names self) (detection_queue self) (result_queue self)
     (is_processing self) (last_result self) b.

(** [self.model.names] when the attribute is there and not empty, else the
    ten office classes. *)
Definition names_or_default (names : option (gmap Z string)) : gmap Z string :=
  match names with
  | Some names => if decide (names = ∅) then default_class_names else names
  | None => default_class_names
  end.

(** The [try] block of [load_model]. *)
Definition load_model_try (w : World) (model_path : string) : SE t bool :=
  m <- lift (YOLO w model_path) ;;
  modify (set_model m) ;;;
  lift (model_call w m) ;;;
  modify (set_class_names (names_or_default (model_names w m))) ;;;
  ret true.

Definition load_model (w : World) (model_path : string) : SE t bool :=
  self <- get ;;
  if use_mock self then
    modify (set_class_names mock_class_names) ;;;
    ret true
  else
    try_except (load_model_try w model_path)
      (fun _ =>
         modify (set_use_mock true) ;;;
         modify (set_class_names mock_class_names) ;;;
         ret true).

Definition predict_single_args : PredictArgs :=
  {| arg_conf := 25 # 100; arg_imgsz := 320; arg_verbose := false;
     arg_max_det := 10; arg_agnostic_nms := true |}.

(** [self.class_names.get(class_id, f"Class_{class_id}")]. *)
Definition get_class_name (names : gmap Z string) (class_id : Z) : string :=
  default ("Class_" +:+ str_int class_id) (names !! class_id).

Definition detection_of (names : gmap Z string) (box : Box) : Detection :=
  let class_id := int_of_float (cls box) in
  {| class_name := get_class_name names class_id;
     confidence := conf box;
     class_id := Some class_id |}.

(** One turn of the first loop over [result.boxes]. *)
Definition highest_step (names : gmap Z string)
    (acc : Q * option Detection) (box : Box) : Q * option Detection :=
  let '(highest_confidence, best_detection) := acc in
  let confidence := conf box in
  if Qgtb confidence highest_confidence
  then (confidence, Some (detection_of names box))
  else (highest_confidence, best_detection).

Definition green : Color := (0, 255, 0).
Definition white : Color := (255, 255, 255).

Definition label_of (names : gmap Z string) (box : Box) : string :=
  get_class_name names (int_of_float (cls box)) +:+ " " +:+ format_2f (conf box).

(** [x1, y1, x2, y2 = map(int, box.xyxy[0])]. *)
Definition int_xyxy (box : Box) : Z * Z * Z * Z :=
  let '(x1, y1, x2, y2) := xyxy box in
  (int_of_float x1, int_of_float y1, int_of_float x2, int_of_float y2).

(** The drawing done for the chosen box. *)
Definition draw_box (w : World) (names : gmap Z string)
    (annotated_image : loc) (box : Box) : M unit :=
  let '(x1, y1, x2, y2) := int_xyxy box in
  let label := label_of names box in
  draw (accepts w) annotated_image (Rectangle (x1, y1) (x2, y2) green 2) ;;;
  label_size <- lift (getTextSize w label FONT_HERSHEY_SIMPLEX (1 # 2) 2) ;;
  draw (accepts w) annotated_image
       (Rectangle (x1, y1 - snd label_size - 10) (x1 + fst label_size, y1) green (-1)) ;;;
  draw (accepts w) annotated_image
       (PutText label (x1, y1 - 5) FONT_HERSHEY_SIMPLEX (1 # 2) white 2).

(** The second loop: draw the first box whose confidence equals the
    highest one, then [break]. *)
Fixpoint draw_highest (w : World) (names : gmap Z string) (annotated_image : loc)
    (highest_confidence : Q) (bs : list Box) : M unit :=
  match bs with
  | [] => ret tt
  | box :: rest =>
      if Qeq_bool (conf box) highest_confidence
      then draw_box w names annotated_image box
      else draw_highest w names annotated_image highest_confidence rest
  end.

(** The [try] block of [predict_single]. *)
Definition predict_single_try (w : World) (self : t) (m : ModelHandle)
    (image : loc) : M (loc * option Detection) :=
  img <- read image ;;
  results <- lift (model_predict w m img predict_single_args) ;;
  match results with
  | result :: _ =>
      match boxes result with
      | Some bs =>
          let '(highest_confidence, best_detection) :=
            fold_left (highest_step (class_names self)) bs (0%Q, None) in
          match best_detection with
          | Some _ =>
              annotated_image <- copy image ;;
              draw_highest w (class_names self) annotated_image highest_confidence bs ;;;
              ret (annotated_image, best_detection)
          | None => ret (image, best_detection)
          end
      | None => ret (image, None)
      end
  | [] => ret (image, None)
  end.

(** [predict_single]: the guard, then the [try] with its
    [except Exception].  The image is returned by reference. *)
Definition predict_single (w : World) (self : t) (image : loc)
  : M (loc * option Detection) :=
  match use_mock self, model self with
  | false, Some m =>
      try_except (predict_single_try w self m image)
                 (fun _ => ret (image, None))
  | _, _ => ret (image, None)
  end.

(** *** The background loop and [predict_async] *)

Definition process_queue_args : PredictArgs :=
  {| arg_conf := 25 # 100; arg_imgsz := 256; arg_verbose := false;
     arg_max_det := 1; arg_agnostic_nms := true |}.

Definition start_processing (self : t) : t := set_is_processing true self.

(** [join(timeout=0.5)] waits and changes nothing. *)
Definition stop_processing (self : t) : t := set_is_processing false self.

Definition mock_detection : Detection :=
  {| class_name := "Mock"; confidence := 95 # 100; class_id := None |}.

Definition mock_box : DrawOp := Rectangle (50, 50) (200, 200) green 2.
Definition mock_text : DrawOp :=
  PutText "Mock Detection" (60, 40) FONT_HERSHEY_SIMPLEX (7 # 10) green 2.

(** The placeholder branch, up to the result tuple. *)
Definition process_frame_mock (w : World) (frame : loc) : M Result :=
  display_frame <- copy frame ;;
  draw (accepts w) display_frame mock_box ;;;
  draw (accepts w) display_frame mock_text ;;;
  ret (Some display_frame, Some mock_detection).

(** [for box in result.boxes: ...; break]. *)
Definition first_detection (names : gmap Z string) (bs : list Box) : option Detection :=
  match bs with
  | [] => None
  | box :: _ => Some (detection_of names box)
  end.

(** The detector branch, up to the result tuple. *)
Definition process_frame_model (w : World) (self : t) (frame : loc) : M Result :=
  match model self with
  | None => raise (Exception "AttributeError")
  | Some m =>
      img <- read frame ;;
      results <- lift (model_predict w m img process_queue_args) ;;
      display_frame <- copy frame ;;
      ret (Some display_frame,
           match results with
           | result :: _ =>
               match boxes result with
               | Some bs => first_detection (class_names self) bs
               | None => None
               end
           | [] => None
           end)
  end.

(** [self.last_result = r; if self.result_queue.empty(): self.result_queue.put(r)];
    [None] when the blocking [put] would wait. *)
Definition publish (r : Result) (self : t) : option t :=
  let self1 := set_last_result r self in
  if Queue.empty (result_queue self1) then
    match Queue.put (result_queue self1) r with
    | Some q => Some (set_result_queue q self1)
    | None => None
    end
  else Some self1.

(** Where the background thread is. *)
Inductive Worker :=
| NotStarted
| AtLoopTest
| Holding (frame : loc)
| Left.

(** One turn of the thread running [_process_queue]: the loop test and
    [get(timeout=0.01)], or the processing of the frame in hand.  An
    exception inside the [try] leads back to the loop test.  [None] when
    the thread would wait for ever.  The loop test and the [get] are one
    turn here; [BackgroundLoop], further down, takes them apart. *)
Definition _process_queue (w : World) (self : t) (h : heap) (k : Worker)
  : option (t * heap * Worker) :=
  match k with
  | NotStarted => Some (self, h, NotStarted)
  | Left => Some (self, h, Left)
  | AtLoopTest =>
      if is_processing self then
        match Queue.get_nowait (detection_queue self) with
        | inl _ => Some (self, h, AtLoopTest)
        | inr (None, q) => Some (set_detection_queue q self, h, Left)
        | inr (Some frame, q) => Some (set_detection_queue q self, h, Holding frame)
        end
      else Some (self, h, Left)
  | Holding frame =>
      match (if use_mock self then process_frame_mock w frame
             else process_frame_model w self frame) h with
      | (h', inl _) => Some (self, h', AtLoopTest)
      | (h', inr r) =>
          match publish r self with
          | Some self' => Some (self', h', AtLoopTest)
          | None => None
          end
      end
  end.

(** The first half of [predict_async], after the guard: enqueue the frame
    if the submission slot is empty. *)
Definition predict_async_submit (self : t) (frame : Frame) : t :=
  if Queue.empty (detection_queue self) then
    match Queue.put_nowait (detection_queue self) frame with
    | inr q => set_detection_queue q self
    | inl _ => self
    end
  else self.

(** The second half: take the result slot, or fall back. *)
Definition predict_async_fetch (self : t) (frame : Frame) : t * Result :=
  match Queue.get_nowait (result_queue self) with
  | inr (r, q) => (set_result_queue q self, r)
  | inl _ =>
      (self, match last_result self with
             | Some r => r
             | None => (frame, None)
             end)
  end.

Definition predict_async (self : t) (frame : Frame) : t * Result :=
  if negb (is_processing self) then (self, (frame, None))
  else predict_async_fetch (predict_async_submit self frame) frame.

(** *** The caller and the background thread, interleaved

    One caller (the UI thread) and one background thread.  The caller's
    [predict_async] is cut between its two halves, where the other thread
    may run. *)
Record Sys := mkSys {
  loader : t;
  store : heap;
  worker : Worker;
  caller : option Frame
}.

Inductive Action :=
| CallBegin (frame : Frame)
| CallEnd
| Start
| Stop
| WorkerTurn.

Definition worker_live (k : Worker) : bool :=
  match k with
  | AtLoopTest | Holding _ => true
  | NotStarted | Left => false
  end.

(** One action: the next state and what [predict_async] returned, if it
    returned.  [None]: the action is not possible in this state. *)
Definition step (w : World) (a : Action) (s : Sys) : option (Sys * option Result) :=
  match a with
  | CallBegin frame =>
      match caller s with
      | Some _ => None
      | None =>
          if negb (is_processing (loader s)) then Some (s, Some (frame, None))
          else Some (mkSys (predict_async_submit (loader s) frame)
                           (store s) (worker s) (Some frame), None)
      end
  | CallEnd =>
      match caller s with
      | None => None
      | Some frame =>
          let '(self, r) := predict_async_fetch (loader s) frame in
          Some (mkSys self (store s) (worker s) None, Some r)
      end
  | Start =>
      if worker_live (worker s) then None
      else Some (mkSys (start_processing (loader s)) (store s) AtLoopTest (caller s), None)
  | Stop =>
      Some (mkSys (stop_processing (loader s)) (store s) (worker s) (caller s), None)
  | WorkerTurn =>
      match _process_queue w (loader s) (store s) (worker s) with
      | Some (self, h, k) => Some (mkSys self h k (caller s), None)
      | None => None
      end
  end.

(** A schedule, action by action; the values returned to the caller, in
    order. *)
Fixpoint exec (w : World) (acts : list Action) (s : Sys) : option (Sys * list Result) :=
  match acts with
  | [] => Some (s, [])
  | a :: rest =>
      match step w a s with
      | None => None
      | Some (s1, out) =>
          match exec w rest s1 with
          | None => None
          | Some (s2, outs) =>
              Some (s2, match out with Some r => r :: outs | None => outs end)
          end
      end
  end.

(** A loader as [__init__] and [load_model] leave it, with a store. *)
Definition boot (w : World) (model_path : string) (h : heap) : Sys :=
  mkSys (fst (load_model w model_path (init w))) h NotStarted None.

End ModelLoader.

(** ** [camera_handler.py] *)

Module CameraThread.
Import Py Cv2 Ext.

Record t := mk {
  is_running : bool;
  frame_count : Z;
  last_fps_time : Q;
  frame_interval : Q;
  last_frame_time : Q;
  consecutive_failures : Z;
  max_failures : Z
}.

(** [__init__], at time [now]; [frame_interval] is the float
    [1.0 / 60], which is [4803839602528529 / 2^58]. *)
Definition init (now : Q) : t :=
  {| is_running := false; frame_count := 0; last_fps_time := now;
     frame_interval := 4803839602528529 # 288230376151711744; last_frame_time := 0;
     consecutive_failures := 0; max_failures := 10 |}.

(** What [start_camera] sets before [self.start()], once a port works. *)
Definition started (self : t) : t :=
  mk true (frame_count self) (last_fps_time self) (frame_interval self)
     (last_frame_time self) 0 (max_failures self).

(** What one pass of the loop meets at the camera. *)
Inductive Camera :=
| NoCamera                       (* [self.camera] is [None] or not opened *)
| ReadFailed                     (* [read()] returns [ret = False] *)
| ReadOk (frame : Image)
| Raises (e : exn).              (* a call inside the [try] raises *)

(** One pass of the loop as the environment decides it: whether
    [stop_camera] has cleared the flag since the last test, the clock, the
    camera. *)
Record Tick := { stop_requested : bool; now : Q; camera : Camera }.

Definition set_is_running (b : bool) (self : t) : t :=
  mk b (frame_count self) (last_fps_time self) (frame_interval self)
     (last_frame_time self) (consecutive_failures self) (max_failures self).

(** [self.consecutive_failures += 1]. *)
Definition count_failure (self : t) : t :=
  mk (is_running self) (frame_count self) (last_fps_time self) (frame_interval self)
     (last_frame_time self) (consecutive_failures self + 1) (max_failures self).

Inductive Flow := Continue | Break | Exit.

(** A failed pass: count it, [break] past the limit, else sleep [ms]
    (no sleep for [ms = 0]) and go on. *)
Definition failure (ms : Z) (self : t) : t * list Event * Flow :=
  let self1 := count_failure self in
  if consecutive_failures self1 >? max_failures self1 then (self1, [], Break)
  else (self1, if ms =? 0 then [] else [msleep ms], Continue).

(** A pass that read a frame. *)
Definition success (current_time : Q) (frame : Image) (self : t) : t * list Event * Flow :=
  let count := frame_count self + 1 in
  if Qgeb (current_time - last_fps_time self) (1 # 2) then
    let fps := (inject_Z count / (current_time - last_fps_time self))%Q in
    (mk (is_running self) 0 current_time (frame_interval self)
        current_time 0 (max_failures self),
     [fps_update fps; frame_ready frame], Continue)
  else
    (mk (is_running self) count (last_fps_time self) (frame_interval self)
        current_time 0 (max_failures self),
     [frame_ready frame], Continue).

(** The body of [while self.is_running], from the loop test on. *)
Definition iteration (tk : Tick) (self : t) : t * list Event * Flow :=
  let self0 := if stop_requested tk then set_is_running false self else self in
  if negb (is_running self0) then (self0, [], Exit)
  else
    let current_time := now tk in
    let time_since_last := (current_time - last_frame_time self0)%Q in
    if Qgtb (frame_interval self0) time_since_last then
      let sleep_time := ((frame_interval self0 - time_since_last) * inject_Z 1000)%Q in
      (self0, [msleep (Z.max 1 (int_of_float sleep_time))], Continue)
    else
      match camera tk with
      | NoCamera => failure 10 self0
      | ReadFailed => failure 0 self0
      | ReadOk frame => success current_time frame self0
      | Raises _ => failure 1 self0
      end.

(** [run] over the passes the environment provides: the state, the events
    and whether [run] has returned ([true]) or is still looping when the
    passes end. *)
Fixpoint run (ticks : list Tick) (self : t) : t * list Event * bool :=
  match ticks with
  | [] => (self, [], false)
  | tk :: rest =>
      match iteration tk self with
      | (self1, ev, Continue) =>
          let '(self2, ev2, returned) := run rest self1 in
          (self2, ev ++ ev2, returned)
      | (self1, ev, _) => (self1, ev, true)
      end
  end.

End CameraThread.

(** ** [file_processor.py] *)

Module FileProcessor.
Import Py Cv2 Ext.
Local Open Scope py_scope.

Record t := mk {
  files_to_process : list string;
  output_dir : string;
  last_processed_image : option loc;
  last_detection : option Detection
}.

Definition init : t := mk [] "output" None None.

Definition add_files (file_paths : list string) (self : t) : t :=
  mk (files_to_process self ++ file_paths) (output_dir self)
     (last_processed_image self) (last_detection self).

Definition set_last (image : loc) (detection : option Detection) (self : t) : t :=
  mk (files_to_process self) (output_dir self) (Some image) detection.

Definition clear_files (self : t) : t :=
  mk [] (output_dir self) (last_processed_image self) (last_detection self).

Definition processing_msg (i total : nat) (filename : string) : string :=
  "Processing " +:+ pretty (i + 1)%nat +:+ "/" +:+ pretty total +:+ ": " +:+ filename.

Definition detected_msg (filename : string) (d : Detection) : string :=
  "Detected: " +:+ filename +:+ " - " +:+ class_name d +:+
  " (" +:+ format_2f (confidence d) +:+ ")".

Definition error_msg (w : World) (file_path : string) (e : exn) : string :=
  let 'Exception msg := e in
  "Error: " +:+ basename w file_path +:+ " - " +:+ msg.

(** The [try] block of one turn of the loop. *)
Definition item_try (w : World) (ml : ModelLoader.t) (total i : nat)
    (file_path : string) : SE (Machine t) unit :=
  let filename := basename w file_path in
  emit (progress_update (processing_msg i total filename)) ;;;
  image <- ask (fun ev _ => imread w ev file_path) ;;
  match image with
  | None => emit (progress_update ("Skipped (invalid): " +:+ filename))
  | Some img =>
      image <- on_store (alloc img) ;;
      r <- on_store (ModelLoader.predict_single w ml image) ;;
      let '(processed_image, detection) := r in
      update (set_last processed_image detection) ;;;
      emit (image_processed processed_image detection filename) ;;;
      match detection with
      | Some d =>
          self <- self_ ;;
          let output_path := path_join w (output_dir self) ("detected_" +:+ filename) in
          emit (cv2_imwrite output_path processed_image) ;;;
          ask (fun ev h => imwrite w ev output_path h processed_image) ;;;
          emit (progress_update (detected_msg filename d))
      | None => emit (progress_update ("No detection: " +:+ filename))
      end
  end.

(** One turn: the [try] and its [except Exception as e]. *)
Definition item (w : World) (ml : ModelLoader.t) (total i : nat)
    (file_path : string) : SE (Machine t) unit :=
  try_except (item_try w ml total i file_path)
             (fun e => emit (progress_update (error_msg w file_path e))).

(** [for i, file_path in enumerate(files)], from index [i] on. *)
Fixpoint items (w : World) (ml : ModelLoader.t) (total i : nat)
    (files : list string) : SE (Machine t) unit :=
  match files with
  | [] => ret tt
  | file_path :: rest =>
      item w ml total i file_path ;;; items w ml total (S i) rest
  end.

(** [run]; [os.makedirs] is outside every [try]. *)
Definition run (w : World) (ml : ModelLoader.t) : SE (Machine t) unit :=
  self <- self_ ;;
  emit (os_makedirs (output_dir self)) ;;;
  ask (fun ev _ => makedirs w ev (output_dir self)) ;;;
  let total_files := length (files_to_process self) in
  items w ml total_files 0 (files_to_process self) ;;;
  update clear_files ;;;
  emit finished_processing.

End FileProcessor.

(** ** [ui/main_window.py] *)

Module MainWindow.
Import Py Cv2 Ext.
Local Open Scope py_scope.

Record t := mk {
  model_loader : ModelLoader.t;
  is_camera_on : bool;
  processing_files : bool
}.

Definition set_model_loader (ml : ModelLoader.t) (self : t) : t :=
  mk ml (is_camera_on self) (processing_files self).
Definition set_processing_files (b : bool) (self : t) : t :=
  mk (model_loader self) (is_camera_on self) b.

(** [__init__] up to [load_model]. *)
Definition init (w : World) : t := mk (ModelLoader.init w) false false.

(** [hide_loading]: the flag, and the widgets. *)
Definition do_hide_loading : SE (Machine t) unit :=
  update (set_processing_files false) ;;; emit hide_loading.

(** A method of [self.model_loader], run from the window. *)
Definition on_model_loader {A} (m : SE ModelLoader.t A) : SE (Machine t) A :=
  fun '(self, h, ev) =>
    let '(ml, r) := m (model_loader self) in ((set_model_loader ml self, h, ev), r).

Definition load_model (w : World) : SE (Machine t) unit :=
  emit (log_message "Loading YOLOv11 model...") ;;;
  loaded <- on_model_loader (ModelLoader.load_model w "trained_model/best.pt") ;;
  if loaded then
    update (fun self => set_model_loader (ModelLoader.start_processing (model_loader self)) self) ;;;
    emit start_processing_thread ;;;
    emit (log_message "Model loaded successfully!")
  else
    emit (log_message "Failed to load model").

Definition detected_with (prefix : string) (d : Detection) : string :=
  prefix +:+ class_name d +:+ " detected with confidence " +:+ format_2f (confidence d).

Definition snapshot_path (now : struct_time) : string :=
  "snapshots/snapshot_" +:+ strftime_Ymd_HMS now +:+ ".jpg".

(** [predict_single] on the machine's store. *)
Definition predict (w : World) (image : loc) : SE (Machine t) (loc * option Detection) :=
  self <- self_ ;;
  on_store (ModelLoader.predict_single w (model_loader self) image).

(** The [try] block of [process_snapshot]; [now] is the local time at the
    call of [strftime]. *)
Definition process_snapshot_try (w : World) (now : struct_time) (snapshot_frame : loc)
  : SE (Machine t) unit :=
  img <- on_store (read snapshot_frame) ;;
  flipped <- lift (flip w img) ;;
  snapshot_frame <- on_store (alloc flipped) ;;
  r <- predict w snapshot_frame ;;
  let '(processed_image, detection) := r in
  emit (display_detected_image processed_image) ;;;
  emit (update_detection_info detection) ;;;
  match detection with
  | Some d => emit (log_message (detected_with "Snapshot: " d))
  | None => emit (log_message "Snapshot: No objects detected")
  end ;;;
  match detection with
  | Some _ =>
      emit (os_makedirs "output") ;;;
      ask (fun ev _ => makedirs w ev "output") ;;;
      let snapshot_path := snapshot_path now in
      emit (cv2_imwrite snapshot_path processed_image) ;;;
      ask (fun ev h => imwrite w ev snapshot_path h processed_image) ;;;
      emit (log_message ("Saved to: " +:+ snapshot_path))
  | None => emit (log_message "Image not saved (no detections)")
  end.

Definition process_snapshot (w : World) (now : struct_time) (snapshot_frame : loc)
  : SE (Machine t) unit :=
  try_finally
    (try_except (process_snapshot_try w now snapshot_frame)
       (fun e => let 'Exception msg := e in
                 emit (log_message ("Error processing snapshot: " +:+ msg))))
    do_hide_loading.

(** [process_single_image]: a [try] with a [finally] and no [except]. *)
Definition process_single_image (w : World) (file_path : string) : SE (Machine t) unit :=
  try_finally
    (let filename := basename w file_path in
     emit (log_message ("Processing: " +:+ filename)) ;;;
     image <- ask (fun ev _ => imread w ev file_path) ;;
     match image with
     | Some img =>
         image <- on_store (alloc img) ;;
         r <- predict w image ;;
         let '(processed_image, detection) := r in
         emit (display_detected_image processed_image) ;;;
         emit (update_detection_info detection) ;;;
         match detection with
         | Some d => emit (log_message (detected_with ("Image: " +:+ filename +:+ " - ") d))
         | None => emit (log_message ("Image: " +:+ filename +:+ " - No objects detected"))
         end ;;;
         match detection with
         | Some _ =>
             emit (os_makedirs "output") ;;;
             ask (fun ev _ => makedirs w ev "output") ;;;
             let output_path := "output/detected_" +:+ filename in
             emit (cv2_imwrite output_path processed_image) ;;;
             ask (fun ev h => imwrite w ev output_path h processed_image) ;;;
             emit (log_message ("Saved: " +:+ output_path))
         | None => emit (log_message "Image not saved (no detections)")
         end
     | None =>
         emit (log_message ("Failed to load image: " +:+ filename)) ;;;
         emit (set_camera_label_text "Failed to load image
Try another image")
     end)
    do_hide_loading.

End MainWindow.

(** ** A concrete environment, for running the definitions *)

Module Demo.
Import Py Cv2 Ext.

(** [posixpath.basename]: what follows the last slash. *)
Fixpoint basename_from (acc s : string) : string :=
  match s with
  | EmptyString => acc
  | String c rest =>
      if Ascii.eqb c (Ascii.ascii_of_nat 47) then basename_from EmptyString rest
      else basename_from (acc +:+ String c EmptyString) rest
  end.
Definition posix_basename (s : string) : string := basename_from EmptyString s.

(** [posixpath.join] of a relative directory and a file name. *)
Definition posix_join (a b : string) : string := a +:+ "/" +:+ b.

Definition mug : Box :=
  {| conf := 81 # 100; cls := 5; xyxy := (10, 10, 100, 100)%Q |}.
Definition pen : Box :=
  {| conf := 40 # 100; cls := 7; xyxy := (200, 200, 50, 50)%Q |}.

Definition frame0 : Image := {| pixels := [17; 34; 51]; canvas := [] |}.

(** Files whose name ends in [g] ([.jpg], [.png], ...) decode; others are
    unreadable. *)
Fixpoint ends_in_g (s : string) : bool :=
  match s with
  | EmptyString => false
  | String c EmptyString => Ascii.eqb c (Ascii.ascii_of_nat 103)
  | String _ rest => ends_in_g rest
  end.

(** A working detector that reports a mug and a pen on every image. *)
Definition world : World :=
  {| import_YOLO := true;
     YOLO := fun _ => inr 0%nat;
     model_call := fun _ => inr tt;
     model_names := fun _ => None;
     model_predict := fun _ _ _ => inr [ {| boxes := Some [pen; mug] |} ];
     accepts := fun _ _ => true;
     getTextSize := fun text _ _ _ => inr (Z.of_nat (String.length text) * 9, 11);
     flip := fun img => inr img;
     imread := fun _ path =>
       inr (if ends_in_g path then Some frame0 else None);
     imwrite := fun _ _ _ _ => inr true;
     makedirs := fun _ _ => inr tt;
     basename := posix_basename;
     path_join := posix_join |}.

Definition with_YOLO (f : string -> Exc ModelHandle) (w : World) : World :=
  Build_World (import_YOLO w) f (model_call w) (model_names w) (model_predict w)
              (accepts w) (getTextSize w) (flip w) (imread w) (imwrite w)
              (makedirs w) (basename w) (path_join w).

Definition with_model_predict
    (f : ModelHandle -> Image -> PredictArgs -> Exc (list Results)) (w : World) : World :=
  Build_World (import_YOLO w) (YOLO w) (model_call w) (model_names w) f
              (accepts w) (getTextSize w) (flip w) (imread w) (imwrite w)
              (makedirs w) (basename w) (path_join w).

Definition with_accepts (f : DrawOp -> Image -> bool) (w : World) : World :=
  Build_World (import_YOLO w) (YOLO w) (model_call w) (model_names w) (model_predict w)
              f (getTextSize w) (flip w) (imread w) (imwrite w)
              (makedirs w) (basename w) (path_join w).

Definition with_imread (f : list Event -> string -> Exc (option Image)) (w : World) : World :=
  Build_World (import_YOLO w) (YOLO w) (model_call w) (model_names w) (model_predict w)
              (accepts w) (getTextSize w) (flip w) f (imwrite w)
              (makedirs w) (basename w) (path_join w).

(** The same machine when the weights cannot be loaded. *)
Definition world_no_model : World :=
  with_YOLO (fun _ => inl (Exception "FileNotFoundError")) world.

(** The same machine when inference fails. *)
Definition world_failing_predict : World :=
  with_model_predict (fun _ _ _ => inl (Exception "RuntimeError")) world.

(** The same machine when reading the first file of a batch fails. *)
Definition world_failing_read : World :=
  with_imread
    (fun ev path =>
       match ev with
       | [_; _] => inl (Exception "PermissionError")
       | _ => imread world ev path
       end)
    world.

(** The same machine when OpenCV refuses to draw text. *)
Definition world_no_text : World :=
  with_accepts (fun op _ => match op with PutText _ _ _ _ _ _ => false | _ => true end)
               world.

(** A detector that reads the class off the first pixel. *)
Definition world_by_pixel : World :=
  with_model_predict
    (fun _ img _ =>
       inr [ {| boxes := Some (match pixels img with
                               | p :: _ => [ {| conf := 9 # 10; cls := inject_Z p;
                                                xyxy := (10, 10, 100, 100)%Q |} ]
                               | [] => []
                               end) |} ])
    world.

Definition frame_mug : Image := {| pixels := [5]; canvas := [] |}.
Definition frame_pen : Image := {| pixels := [7]; canvas := [] |}.
Definition frame_phone : Image := {| pixels := [8]; canvas := [] |}.

Definition loaded : ModelLoader.t :=
  fst (ModelLoader.load_model world "trained_model/best.pt" (ModelLoader.init world)).

Definition unloaded : ModelLoader.t :=
  fst (ModelLoader.load_model world_no_model "trained_model/best.pt"
                              (ModelLoader.init world_no_model)).

End Demo.


(** ** [camera_handler.py]: opening and closing the camera *)

Module CameraOpen.
Import Py Cv2 Ext.

(** One call of [self.camera.read()] while a port is tried. *)
Inductive ReadTry :=
| GotFrame (frame : Image)      (* [ret] is true and the frame is not [None] *)
| NoFrame
| ReadRaised (e : exn).

(** What a port does when it is tried: the constructor raises; the capture
    is not opened; or it is opened, the five [set] calls go through or one
    raises, and the reads answer in turn. *)
Inductive PortBehaviour :=
| ConstructorRaises (e : exn)
| NotOpened
| Opened (set_raises : bool) (read : nat -> ReadTry).

(** What [start_camera] and [stop_camera] do to the outside. *)
Inductive CamEvent :=
| VideoCapture (port : Z)
| Release (port : Z)
| Sleep (seconds : Q)
| Wait (ms : Z)
| StartThread
| EmitCameraError (msg : string).

(** The thread object with the two attributes [run] does not touch:
    [self.port], and [self.camera] (the port of the capture object it holds,
    if any). *)
Record t := mk {
  thread : CameraThread.t;
  port : Z;
  camera : option Z
}.

Definition State : Type := (t * list CamEvent)%type.

(** [if self.camera: self.camera.release(); self.camera = None]. *)
Definition release_camera (st : State) : State :=
  let '(self, ev) := st in
  match camera self with
  | Some p => (mk (thread self) (port self) None, ev ++ [Release p])
  | None => st
  end.

(** [stop_camera]; [thread_running] is what [self.isRunning()] answers. *)
Definition stop_camera (thread_running : bool) (st : State) : State :=
  let '(self, ev) := st in
  let '(self1, ev1) :=
    release_camera (mk (CameraThread.set_is_running false (thread self))
                       (port self) (camera self), ev) in
  (self1, if thread_running then ev1 ++ [Wait 300] else ev1).

(** [for _ in range(n)]: read, and return at the first frame; [i] reads have
    been made.  [Some true]: a frame was read; [Some false]: none in [n]
    reads; [None]: a read raised. *)
Fixpoint verify (read : nat -> ReadTry) (i n : nat) : option bool :=
  match n with
  | O => Some false
  | S n' =>
      match read i with
      | GotFrame _ => Some true
      | NoFrame => verify read (S i) n'
      | ReadRaised _ => None
      end
  end.

(** One turn of [for test_port in [port, 1, 2, 3]], with its [try] and
    [except]: [true] when [start_camera] returns [True] from it. *)
Definition try_port (device : Z -> PortBehaviour) (test_port : Z) (st : State)
  : State * bool :=
  let '(self, ev) := st in
  let ev := ev ++ [VideoCapture test_port] in
  match device test_port with
  | ConstructorRaises _ => (release_camera (self, ev), false)
  | NotOpened => ((mk (thread self) (port self) (Some test_port), ev), false)
  | Opened set_raises read =>
      let self := mk (thread self) (port self) (Some test_port) in
      if set_raises then (release_camera (self, ev), false)
      else
        match verify read 0 3 with
        | Some true =>
            ((mk (CameraThread.started (thread self)) test_port (camera self),
              ev ++ [StartThread]), true)
        | Some false => (release_camera (self, ev), false)
        | None => (release_camera (self, ev), false)
        end
  end.

Fixpoint try_ports (device : Z -> PortBehaviour) (ports : list Z) (st : State)
  : State * bool :=
  match ports with
  | [] => (st, false)
  | test_port :: rest =>
      match try_port device test_port st with
      | (st1, true) => (st1, true)
      | (st1, false) => try_ports device rest st1
      end
  end.

Definition start_camera (device : Z -> PortBehaviour) (thread_running : bool)
    (port : Z) (st : State) : State * bool :=
  let '(self, ev) := stop_camera thread_running st in
  match try_ports device [port; 1; 2; 3] (self, ev ++ [Sleep (2 # 10)]) with
  | (st1, true) => (st1, true)
  | ((self1, ev1), false) =>
      ((self1, ev1 ++ [EmitCameraError "No camera found on ports 0-3"]), false)
  end.

End CameraOpen.

(** ** [model_loader.py]: the background loop, statement by statement

    In [ModelLoader.step] a turn of the background thread at the head of its
    loop is the test [while self.is_processing] together with the
    [get(timeout=0.01)] that follows.  Here the two are turns of their own:
    between them the other thread may submit a frame or clear the flag. *)

Module BackgroundLoop.
Import Py Cv2 Ext.
Import ModelLoader (t, Frame, Result, Action, CallBegin, CallEnd, Start, Stop, WorkerTurn).

(** Where the background thread is. *)
Inductive Point :=
| NotStarted
| AtLoopTest                     (* at [while self.is_processing] *)
| InGet                          (* in [self.detection_queue.get(timeout=0.01)] *)
| Holding (frame : loc)
| Left.

(** One turn of the thread: the loop test; the return of [get], with an
    element or, the queue being empty, with [queue.Empty] after the timeout;
    or the processing of the frame in hand, as in
    [ModelLoader._process_queue]. *)
Definition turn (w : World) (self : t) (h : heap) (k : Point)
  : option (t * heap * Point) :=
  match k with
  | NotStarted => Some (self, h, NotStarted)
  | Left => Some (self, h, Left)
  | AtLoopTest => Some (self, h, if ModelLoader.is_processing self then InGet else Left)
  | InGet =>
      match Queue.get_nowait (ModelLoader.detection_queue self) with
      | inl _ => Some (self, h, AtLoopTest)
      | inr (None, q) => Some (ModelLoader.set_detection_queue q self, h, Left)
      | inr (Some frame, q) => Some (ModelLoader.set_detection_queue q self, h, Holding frame)
      end
  | Holding frame =>
      match ModelLoader._process_queue w self h (ModelLoader.Holding frame) with
      | Some (self', h', _) => Some (self', h', AtLoopTest)
      | None => None
      end
  end.

Record Sys := mkSys {
  loader : t;
  store : heap;
  point : Point;
  caller : option Frame
}.

Definition live (k : Point) : bool :=
  match k with
  | AtLoopTest | InGet | Holding _ => true
  | NotStarted | Left => false
  end.

(** One action, as in [ModelLoader.step]. *)
Definition step (w : World) (a : Action) (s : Sys) : option (Sys * option Result) :=
  match a with
  | CallBegin frame =>
      match caller s with
      | Some _ => None
      | None =>
          if negb (ModelLoader.is_processing (loader s)) then Some (s, Some (frame, None))
          else Some (mkSys (ModelLoader.predict_async_submit (loader s) frame)
                           (store s) (point s) (Some frame), None)
      end
  | CallEnd =>
      match caller s with
      | None => None
      | Some frame =>
          let '(self, r) := ModelLoader.predict_async_fetch (loader s) frame in
          Some (mkSys self (store s) (point s) None, Some r)
      end
  | Start =>
      if live (point s) then None
      else Some (mkSys (ModelLoader.start_processing (loader s)) (store s)
                       AtLoopTest (caller s), None)
  | Stop =>
      Some (mkSys (ModelLoader.stop_processing (loader s)) (store s) (point s) (caller s),
            None)
  | WorkerTurn =>
      match turn w (loader s) (store s) (point s) with
      | Some (self, h, k) => Some (mkSys self h k (caller s), None)
      | None => None
      end
  end.

Fixpoint exec (w : World) (acts : list Action) (s : Sys) : option (Sys * list Result) :=
  match acts with
  | [] => Some (s, [])
  | a :: rest =>
      match step w a s with
      | None => None
      | Some (s1, out) =>
          match exec w rest s1 with
          | None => None
          | Some (s2, outs) =>
              Some (s2, match out with Some r => r :: outs | None => outs end)
          end
      end
  end.

Definition boot (w : World) (model_path : string) (h : heap) : Sys :=
  mkSys (fst (ModelLoader.load_model w model_path (ModelLoader.init w))) h NotStarted None.

End BackgroundLoop.

(** ** [imghdr.py] *)

From Stdlib Require Import Strings.Byte Qminmax.

Module Imghdr.
Import Py.
Import Init.Byte.

Abbreviation bytes := (list byte).

(** [header.startswith(sig)]. *)
Fixpoint startswith (header sig : bytes) {struct sig} : bool :=
  match sig, header with
  | [], _ => true
  | _ :: _, [] => false
  | s :: sig', b :: header' => Byte.eqb b s && startswith header' sig'
  end.

(** [sub in s]. *)
Fixpoint contains (sub s : bytes) : bool :=
  startswith s sub
  || match s with
     | [] => false
     | _ :: s' => contains sub s'
     end.

(** [s[i:j]]. *)
Definition slice (i j : nat) (s : bytes) : bytes := take (j - i) (drop i s).

Definition _SIGNATURES : list (bytes * string) :=
  [ ([xff; xd8; xff], "jpeg");
    ([x89; x50; x4e; x47; x0d; x0a; x1a; x0a], "png");   (* \x89PNG\r\n\x1a\n *)
    ([x47; x49; x46; x38; x37; x61], "gif");             (* GIF87a *)
    ([x47; x49; x46; x38; x39; x61], "gif");             (* GIF89a *)
    ([x42; x4d], "bmp");                                 (* BM *)
    ([x52; x49; x46; x46], "webp");                      (* RIFF *)
    ([x49; x49; x2a; x00], "tiff");                      (* II*\x00 *)
    ([x4d; x4d; x00; x2a], "tiff") ].                    (* MM\x00* *)

Definition WEBP : bytes := [x57; x45; x42; x50].

(** [open(file, 'rb')] and [f.read(n)] under their [try]: the first [n]
    bytes, or nothing when either raises.  [fs] gives the contents of a
    file, or the error. *)
Definition _read_header_from_file (fs : string -> Exc bytes) (file : string) (n : nat)
  : bytes :=
  match fs file with
  | inr content => take n content
  | inl _ => []
  end.

(** [for sig, typ in sigs], on a non-empty [header]. *)
Fixpoint check_signatures (sigs : list (bytes * string)) (header : bytes)
  : option string :=
  match sigs with
  | [] => None
  | (sig, typ) :: rest =>
      if startswith header sig then
        if String.eqb typ "webp" then
          if contains WEBP (slice 8 16 header) then Some "webp"
          else check_signatures rest header
        else Some typ
      else check_signatures rest header
  end.

(** The first argument of [what]. *)
Inductive FileArg :=
| Str (path : string)
| Bytes (b : bytes)                (* [bytes] or [bytearray] *)
| NoFile.                          (* [None], or any other object *)

Definition what (fs : string -> Exc bytes) (file : FileArg) (h : option bytes)
  : option string :=
  let header :=
    match h, file with
    | Some h, _ => Some (take 32 h)
    | None, Bytes b => Some (take 32 b)
    | None, Str path => Some (_read_header_from_file fs path 32)
    | None, NoFile => None
    end in
  match header with
  | None => None
  | Some [] => None
  | Some header => check_signatures _SIGNATURES header
  end.

End Imghdr.

(** ** [random_rename_watcher.py] *)

Module Watcher.
Import Py.

(** The calls that act on the outside, in order. *)
Inductive WEvent :=
| time_sleep (secs : Q)
| os_rename (src dst : string).

(** The operating system.  The file system may answer differently as the
    run goes on: its operations see the events so far. *)
Record Os := {
  read_file : list WEvent -> string -> Exc Imghdr.bytes;
  path_exists : list WEvent -> string -> bool;
  rename : list WEvent -> string -> string -> Exc unit;
  isdir : string -> bool;
  join : string -> string -> string;
  splitext_ext : string -> string;             (* [os.path.splitext(p)[1]] *)
  lower : string -> string;
  uuid4_hex : nat -> string                    (* the successive [uuid.uuid4().hex] *)
}.

(** [for _ in range(tries)], the [i]-th identifier first: the number of
    identifiers drawn so far, and the name or the error. *)
Fixpoint generate_random_name_from (tries : nat) (os : Os) (ev : list WEvent)
    (i : nat) (directory extension : string) : nat * Exc string :=
  match tries with
  | O => (i, inl (Exception "FileExistsError"))
  | S tries' =>
      let name := uuid4_hex os i in
      let fname := name +:+ extension in
      let path := join os directory fname in
      if negb (path_exists os ev path) then (S i, inr fname)
      else generate_random_name_from tries' os ev (S i) directory extension
  end.

(** [generate_random_name], after [i] identifiers have been drawn. *)
Definition generate_random_name (os : Os) (ev : list WEvent) (i : nat)
    (directory extension : string) : nat * Exc string :=
  generate_random_name_from (Z.to_nat 10000) os ev i directory extension.

Definition mapping : gmap string string :=
  list_to_map [("jpeg", ".jpg"); ("png", ".png"); ("gif", ".gif");
               ("bmp", ".bmp"); ("webp", ".webp"); ("tiff", ".tif")].

Definition infer_extension (os : Os) (ev : list WEvent) (path : string) : string :=
  let fallback :=
    let ext := lower os (splitext_ext os path) in
    if String.eqb ext "" then ".img" else ext in
  match Imghdr.what (read_file os ev) (Imghdr.Str path) None with
  | Some kind =>
      if String.eqb kind "" then fallback
      else default ("." +:+ kind) (mapping !! kind)
  | None => fallback
  end.

(** [is_image_file].  [what] catches the errors of opening and reading
    the file itself, and nothing else in it raises: the [except] branch is
    not taken. *)
Definition is_image_file (os : Os) (ev : list WEvent) (path : string) : bool :=
  match Imghdr.what (read_file os ev) (Imghdr.Str path) None with
  | Some _ => true
  | None => false
  end.

(** What one turn of the loop of [wait_for_stable_file] meets: the clock
    at the loop test, and [os.path.getsize] after the sleep ([None] for an
    [OSError]). *)
Record Probe := { clock : Q; size : option Z }.

(** [while time.time() - start < timeout], over the turns the environment
    provides; [None] when they end before the loop does. *)
Fixpoint wait_loop (start timeout interval : Q) (stable_checks : Z)
    (last_size consecutive : Z) (probes : list Probe)
  : list WEvent * option bool :=
  match probes with
  | [] => ([], None)
  | p :: rest =>
      if Qgtb timeout (clock p - start) then
        match size p with
        | None => ([time_sleep interval], Some false)
        | Some size =>
            if size =? last_size then
              let consecutive := consecutive + 1 in
              if consecutive >=? stable_checks then ([time_sleep interval], Some true)
              else
                let '(ev, r) := wait_loop start timeout interval stable_checks
                                          size consecutive rest in
                (time_sleep interval :: ev, r)
            else
              let '(ev, r) := wait_loop start timeout interval stable_checks
                                        size 0 rest in
              (time_sleep interval :: ev, r)
        end
      else ([], Some false)
  end.

(** [wait_for_stable_file]: [start] is the clock at the call, [first] the
    first [os.path.getsize]. *)
Definition wait_for_stable_file (start : Q) (first : option Z)
    (timeout interval : Q) (stable_checks : Z) (probes : list Probe)
  : list WEvent * option bool :=
  match first with
  | None => ([], Some false)
  | Some last_size => wait_loop start timeout interval stable_checks last_size 0 probes
  end.

(** How a part of the program ends: it goes on, it raises, or the
    observations of the environment end first. *)
Inductive Ending := Goes_on | Raised (e : exn) | Unobserved.

(** [rename_file_safely]: the identifiers drawn, the events, and the new
    name or [None]. *)
Definition rename_file_safely (os : Os) (ev : list WEvent) (i : nat)
    (src_path dest_dir : string) (dry_run : bool)
  : nat * list WEvent * Exc (option string) :=
  let ext := infer_extension os ev src_path in
  match generate_random_name os ev i dest_dir ext with
  | (i, inl e) => (i, ev, inl e)
  | (i, inr new_name) =>
      let dest_path := join os dest_dir new_name in
      if dry_run then (i, ev, inr (Some new_name))
      else
        match rename os ev src_path dest_path with
        | inr _ => (i, ev ++ [os_rename src_path dest_path], inr (Some new_name))
        | inl _ => (i, ev ++ [os_rename src_path dest_path], inr None)
        end
  end.

(** One [os.DirEntry] of a scan, with what the watcher meets when it waits
    for this file. *)
Record Entry := {
  name : string;
  is_file : bool;
  start : Q;
  first_size : option Z;
  probes : list Probe
}.

(** The watcher: the names seen, the events, and the number of
    identifiers drawn so far. *)
Record t := mk { seen : gset string; trace : list WEvent; drawn : nat }.

(** [name.startswith(".") or name.startswith("~")]. *)
Definition hidden (name : string) : bool :=
  match name with
  | String c _ => Ascii.eqb c (Ascii.ascii_of_nat 46) || Ascii.eqb c (Ascii.ascii_of_nat 126)
  | EmptyString => false
  end.

Definition add_seen (name : string) (self : t) : t :=
  mk ({[ name ]} ∪ seen self) (trace self) (drawn self).

(** The body of [for entry in os.scandir(directory)] in the loop. *)
Definition handle_entry (os : Os) (directory : string) (poll_interval : Q)
    (stability_timeout : Q) (stable_checks : Z) (dry_run : bool)
    (entry : Entry) (self : t) : t * Ending :=
  if negb (is_file entry) then (self, Goes_on)
  else
    let name := name entry in
    if decide (name ∈ seen self) then (self, Goes_on)
    else if hidden name then (add_seen name self, Goes_on)
    else
      let path := join os directory name in
      let '(slept, stable) :=
        wait_for_stable_file (start entry) (first_size entry) stability_timeout
                             (Qmin (1 # 2) poll_interval) stable_checks (probes entry) in
      let self := mk (seen self) (trace self ++ slept) (drawn self) in
      match stable with
      | None => (self, Unobserved)
      | Some false => (self, Goes_on)
      | Some true =>
          if negb (is_image_file os (trace self) path) then (add_seen name self, Goes_on)
          else
            match rename_file_safely os (trace self) (drawn self) path directory dry_run with
            | (i, ev, inl e) => (mk (seen self) ev i, Raised e)
            | (i, ev, inr new_name) =>
                let self := add_seen name (mk (seen self) ev i) in
                match new_name with
                | Some new_name =>
                    if String.eqb new_name "" then (self, Goes_on)
                    else (add_seen new_name self, Goes_on)
                | None => (self, Goes_on)
                end
            end
      end.

(** One scan of the directory. *)
Fixpoint scan (os : Os) (directory : string) (poll_interval stability_timeout : Q)
    (stable_checks : Z) (dry_run : bool) (entries : list Entry) (self : t)
  : t * Ending :=
  match entries with
  | [] => (self, Goes_on)
  | entry :: rest =>
      match handle_entry os directory poll_interval stability_timeout stable_checks
                         dry_run entry self with
      | (self, Goes_on) =>
          scan os directory poll_interval stability_timeout stable_checks dry_run rest self
      | (self, ending) => (self, ending)
      end
  end.

(** [while True], over the scans the environment provides. *)
Fixpoint polls (os : Os) (directory : string) (poll_interval stability_timeout : Q)
    (stable_checks : Z) (dry_run : bool) (scans : list (list Entry)) (self : t)
  : t * Ending :=
  match scans with
  | [] => (self, Goes_on)
  | entries :: rest =>
      match scan os directory poll_interval stability_timeout stable_checks dry_run
                 entries self with
      | (self, Goes_on) =>
          polls os directory poll_interval stability_timeout stable_checks dry_run rest
                (mk (seen self) (trace self ++ [time_sleep poll_interval]) (drawn self))
      | (self, ending) => (self, ending)
      end
  end.

(** The names the watcher starts with: the files of the first scan. *)
Definition seed (existing : list Entry) : gset string :=
  list_to_set (map name (filter (fun entry => is_file entry = true) existing)).

(** [watch_directory]: [existing] is the scan that seeds [seen], [scans]
    are those of the loop.  A [KeyboardInterrupt] is left out. *)
Definition watch_directory (os : Os) (directory : string)
    (poll_interval stability_timeout : Q) (stable_checks : Z) (dry_run : bool)
    (existing : list Entry) (scans : list (list Entry)) : t * Ending :=
  if negb (isdir os directory) then (mk ∅ [] 0, Raised (Exception "NotADirectoryError"))
  else
    polls os directory poll_interval stability_timeout stable_checks dry_run scans
          (mk (seed existing) [] 0).

End Watcher.

(** A directory for the examples of the watcher: files whose name ends in
    [g] hold a PNG image, the others a text; no name is taken, every rename
    succeeds. *)
Module WatchDemo.
Import Py Watcher Init.Byte.

Definition png : Imghdr.bytes :=
  [x89; x50; x4e; x47; x0d; x0a; x1a; x0a; x00; x00; x00; x0d; x49; x48; x44; x52].

Definition os : Os :=
  {| read_file := fun _ path => if Demo.ends_in_g path then inr png else inr [x68; x69];
     path_exists := fun _ _ => false;
     rename := fun _ _ _ => inr tt;
     isdir := fun _ => true;
     join := Demo.posix_join;
     splitext_ext := fun _ => "";
     lower := fun s => s;
     uuid4_hex := fun i => "id" +:+ pretty i |}.

(** A file of 4096 bytes that does not change, met at time [t] and then
    after each of three sleeps of [interval] seconds. *)
Definition steady (name : string) (t interval : Q) : Entry :=
  {| name := name; is_file := true; start := t; first_size := Some 4096;
     probes := [ {| clock := t; size := Some 4096 |};
                 {| clock := t + interval; size := Some 4096 |};
                 {| clock := t + interval + interval; size := Some 4096 |} ] |}.

End WatchDemo.

(** ** [pinterest_scraper.py] *)

Module Scraper.
Import Py.

(** The loop [for u in urls] that removes duplicates, with [seen] and
    [out] as they stand. *)
Fixpoint dedupe (max_images : Z) (urls : list string) (seen : gset string)
    (out : list string) : list string :=
  match urls with
  | [] => out
  | u :: rest =>
      let '(seen, out) :=
        if decide (u ∈ seen) then (seen, out) else ({[ u ]} ∪ seen, out ++ [u]) in
      if Z.of_nat (length out) >=? max_images then out
      else dedupe max_images rest seen out
  end.

(** [gather_image_urls_requests], from the addresses found in the page
    on; [found] is an error when the request or the parser raises. *)
Definition gather_image_urls_requests (found : Exc (list string)) (max_images : Z)
  : Exc (list string) :=
  match found with
  | inl e => inl e
  | inr urls => inr (dedupe max_images urls ∅ [])
  end.

End Scraper.

(** ** [combine_image.py] *)

Module CombineImage.
Import Py.

(** A box [(x, y, w, h)] of integers. *)
Definition Box4 : Type := (Z * Z * Z * Z)%type.

(** [boxes_overlap]: the intersection over the union, [0] for an empty
    union.  The areas are integers; [fl] is the rounding of their quotient
    to a float. *)
Definition boxes_overlap (fl : Q -> Q) (box1 box2 : Box4) : Q :=
  let '(x1, y1, w1, h1) := box1 in
  let '(x2, y2, w2, h2) := box2 in
  let '(xi1, yi1) := (Z.max x1 x2, Z.max y1 y2) in
  let '(xi2, yi2) := (Z.min (x1 + w1) (x2 + w2), Z.min (y1 + h1) (y2 + h2)) in
  let inter_area := Z.max 0 (xi2 - xi1) * Z.max 0 (yi2 - yi1) in
  let union_area := w1 * h1 + w2 * h2 - inter_area in
  if union_area =? 0 then 0%Q else fl (inject_Z inter_area / inject_Z union_area)%Q.

(** One object of a scene: the size drawn for it, and the positions
    [(x, y)] drawn for it one after the other. *)
Record Obj := { scale : Z; position : nat -> Z * Z }.

(** [for _ in range(n)], the [i]-th position first: the object is placed
    at the first position where it overlaps every placed box by less than
    [max_overlap], or not at all. *)
Fixpoint place_from (n i : nat) (fl : Q -> Q) (max_overlap : Q) (obj : Obj)
    (placed_boxes : list Box4) : list Box4 :=
  match n with
  | O => placed_boxes
  | S n' =>
      let '(x, y) := position obj i in
      let box := (x, y, scale obj, scale obj) in
      if forallb (fun b => Qgtb max_overlap (boxes_overlap fl box b)) placed_boxes
      then placed_boxes ++ [box]
      else place_from n' (S i) fl max_overlap obj placed_boxes
  end.

(** The body of [for img_path in used]. *)
Definition place (fl : Q -> Q) (max_overlap : Q) (placed_boxes : list Box4) (obj : Obj)
  : list Box4 :=
  place_from 100 0 fl max_overlap obj placed_boxes.

(** The boxes of one scene. *)
Definition scene (fl : Q -> Q) (max_overlap : Q) (used : list Obj) : list Box4 :=
  fold_left (place fl max_overlap) used [].

End CombineImage.

(** ** [ui/main_window.py]: the live view *)

Module LiveView.
Import Py Cv2 Ext.
Local Open Scope py_scope.

(** The window with the attributes the live view uses; [frame_counter] is
    [None] as long as the attribute does not exist. *)
Record t := mk {
  window : MainWindow.t;
  last_detection_log : Q;
  last_display_time : Q;
  last_camera_frame : option loc;
  frame_counter : option Z;
  last_detection_frame : option loc
}.

(** [__init__], up to [load_model]. *)
Definition init (w : World) : t := mk (MainWindow.init w) 0 0 None None None.

Definition set_last_detection_log (x : Q) (self : t) : t :=
  mk (window self) x (last_display_time self) (last_camera_frame self)
     (frame_counter self) (last_detection_frame self).
Definition set_last_display_time (x : Q) (self : t) : t :=
  mk (window self) (last_detection_log self) x (last_camera_frame self)
     (frame_counter self) (last_detection_frame self).
Definition set_last_camera_frame (frame : loc) (self : t) : t :=
  mk (window self) (last_detection_log self) (last_display_time self) (Some frame)
     (frame_counter self) (last_detection_frame self).
Definition set_last_detection_frame (frame : loc) (self : t) : t :=
  mk (window self) (last_detection_log self) (last_display_time self)
     (last_camera_frame self) (frame_counter self) (Some frame).

(** [if not hasattr(self, 'frame_counter'): ...]. *)
Definition ensure_frame_counter (self : t) : t :=
  match frame_counter self with
  | Some _ => self
  | None =>
      mk (window self) (last_detection_log self) (last_display_time self)
         (last_camera_frame self) (Some 0) None
  end.

(** [self.frame_counter += 1]; an [AttributeError] without the attribute. *)
Definition count_frame : SE (Machine t) unit :=
  self <- self_ ;;
  match frame_counter self with
  | Some n =>
      update (fun self =>
                mk (window self) (last_detection_log self) (last_display_time self)
                   (last_camera_frame self) (Some (n + 1)) (last_detection_frame self))
  | None => raise (Exception "AttributeError")
  end.

Definition live_msg (d : Detection) : string :=
  "Live: " +:+ class_name d +:+ " - " +:+ format_2f (confidence d).

(** [process_camera_frame]; [current_time] is the clock at its
    [time.time()], [fl] the rounding of a difference of floats. *)
Definition process_camera_frame (w : World) (fl : Q -> Q) (current_time : Q) (frame : loc)
  : SE (Machine t) unit :=
  self <- self_ ;;
  if negb (MainWindow.is_camera_on (window self))
     || MainWindow.processing_files (window self)
  then ret tt
  else
    c <- on_store (copy frame) ;;
    update (set_last_camera_frame c) ;;;
    update ensure_frame_counter ;;;
    count_frame ;;;
    img <- on_store (read frame) ;;
    flipped <- lift (flip w img) ;;
    frame <- on_store (alloc flipped) ;;
    self <- self_ ;;
    let third := default 0 (frame_counter self) mod 3 =? 0 in
    r <- (if third then
            r <- on_store (ModelLoader.predict_single
                             w (MainWindow.model_loader (window self)) frame) ;;
            let '(processed_frame, detection) := r in
            c <- on_store (copy processed_frame) ;;
            update (set_last_detection_frame c) ;;;
            match detection with
            | Some d =>
                if Qgtb (fl (current_time - last_detection_log self)%Q) 2 then
                  emit (log_message (live_msg d)) ;;;
                  update (set_last_detection_log current_time) ;;;
                  ret (processed_frame, detection)
                else ret (processed_frame, detection)
            | None => ret (processed_frame, detection)
            end
          else
            match last_detection_frame self with
            | Some processed_frame => ret (processed_frame, None)
            | None => ret (frame, None)
            end) ;;
    let '(processed_frame, detection) := r in
    emit (display_detected_image processed_frame) ;;;
    update (set_last_display_time current_time) ;;;
    if third then emit (update_detection_info detection) else ret tt.

(** [update_detection_info]: the text and the colour of the label.  The
    float [0.8] is [3602879701896397 / 2^52], a little more than [8/10]. *)
Definition detection_info (detection : option Detection) : string * string :=
  match detection with
  | Some d =>
      let confidence := confidence d in
      let '(performance, color) :=
        if Qgeb confidence (3602879701896397 # 4503599627370496)
        then ("Excellent", "#27ae60")
        else if Qgeb confidence (1 # 2) then ("Good", "#f39c12")
        else ("Poor", "#e74c3c") in
      (class_name d +:+ ": " +:+ format_2f confidence +:+ " (" +:+ performance +:+ ")",
       color)
  | None => ("No detection", "#7f8c8d")
  end.

End LiveView.

(** ** Vocabulary of the statements *)

Module Spec.
Import Py Cv2 Ext.

(** [h'] is [h] but for drawing added on the object at [a]. *)
Definition drawn_at (a : loc) (h h' : heap) : Prop :=
  length h' = length h
  /\ (forall l, l <> a -> h' !! l = h !! l)
  /\ (forall im, h !! a = Some im ->
        exists ops, h' !! a = Some {| pixels := pixels im; canvas := canvas im ++ ops |}).

(** A computation that only draws on [a]. *)
Definition draws_at {A} (a : loc) (m : M A) : Prop :=
  forall h, drawn_at a h (fst (m h)).

(** [b], at index [i], has the highest confidence of [bs] and is the first
    to have it. *)
Definition first_highest (bs : list Box) (i : nat) (b : Box) : Prop :=
  bs !! i = Some b
  /\ (forall b', b' ∈ bs -> (conf b' <= conf b)%Q)
  /\ (forall j b', (j < i)%nat -> bs !! j = Some b' -> (conf b' < conf b)%Q).

(** The two slots are as [__init__] made them, hold at most one element
    each, and the result slot is empty until a first result is recorded. *)
Definition slots_ok (self : ModelLoader.t) : Prop :=
  Queue.maxsize (ModelLoader.detection_queue self) = 1%nat
  /\ Queue.maxsize (ModelLoader.result_queue self) = 1%nat
  /\ (Queue.qsize (ModelLoader.detection_queue self) <= 1)%nat
  /\ (Queue.qsize (ModelLoader.result_queue self) <= 1)%nat
  /\ (ModelLoader.last_result self = None ->
      Queue.items (ModelLoader.result_queue self) = []).

(** A pass that is neither stopped nor paced out and does not read a
    frame. *)
Definition failing (self : CameraThread.t) (tk : CameraThread.Tick) : bool :=
  negb (CameraThread.stop_requested tk)
  && negb (Qgtb (CameraThread.frame_interval self)
                (CameraThread.now tk - CameraThread.last_frame_time self))
  && match CameraThread.camera tk with
     | CameraThread.ReadOk _ => false
     | _ => true
     end.

(** What one turn of the batch loop emits after its progress line: never
    the completion event; an image written exactly when the turn's prediction
    carries a detection, under the name of the source file prefixed with
    [detected_], in the output directory; and a closing progress line. *)
Definition item_tail_ok (w : World) (dir file_path : string) (tail : list Event) : Prop :=
  (finished_processing ∉ tail)
  /\ (forall path image,
        cv2_imwrite path image ∈ tail ->
        path = path_join w dir ("detected_" +:+ basename w file_path)
        /\ exists d, image_processed image (Some d) (basename w file_path) ∈ tail)
  /\ (forall image d,
        image_processed image (Some d) (basename w file_path) ∈ tail ->
        cv2_imwrite (path_join w dir ("detected_" +:+ basename w file_path)) image ∈ tail)
  /\ (exists msg, last tail = Some (progress_update msg)).

(** The events of a batch, file by file: [chunks !! k] is what the turn for
    [files !! k] emitted, numbered from [i]. *)
Definition chunks_ok (w : World) (dir : string) (total i : nat)
    (files : list string) (chunks : list (list Event)) : Prop :=
  length chunks = length files
  /\ forall k file_path chunk,
       files !! k = Some file_path ->
       chunks !! k = Some chunk ->
       exists tail,
         chunk = progress_update
                   (FileProcessor.processing_msg (i + k) total (basename w file_path))
                 :: tail
         /\ item_tail_ok w dir file_path tail.

(** The calls of [cv2.imwrite] among the events: the path and the image of
    each, in order. *)
Definition writes (ev : list Event) : list (string * loc) :=
  omap (fun e => match e with
                 | cv2_imwrite path image => Some (path, image)
                 | _ => None
                 end) ev.

(** The annotated image [predict_single] returns for [img], once [img] is
    in the store [h], when it finds a detection. *)
Definition annotated (w : World) (ml : ModelLoader.t) (h : heap) (img : Image)
  : option loc :=
  match ModelLoader.predict_single w ml (length h) (h ++ [img]) with
  | (_, inr (processed_image, Some _)) => Some processed_image
  | _ => None
  end.

(** What the turn of the batch loop for [file_path] is to write, from the
    machine it starts in: the annotated image, if the file is read and a
    detection is found in it, under the file's name prefixed with
    [detected_], in the output directory. *)
Definition file_output (w : World) (ml : ModelLoader.t) (total i : nat)
    (file_path : string) (s : Machine FileProcessor.t) : list (string * loc) :=
  let '(self, h, ev) := s in
  let filename := basename w file_path in
  match imread w (ev ++ [progress_update (FileProcessor.processing_msg i total filename)])
               file_path with
  | inr (Some img) =>
      match annotated w ml h img with
      | Some processed_image =>
          [(path_join w (FileProcessor.output_dir self) ("detected_" +:+ filename),
            processed_image)]
      | None => []
      end
  | _ => []
  end.

(** What a batch is to write, file by file. *)
Fixpoint batch_output (w : World) (ml : ModelLoader.t) (total i : nat)
    (files : list string) (s : Machine FileProcessor.t) : list (string * loc) :=
  match files with
  | [] => []
  | file_path :: rest =>
      file_output w ml total i file_path s
      ++ batch_output w ml total (S i) rest
                      (fst (FileProcessor.item w ml total i file_path s))
  end.

End Spec.

(** ** More vocabulary *)

Module SpecMore.
Import Py Cv2 Ext.

(** [h'] has every object of [h], unchanged, and maybe new ones. *)
Definition extends (h h' : heap) : Prop :=
  (length h <= length h')%nat
  /\ forall l, (l < length h)%nat -> h' !! l = h !! l.

(** A result of the placeholder branch, or no detection. *)
Definition placeholder_or_none (r : ModelLoader.Result) : Prop :=
  snd r = None \/ snd r = Some ModelLoader.mock_detection.

(** In placeholder mode, with nothing but placeholder results recorded. *)
Definition placeholder_only (self : ModelLoader.t) : Prop :=
  ModelLoader.use_mock self = true
  /\ (forall r, r ∈ Queue.items (ModelLoader.result_queue self) ->
                snd r = Some ModelLoader.mock_detection)
  /\ (forall r, ModelLoader.last_result self = Some r ->
                snd r = Some ModelLoader.mock_detection).

(** A port on which [start_camera] settles: the capture opens, is
    configured, and one of the three trial reads gives a frame before any
    read raises. *)
Definition usable (device : Z -> CameraOpen.PortBehaviour) (p : Z) : bool :=
  match device p with
  | CameraOpen.Opened false read =>
      match CameraOpen.verify read 0 3 with
      | Some true => true
      | _ => false
      end
  | _ => false
  end.

(** A capture that has been opened on [p]. *)
Definition opens (device : Z -> CameraOpen.PortBehaviour) (p : Z) : Prop :=
  exists set_raises read, device p = CameraOpen.Opened set_raises read.

(** Events of a port tried and given up. *)
Definition probing (e : CameraOpen.CamEvent) : Prop :=
  exists p, e = CameraOpen.VideoCapture p \/ e = CameraOpen.Release p.

(** The events of ports tried and given up: each capture made is of a port
    that is not usable, and is released if it was opened. *)
Definition given_up (device : Z -> CameraOpen.PortBehaviour)
    (new : list CameraOpen.CamEvent) : Prop :=
  Forall probing new
  /\ forall q, CameraOpen.VideoCapture q ∈ new ->
               usable device q = false
               /\ (opens device q -> CameraOpen.Release q ∈ new).

(** The frames a run of the loop delivered, in order. *)
Definition frames_delivered (ev : list Event) : list Image :=
  omap (fun e => match e with frame_ready f => Some f | _ => None end) ev.

(** The frames the camera gave to the passes, in order. *)
Definition frames_read (ticks : list CameraThread.Tick) : list Image :=
  omap (fun tk => match CameraThread.camera tk with
                  | CameraThread.ReadOk f => Some f
                  | _ => None
                  end) ticks.

(** The clock advances by at least [interval] over each sleep of
    [wait_for_stable_file], from [t] on. *)
Fixpoint paced (t interval : Q) (probes : list Watcher.Probe) : Prop :=
  match probes with
  | [] => True
  | p :: rest =>
      (t <= Watcher.clock p)%Q /\ paced (Watcher.clock p + interval) interval rest
  end.

(** The files handed to [os.rename], in order. *)
Definition rename_sources (ev : list Watcher.WEvent) : list string :=
  omap (fun e => match e with
                 | Watcher.os_rename src _ => Some src
                 | _ => None
                 end) ev.

(** The elements of a list at their first occurrence, in order. *)
Fixpoint first_occurrences (l : list string) : list string :=
  match l with
  | [] => []
  | x :: l' => x :: filter (fun y => y <> x) (first_occurrences l')
  end.

(** Any two boxes of the list overlap by less than [max_overlap]. *)
Definition pairwise_below (fl : Q -> Q) (max_overlap : Q)
    (boxes : list CombineImage.Box4) : Prop :=
  forall i j b1 b2,
    boxes !! i = Some b1 -> boxes !! j = Some b2 -> i <> j ->
    (CombineImage.boxes_overlap fl b1 b2 < max_overlap)%Q.

(** What holds of the watcher of [directory] all along: it keeps the
    names it started with, and the files it handed to [os.rename] are
    distinct, new, not hidden, and seen. *)
Definition watching (os : Watcher.Os) (directory : string) (seeded : gset string)
    (self : Watcher.t) : Prop :=
  seeded ⊆ Watcher.seen self
  /\ NoDup (rename_sources (Watcher.trace self))
  /\ forall src, src ∈ rename_sources (Watcher.trace self) ->
       exists n, src = Watcher.join os directory n
                 /\ (n ∉ seeded) /\ Watcher.hidden n = false /\ n ∈ Watcher.seen self.


(** The turns of the background thread in a schedule. *)
Fixpoint worker_turns (acts : list ModelLoader.Action) : nat :=
  match acts with
  | [] => 0
  | ModelLoader.WorkerTurn :: rest => S (worker_turns rest)
  | _ :: rest => worker_turns rest
  end.

(** The turns the thread at [k] still takes, at most, once the flag is
    cleared. *)
Definition turns_left (k : BackgroundLoop.Point) : nat :=
  match k with
  | BackgroundLoop.InGet => 3
  | BackgroundLoop.Holding _ => 2
  | BackgroundLoop.AtLoopTest => 1
  | BackgroundLoop.NotStarted | BackgroundLoop.Left => 0
  end.

(** What the live view makes of a camera frame it processes: the picture
    [predict_single] gives for the mirrored frame, and the detection. *)
Definition live_result (w : World) (ml : ModelLoader.t) (h : heap) (img : Image)
  : option (Image * option Detection) :=
  match flip w img with
  | inr flipped =>
      match ModelLoader.predict_single w ml (S (length h)) (h ++ [img; flipped]) with
      | (h', inr (out, detection)) => (fun picture => (picture, detection)) <$> h' !! out
      | (_, inl _) => None
      end
  | inl _ => None
  end.

End SpecMore.

(** * Verification *)

Import Py Cv2 Ext Spec.

(** ** The store *)

Section Store.

Lemma lookup_fresh (h : heap) (im : Image) : (h ++ [im]) !! length h = Some im.
Proof. by rewrite list_lookup_middle. Qed.

Lemma insert_fresh (h : heap) (im y : Image) :
  <[length h := y]> (h ++ [im]) = h ++ [y].
Proof.
  replace (length h) with (length h + 0)%nat at 1 by lia.
  by rewrite insert_app_r.
Qed.

Lemma drawn_at_refl a h : drawn_at a h h.
Proof.
  repeat split; auto.
  intros [px cv] E. exists []. simpl. by rewrite app_nil_r.
Qed.

Lemma drawn_at_trans a h1 h2 h3 :
  drawn_at a h1 h2 -> drawn_at a h2 h3 -> drawn_at a h1 h3.
Proof.
  intros (L1 & O1 & A1) (L2 & O2 & A2). repeat split.
  - congruence.
  - intros l Hl. rewrite O2, O1; auto.
  - intros im E. destruct (A1 im E) as [ops1 E1].
    destruct (A2 _ E1) as [ops2 E2]. simpl in E2.
    exists (ops1 ++ ops2). by rewrite app_assoc.
Qed.

Lemma draws_at_ret {A} a (x : A) : draws_at a (ret x).
Proof. intros h. apply drawn_at_refl. Qed.

Lemma draws_at_lift {A} a (r : Exc A) : draws_at a (lift r).
Proof. intros h. apply drawn_at_refl. Qed.

Lemma draws_at_bind {A B} a (m : M A) (k : A -> M B) :
  draws_at a m -> (forall x, draws_at a (k x)) -> draws_at a (bind m k).
Proof.
  intros Hm Hk h. unfold bind. specialize (Hm h).
  destruct (m h) as [h1 [e | x]]; simpl in *; auto.
  eapply drawn_at_trans; eauto. apply Hk.
Qed.

Lemma draws_at_draw acc a op : draws_at a (draw acc a op).
Proof.
  intros h. unfold draw.
  destruct (h !! a) as [im |] eqn:E; [ | apply drawn_at_refl ].
  destruct (acc op im); [ | apply drawn_at_refl ]. cbn [fst].
  repeat split.
  - apply length_insert.
  - intros l Hl. by apply list_lookup_insert_ne.
  - intros im' E'. rewrite E in E'. injection E' as <-.
    exists [op]. rewrite list_lookup_insert_eq; [ done | ].
    by eapply lookup_lt_Some.
Qed.

Lemma draw_fresh acc (h : heap) (im : Image) (op : DrawOp) :
  acc op im = true ->
  draw acc (length h) op (h ++ [im]) = (h ++ [draw_on op im], inr tt).
Proof.
  intros Hacc. unfold draw. by rewrite lookup_fresh, Hacc, insert_fresh.
Qed.

End Store.

(** ** [predict_single] *)

Section PredictSingle.
Import ModelLoader.

Variable w : World.

Lemma draws_at_draw_box names a b : draws_at a (draw_box w names a b).
Proof.
  unfold draw_box. destruct (int_xyxy b) as [[[x1 y1] x2] y2].
  repeat (apply draws_at_bind; [ | intros ? ]);
    auto using draws_at_draw, draws_at_lift.
Qed.

Lemma draws_at_draw_highest names a hi bs : draws_at a (draw_highest w names a hi bs).
Proof.
  induction bs as [ | b bs IH ]; simpl.
  - apply draws_at_ret.
  - destruct (Qeq_bool (conf b) hi); auto using draws_at_draw_box.
Qed.

(** What the [try] block does to the store and what it returns. *)
Lemma predict_single_try_frame self m image h :
  match predict_single_try w self m image h with
  | (h', r) =>
      (forall l, (l < length h)%nat -> h' !! l = h !! l)
      /\ match r with
         | inr (out, Some _) =>
             out = length h
             /\ exists img ops, h !! image = Some img
                 /\ h' !! out = Some {| pixels := pixels img; canvas := canvas img ++ ops |}
         | inr (out, None) => out = image /\ h' = h
         | inl _ => True
         end
  end.
Proof.
  unfold predict_single_try, bind, read, lift, copy, alloc, ret.
  destruct (h !! image) as [img | ] eqn:E; [ | done ].
  destruct (model_predict w m img predict_single_args) as [e | results]; [ done | ].
  destruct results as [ | result rest ]; [ done | ].
  destruct (boxes result) as [bs | ]; [ | done ].
  destruct (fold_left _ bs _) as [hi best].
  destruct best as [d | ]; [ | done ].
  unfold bind, read. rewrite E.
  pose proof (draws_at_draw_highest (class_names self) (length h) hi bs (h ++ [img]))
    as (HL & HO & HA).
  destruct (draw_highest w (class_names self) (length h) hi bs (h ++ [img]))
    as [h2 r] eqn:D. cbn [fst] in *.
  assert (Hold : forall l, (l < length h)%nat -> h2 !! l = h !! l).
  { intros l Hl. rewrite HO by lia. by apply lookup_app_l. }
  destruct r as [e | []]; [ done | ].
  split; [ done | ]. split; [ done | ].
  destruct (HA img (lookup_fresh h img)) as [ops Hops]. eauto.
Qed.

(** The [try] block leaves the frame it is given as it was. *)
Lemma predict_single_try_input self m image h :
  fst (predict_single_try w self m image h) !! image = h !! image.
Proof.
  pose proof (predict_single_try_frame self m image h) as Hframe.
  destruct (predict_single_try w self m image h) as [h' r] eqn:Htry.
  destruct Hframe as [Hold _]. cbn [fst].
  destruct (decide (image < length h)%nat) as [Hlt | Hge]; [ by apply Hold | ].
  revert Htry. unfold predict_single_try, bind at 1, read.
  rewrite (lookup_ge_None_2 h image) by lia. cbn.
  intros [= <- _]. apply lookup_ge_None_2. lia.
Qed.

(** The [except] clause leaves no exception. *)
Lemma predict_single_returns self image h :
  exists h' r, predict_single w self image h = (h', inr r).
Proof.
  unfold predict_single.
  destruct (use_mock self), (model self) as [m | ]; unfold ret; eauto.
  unfold try_except.
  destruct (predict_single_try w self m image h) as [h' [e | r]]; eauto.
Qed.

Lemma Qgtb_lt x y : Qgtb x y = true <-> (y < x)%Q.
Proof.
  unfold Qgtb. rewrite negb_true_iff. split.
  - intros H. apply Qnot_le_lt. intros Hle.
    apply Qle_bool_iff in Hle. congruence.
  - intros H. destruct (Qle_bool x y) eqn:E; [ | done ].
    apply Qle_bool_iff in E. by apply Qlt_not_le in H.
Qed.

Lemma Qgtb_le x y : Qgtb x y = false <-> (x <= y)%Q.
Proof.
  unfold Qgtb. rewrite negb_false_iff. apply Qle_bool_iff.
Qed.

(** The first loop leaves the first box of highest confidence. *)
Lemma highest_loop names bs :
  Forall (fun b => 0 < conf b)%Q bs ->
  (bs = [] /\ fold_left (highest_step names) bs (0%Q, None) = (0%Q, None))
  \/ exists i b, first_highest bs i b
       /\ fold_left (highest_step names) bs (0%Q, None)
          = (conf b, Some (detection_of names b)).
Proof.
  induction bs as [ | x l IH ] using rev_ind; [ by left | ].
  intros Hpos. rewrite Forall_app, Forall_singleton in Hpos.
  destruct Hpos as [Hl Hx]. right.
  rewrite fold_left_app. cbn [fold_left].
  destruct (IH Hl) as [[-> ->] | (i & b & (Hi & Hmax & Hfirst) & ->)].
  - apply Qgtb_lt in Hx. unfold highest_step. rewrite Hx.
    exists 0%nat, x. repeat split; [ | lia ].
    intros b' ->%list_elem_of_singleton. apply Qle_refl.
  - unfold highest_step.
    destruct (Qgtb (conf x) (conf b)) eqn:G.
    + apply Qgtb_lt in G.
      exists (length l), x. split; [ | done ].
      split; [ by rewrite (list_lookup_middle l [] x) | ].
      split.
      * intros b' [Hb | ->%list_elem_of_singleton]%elem_of_app.
        -- apply Qlt_le_weak. eapply Qle_lt_trans; eauto.
        -- apply Qle_refl.
      * intros j b' Hj Hb. rewrite lookup_app_l in Hb by done.
        eapply Qle_lt_trans; [ | exact G ].
        apply Hmax. by eapply list_elem_of_lookup_2.
    + apply Qgtb_le in G.
      exists i, b. split; [ | done ].
      pose proof (lookup_lt_Some _ _ _ Hi) as Hlt.
      split; [ by rewrite lookup_app_l | ].
      split.
      * intros b' [Hb | ->%list_elem_of_singleton]%elem_of_app; auto.
      * intros j b' Hj Hb. apply (Hfirst j); [ done | ].
        rewrite lookup_app_l in Hb; [ done | lia ].
Qed.

(** The second loop stops at that box. *)
Lemma draw_highest_first names a bs i b :
  first_highest bs i b ->
  draw_highest w names a (conf b) bs = draw_box w names a b.
Proof.
  intros (Hi & _ & Hfirst). revert i Hi Hfirst.
  induction bs as [ | x l IH ]; intros i Hi Hfirst; [ done | ].
  destruct i as [ | i ]; cbn in Hi |- *.
  - injection Hi as ->. by rewrite Qeq_bool_refl.
  - assert (Hx : (conf x < conf b)%Q) by (apply (Hfirst 0%nat); [ lia | done ]).
    destruct (Qeq_bool (conf x) (conf b)) eqn:E.
    + apply Qeq_bool_iff in E. by apply Qlt_not_eq in Hx.
    + apply (IH i); [ done | ].
      intros j b' Hj Hb. apply (Hfirst (S j)); [ lia | done ].
Qed.

(** C1.  When the detector returns candidates for a frame (each with the
    positive confidence the threshold of 0.25 guarantees) and OpenCV draws
    without error, [predict_single] returns the detection of the candidate
    of highest confidence, the first one among equals, and a copy of the
    frame on which exactly one bounding box, that candidate's, and its label
    (a filled background and the text: the class name, a space, the
    confidence to two decimals) have been added. *)
Theorem predict_single_highest_confidence self m image h img result rest bs :
  use_mock self = false ->
  model self = Some m ->
  h !! image = Some img ->
  model_predict w m img predict_single_args = inr (result :: rest) ->
  boxes result = Some bs ->
  bs <> [] ->
  Forall (fun b => 0 < conf b)%Q bs ->
  (forall op im, accepts w op im = true) ->
  (forall text, exists size,
      getTextSize w text FONT_HERSHEY_SIMPLEX (1 # 2) 2 = inr size) ->
  exists i b size,
    first_highest bs i b
    /\ let d := detection_of (class_names self) b in
       let label := class_name d +:+ " " +:+ format_2f (confidence d) in
       let '(x1, y1, x2, y2) := int_xyxy b in
       getTextSize w label FONT_HERSHEY_SIMPLEX (1 # 2) 2 = inr size
       /\ predict_single w self image h
          = (h ++ [ {| pixels := pixels img;
                       canvas := canvas img ++
                         [ Rectangle (x1, y1) (x2, y2) green 2;
                           Rectangle (x1, y1 - snd size - 10) (x1 + fst size, y1)
                                     green (-1);
                           PutText label (x1, y1 - 5) FONT_HERSHEY_SIMPLEX (1 # 2)
                                   white 2 ] |} ],
             inr (length h, Some d)).
Proof.
  intros Hmock Hmodel Himg Hpred Hboxes Hne Hpos Hacc Hsize.
  destruct (highest_loop (class_names self) bs Hpos)
    as [[-> _] | (i & b & Hfirst & Hfold)]; [ done | ].
  destruct (Hsize (label_of (class_names self) b)) as [size Hsz].
  exists i, b, size. split; [ done | ].
  pose proof (draw_highest_first (class_names self) (length h) bs i b Hfirst) as Hdraw.
  unfold draw_box, label_of in Hdraw, Hsz |- *. cbn zeta. cbn [class_name confidence detection_of].
  unfold get_class_name in *.
  destruct (int_xyxy b) as [[[x1 y1] x2] y2].
  split; [ exact Hsz | ].
  unfold predict_single. rewrite Hmock, Hmodel.
  unfold try_except, predict_single_try, bind at 1, read. rewrite Himg.
  unfold bind at 1, lift. rewrite Hpred, Hboxes, Hfold.
  unfold bind at 1, copy, bind at 1, read. rewrite Himg. unfold alloc.
  unfold bind at 1. rewrite Hdraw.
  unfold bind, lift. rewrite draw_fresh by apply Hacc.
  rewrite Hsz. rewrite draw_fresh by apply Hacc.
  rewrite draw_fresh by apply Hacc.
  unfold ret, draw_on. cbn [pixels canvas].
  by rewrite <- !app_assoc.
Qed.

(** C6.  [predict_single] never raises; when the inference, or anything
    else in its [try] block, raises, the call returns the image it was given
    (the same object, its contents as they were) and no detection. *)
Theorem predict_single_catches_errors self image h :
  (exists h' r, predict_single w self image h = (h', inr r))
  /\ (forall m h' e,
        use_mock self = false ->
        model self = Some m ->
        predict_single_try w self m image h = (h', inl e) ->
        predict_single w self image h = (h', inr (image, None))
        /\ h' !! image = h !! image).
Proof.
  split; [ apply predict_single_returns | ].
  unfold predict_single.
  intros m h' e -> -> Htry. unfold try_except, ret. rewrite Htry.
  split; [ done | ].
  pose proof (predict_single_try_input self m image h) as Hin.
  by rewrite Htry in Hin.
Qed.

(** C9.  [predict_single] leaves every object of the store as it was, the
    frame it is given among them, whether it detects, does not detect or
    fails.  A detection comes with a new object: the copy of the frame, with
    drawing added to it; without a detection the frame itself is returned. *)
Theorem predict_single_keeps_input self image h :
  exists h' out detection,
    predict_single w self image h = (h', inr (out, detection))
    /\ h' !! image = h !! image
    /\ (forall l, (l < length h)%nat -> h' !! l = h !! l)
    /\ match detection with
       | Some _ =>
           out = length h /\ out <> image
           /\ exists img ops,
                h !! image = Some img
                /\ h' !! out = Some {| pixels := pixels img; canvas := canvas img ++ ops |}
       | None => out = image
       end.
Proof.
  unfold predict_single.
  destruct (use_mock self) eqn:Hmock; [ by exists h, image, None | ].
  destruct (model self) as [m | ] eqn:Hmodel; [ | by exists h, image, None ].
  unfold try_except, ret.
  pose proof (predict_single_try_frame self m image h) as Hframe.
  destruct (predict_single_try w self m image h) as [h' r] eqn:Htry.
  destruct Hframe as [Hold Hres].
  pose proof (predict_single_try_input self m image h) as Himage.
  rewrite Htry in Himage. cbn [fst] in Himage.
  destruct r as [e | [out [d | ]]].
  - by exists h', image, None.
  - exists h', out, (Some d). destruct Hres as (-> & img & ops & Himg & Hout).
    repeat split; try done.
    + apply lookup_lt_Some in Himg. lia.
    + eauto.
  - exists h', out, None. by destruct Hres as [-> _].
Qed.

End PredictSingle.

(** The example of the specification: a mug at 0.81 and a pen at 0.40. *)
Lemma predict_single_highest_confidence_demo :
  let w := Demo.world in
  let self := Demo.loaded in
  let h := [Demo.frame0] in
  let bs := [Demo.pen; Demo.mug] in
  (ModelLoader.use_mock self = false
   /\ ModelLoader.model self = Some 0%nat
   /\ h !! 0%nat = Some Demo.frame0
   /\ model_predict w 0%nat Demo.frame0 ModelLoader.predict_single_args
      = inr [ {| boxes := Some bs |} ]
   /\ bs <> []
   /\ Forall (fun b => 0 < conf b)%Q bs
   /\ (forall op im, accepts w op im = true)
   /\ (forall text, exists size,
         getTextSize w text FONT_HERSHEY_SIMPLEX (1 # 2) 2 = inr size))
  /\ exists i b size,
       first_highest bs i b
       /\ let d := ModelLoader.detection_of (ModelLoader.class_names self) b in
          let label := class_name d +:+ " " +:+ format_2f (confidence d) in
          let '(x1, y1, x2, y2) := ModelLoader.int_xyxy b in
          getTextSize w label FONT_HERSHEY_SIMPLEX (1 # 2) 2 = inr size
          /\ ModelLoader.predict_single w self 0%nat h
             = (h ++ [ {| pixels := pixels Demo.frame0;
                          canvas := canvas Demo.frame0 ++
                            [ Rectangle (x1, y1) (x2, y2) ModelLoader.green 2;
                              Rectangle (x1, y1 - snd size - 10) (x1 + fst size, y1)
                                        ModelLoader.green (-1);
                              PutText label (x1, y1 - 5) FONT_HERSHEY_SIMPLEX (1 # 2)
                                      ModelLoader.white 2 ] |} ],
                inr (length h, Some d)).
Proof.
  cbv zeta.
  assert (Hpos : Forall (fun b => 0 < conf b)%Q [Demo.pen; Demo.mug])
    by (repeat constructor).
  assert (Hsize : forall text, exists size,
             getTextSize Demo.world text FONT_HERSHEY_SIMPLEX (1 # 2) 2 = inr size)
    by (intros text; eexists; reflexivity).
  split.
  - repeat split; try reflexivity; try exact Hpos; try exact Hsize. discriminate.
  - apply (predict_single_highest_confidence Demo.world Demo.loaded 0%nat 0%nat
             [Demo.frame0] Demo.frame0 {| boxes := Some [Demo.pen; Demo.mug] |} []
             [Demo.pen; Demo.mug]);
      try reflexivity; try exact Hpos; try exact Hsize. discriminate.
Defined.

(** Two candidates at the same confidence: the first one is returned. *)
Example predict_single_tie :
  let w := Demo.with_model_predict
             (fun _ _ _ =>
                inr [ {| boxes := Some [ {| conf := 1 # 2; cls := 7;
                                            xyxy := (200, 200, 250, 250)%Q |};
                                         {| conf := 2 # 4; cls := 5;
                                            xyxy := (10, 10, 100, 100)%Q |} ] |} ])
             Demo.world in
  ModelLoader.predict_single w Demo.loaded 0%nat [Demo.frame0]
  = ([ Demo.frame0;
       {| pixels := pixels Demo.frame0;
          canvas := [ Rectangle (200, 200) (250, 250) ModelLoader.green 2;
                      Rectangle (200, 179) (272, 200) ModelLoader.green (-1);
                      PutText "Pen 0.50" (200, 195) FONT_HERSHEY_SIMPLEX (1 # 2)
                              ModelLoader.white 2 ] |} ],
     inr (1%nat, Some {| class_name := "Pen"; confidence := 1 # 2; class_id := Some 7 |})).
Proof. reflexivity. Qed.

(** A detector that raises: the frame comes back, with no detection. *)
Lemma predict_single_catches_errors_demo :
  let w := Demo.world_failing_predict in
  let h := [Demo.frame0] in
  ModelLoader.predict_single_try w Demo.loaded 0%nat 0%nat h
  = (h, inl (Exception "RuntimeError"))
  /\ ModelLoader.predict_single w Demo.loaded 0%nat h = (h, inr (0%nat, None))
  /\ h !! 0%nat = Some Demo.frame0.
Proof.
  cbv zeta.
  assert (Htry : ModelLoader.predict_single_try Demo.world_failing_predict Demo.loaded
                   0%nat 0%nat [Demo.frame0]
                 = ([Demo.frame0], inl (Exception "RuntimeError"))) by reflexivity.
  split; [ exact Htry | ].
  destruct (predict_single_catches_errors Demo.world_failing_predict Demo.loaded
              0%nat [Demo.frame0]) as [_ Hcatch].
  destruct (Hcatch 0%nat [Demo.frame0] (Exception "RuntimeError")
              eq_refl eq_refl Htry) as [Hres Hsame].
  split; [ exact Hres | exact Hsame ].
Defined.

(** OpenCV refuses the label text: the drawing started on the copy stays on
    the copy, the frame comes back as it was, with no detection. *)
Lemma predict_single_keeps_input_demo :
  let w := Demo.world_no_text in
  exists h',
    ModelLoader.predict_single w Demo.loaded 0%nat [Demo.frame0] = (h', inr (0%nat, None))
    /\ h' !! 0%nat = Some Demo.frame0
    /\ h' !! 1%nat
       = Some {| pixels := pixels Demo.frame0;
                 canvas := [ Rectangle (10, 10) (100, 100) ModelLoader.green 2;
                             Rectangle (10, -11) (82, 10) ModelLoader.green (-1) ] |}.
Proof.
  cbv zeta.
  destruct (predict_single_keeps_input Demo.world_no_text Demo.loaded 0%nat [Demo.frame0])
    as (h' & out & detection & Hrun & Hin & _).
  exists h'. vm_compute in Hrun. injection Hrun as <- <- <-.
  split; [ reflexivity | ]. split; [ exact Hin | reflexivity ].
Defined.

(** ** [load_model] *)

Section LoadModel.
Import ModelLoader.

Variable w : World.

(** What [load_model] leaves, case by case. *)
Lemma load_model_cases model_path self :
  exists self',
    load_model w model_path self = (self', inr true)
    /\ class_names self' =
         (if use_mock self' then mock_class_names else class_names self')
    /\ (use_mock self = true -> use_mock self' = true)
    /\ (forall s e, load_model_try w model_path self = (s, inl e) -> use_mock self' = true)
    /\ (forall s b, use_mock self = false ->
                    load_model_try w model_path self = (s, inr b) ->
                    self' = s /\ use_mock self' = false).
Proof.
  unfold load_model, bind at 1, get.
  destruct (use_mock self) eqn:Hmock.
  - eexists. split; [ reflexivity | ]. cbn. rewrite Hmock. by repeat split.
  - unfold try_except.
    destruct (load_model_try w model_path self) as [s [e | b]] eqn:Htry.
    + eexists. split; [ reflexivity | ]. cbn. by repeat split.
    + revert Htry. unfold load_model_try, bind, lift, modify, ret.
      destruct (YOLO w model_path) as [e | m]; [ done | ].
      destruct (model_call w m) as [e | []]; [ done | ].
      intros [= <- <-]. eexists. split; [ reflexivity | ].
      cbn. rewrite Hmock. repeat split; try done.
      congruence.
Qed.

(** C10.  [load_model] returns [True] for every path and never raises.  A
    failure inside its [try] shows only in the state: [use_mock] is set and
    the class names are [{0: 'Object'}].  The window's branch for a false
    return is never taken: its log is always the same two lines. *)
Theorem load_model_always_true model_path self :
  (exists self',
     load_model w model_path self = (self', inr true)
     /\ (forall s e, load_model_try w model_path self = (s, inl e) ->
           use_mock self' = true /\ class_names self' = {[ 0 := "Object" ]}))
  /\ (forall (win : MainWindow.t) (h : heap) (ev : list Event),
        exists win',
          MainWindow.load_model w (win, h, ev)
          = ((win', h,
              ev ++ [ log_message "Loading YOLOv11 model...";
                      start_processing_thread;
                      log_message "Model loaded successfully!" ]),
             inr tt)
          /\ is_processing (MainWindow.model_loader win') = true).
Proof.
  split.
  - destruct (load_model_cases model_path self) as (self' & Hrun & Hnames & _ & Hfail & _).
    exists self'. split; [ done | ]. intros s e Htry.
    specialize (Hfail s e Htry). split; [ done | ].
    by rewrite Hnames, Hfail.
  - intros win h ev.
    destruct (load_model_cases "trained_model/best.pt" (MainWindow.model_loader win))
      as (ml & Hrun & _).
    unfold MainWindow.load_model, bind at 1, emit.
    unfold bind at 1, MainWindow.on_model_loader. rewrite Hrun.
    eexists. split.
    + cbn. by rewrite <- !app_assoc.
    + reflexivity.
Qed.

End LoadModel.

(** A missing weights file: still [True], and the log of a success. *)
Lemma load_model_always_true_demo :
  let w := Demo.world_no_model in
  ModelLoader.load_model_try w "trained_model/best.pt" (ModelLoader.init w)
  = (ModelLoader.init w, inl (Exception "FileNotFoundError"))
  /\ exists self',
       ModelLoader.load_model w "trained_model/best.pt" (ModelLoader.init w)
       = (self', inr true)
       /\ ModelLoader.use_mock self' = true
       /\ ModelLoader.class_names self' = {[ 0 := "Object" ]}.
Proof.
  cbv zeta. split; [ reflexivity | ].
  destruct (load_model_always_true Demo.world_no_model "trained_model/best.pt"
              (ModelLoader.init Demo.world_no_model)) as [(self' & Hrun & Hfail) _].
  exists self'. split; [ exact Hrun | ].
  exact (Hfail _ _ eq_refl).
Defined.

(** ** The two slots and the background loop *)

Section Async.
Import ModelLoader.

Variable w : World.

Lemma load_model_keeps_slots model_path self self' r :
  load_model w model_path self = (self', r) ->
  detection_queue self' = detection_queue self
  /\ result_queue self' = result_queue self
  /\ last_result self' = last_result self
  /\ is_processing self' = is_processing self.
Proof.
  unfold load_model, bind at 1, get.
  destruct (use_mock self).
  - by intros [= <- _].
  - unfold try_except, load_model_try, bind, lift, modify, ret.
    destruct (YOLO w model_path) as [e | m]; [ by intros [= <- _] | ].
    destruct (model_call w m) as [e | []]; by intros [= <- _].
Qed.

Lemma slots_ok_init : slots_ok (init w).
Proof. repeat split; cbn; lia. Qed.

Lemma slots_ok_boot model_path h : slots_ok (loader (boot w model_path h)).
Proof.
  unfold boot. cbn [loader].
  destruct (load_model w model_path (init w)) as [self' r] eqn:E.
  destruct (load_model_keeps_slots _ _ _ _ E) as (Hd & Hr & Hl & _).
  pose proof slots_ok_init as Hinit.
  unfold slots_ok in *. cbn [fst]. by rewrite Hd, Hr, Hl.
Qed.

Lemma slots_ok_submit self frame :
  slots_ok self -> slots_ok (predict_async_submit self frame).
Proof.
  intros (Hmd & Hmr & Hd & Hr & Hl). unfold predict_async_submit.
  destruct (Queue.empty (detection_queue self)) eqn:E; [ | done ].
  unfold Queue.put_nowait, Queue.full. rewrite Hmd.
  apply Nat.eqb_eq in E. rewrite E. cbn.
  unfold Queue.qsize in *. apply length_zero_iff_nil in E.
  repeat split; cbn; try done. rewrite E. cbn. lia.
Qed.

Lemma slots_ok_fetch self frame :
  slots_ok self -> slots_ok (fst (predict_async_fetch self frame)).
Proof.
  intros (Hmd & Hmr & Hd & Hr & Hl). unfold predict_async_fetch, Queue.get_nowait.
  unfold Queue.qsize in *.
  destruct (Queue.items (result_queue self)) as [ | r rest ] eqn:E; cbn.
  - unfold slots_ok, Queue.qsize. by rewrite E.
  - repeat split; cbn; try done.
    + cbn in Hr. lia.
    + intros Hnone. by specialize (Hl Hnone).
Qed.

(** The guarded [put] of the background loop never waits. *)
Lemma publish_never_waits r self :
  exists self',
    publish r self = Some self'
    /\ last_result self' = Some r
    /\ detection_queue self' = detection_queue self
    /\ use_mock self' = use_mock self
    /\ is_processing self' = is_processing self
    /\ Queue.maxsize (result_queue self') = Queue.maxsize (result_queue self)
    /\ Queue.items (result_queue self') =
         match Queue.items (result_queue self) with
         | [] => [r]
         | items => items
         end.
Proof.
  unfold publish. cbn [result_queue set_last_result].
  destruct (Queue.empty (result_queue self)) eqn:E.
  - unfold Queue.put, Queue.full. apply Nat.eqb_eq in E. rewrite E.
    unfold Queue.qsize in E. apply length_zero_iff_nil in E.
    destruct (Queue.maxsize (result_queue self)); cbn.
    + eexists. split; [ reflexivity | ]. cbn. by rewrite E.
    + eexists. split; [ reflexivity | ]. cbn. by rewrite E.
  - eexists. split; [ reflexivity | ]. cbn. repeat split.
    unfold Queue.empty, Queue.qsize in E.
    by destruct (Queue.items (result_queue self)).
Qed.

Lemma slots_ok_publish r self self' :
  slots_ok self -> publish r self = Some self' -> slots_ok self'.
Proof.
  intros (Hmd & Hmr & Hd & Hr & Hl) Hpub.
  destruct (publish_never_waits r self) as (s & Hs & Hlast & Hdq & _ & _ & Hmax & Hitems).
  rewrite Hs in Hpub. injection Hpub as <-.
  unfold slots_ok, Queue.qsize in *. rewrite Hdq, Hmax, Hitems, Hlast.
  repeat split; try done.
  destruct (Queue.items (result_queue self)); cbn in *; lia.
Qed.

(** A turn of the background thread is always possible and keeps the slots. *)
Lemma process_queue_turn self h k :
  slots_ok self ->
  exists self' h' k',
    _process_queue w self h k = Some (self', h', k')
    /\ slots_ok self'
    /\ use_mock self' = use_mock self.
Proof.
  intros Hok. destruct k as [ | | frame | ]; cbn [_process_queue]; eauto 6.
  - destruct (is_processing self); [ | eauto 6 ].
    unfold Queue.get_nowait.
    destruct (Queue.items (detection_queue self)) as [ | f rest ] eqn:E; [ eauto 6 | ].
    assert (Hok' : slots_ok (set_detection_queue (Queue.mk (Queue.maxsize (detection_queue self)) rest) self)).
    { destruct Hok as (Hmd & Hmr & Hd & Hr & Hl).
      unfold slots_ok, Queue.qsize in *. rewrite E in Hd. cbn in *.
      repeat split; try done. lia. }
    destruct f; eauto 6.
  - destruct ((if use_mock self then process_frame_mock w frame
               else process_frame_model w self frame) h) as [h' [e | r]]; [ eauto 6 | ].
    destruct (publish_never_waits r self) as (s & Hs & _ & _ & Hmock & _).
    rewrite Hs. exists s, h', AtLoopTest. split; [ done | ].
    split; [ by eapply slots_ok_publish | done ].
Qed.

Lemma slots_ok_step a s s' out :
  slots_ok (loader s) -> step w a s = Some (s', out) -> slots_ok (loader s').
Proof.
  intros Hok. destruct a as [ frame | | | | ]; cbn [step].
  - destruct (caller s); [ done | ].
    destruct (negb (is_processing (loader s))); intros [= <- _]; [ done | ].
    by apply slots_ok_submit.
  - destruct (caller s) as [ frame | ]; [ | done ].
    pose proof (slots_ok_fetch (loader s) frame Hok) as Hf.
    destruct (predict_async_fetch (loader s) frame) as [self r].
    by intros [= <- _].
  - destruct (worker_live (worker s)); [ done | ]. by intros [= <- _].
  - by intros [= <- _].
  - destruct (process_queue_turn (loader s) (store s) (worker s) Hok)
      as (self' & h' & k' & -> & Hok' & _).
    by intros [= <- _].
Qed.

Lemma slots_ok_exec acts : forall s s' outs,
  slots_ok (loader s) -> exec w acts s = Some (s', outs) -> slots_ok (loader s').
Proof.
  induction acts as [ | a acts IH ]; intros s s' outs Hok; cbn [exec].
  - by intros [= <- _].
  - destruct (step w a s) as [[s1 out] | ] eqn:Hstep; [ | done ].
    pose proof (slots_ok_step _ _ _ _ Hok Hstep) as Hok1.
    destruct (exec w acts s1) as [[s2 outs2] | ] eqn:Hexec; [ | done ].
    intros [= <- _]. by eapply IH.
Qed.

(** C3.  A submission made while the submission slot is occupied changes
    nothing (the frame is dropped, the call goes on); over every schedule of
    the caller and the background thread the slot never holds more than one
    frame; and of two frames submitted in a row the first is the one the
    background thread takes, the second being dropped. *)
Theorem submit_dropped_when_slot_occupied :
  (forall self frame,
      Queue.empty (detection_queue self) = false ->
      predict_async_submit self frame = self)
  /\ (forall model_path h acts s outs,
        exec w acts (boot w model_path h) = Some (s, outs) ->
        (Queue.qsize (detection_queue (loader s)) <= 1)%nat)
  /\ (forall s f1 f2,
        slots_ok (loader s) ->
        is_processing (loader s) = true ->
        Queue.items (detection_queue (loader s)) = [] ->
        caller s = None ->
        worker s = AtLoopTest ->
        exists s' outs,
          exec w [CallBegin (Some f1); CallEnd; CallBegin (Some f2); CallEnd; WorkerTurn] s
          = Some (s', outs)
          /\ worker s' = Holding f1
          /\ Queue.items (detection_queue (loader s')) = []).
Proof.
  split; [ | split ].
  - intros self frame E. unfold predict_async_submit. by rewrite E.
  - intros model_path h acts s outs Hexec.
    pose proof (slots_ok_exec acts _ _ _ (slots_ok_boot model_path h) Hexec) as Hok.
    by destruct Hok as (_ & _ & Hd & _).
  - intros [[m names [md dq] [mr rq] ip lr um] h k c] f1 f2
           (Hmd & Hmr & _) Hip Hdq Hc Hk.
    cbn in Hmd, Hmr, Hip, Hdq, Hc, Hk. subst.
    destruct rq as [ | r1 [ | r2 rq ] ]; cbn; eauto.
Qed.

(** C4 (amended).  [predict_async] is a total function of the loader and
    the frame, and both of its halves are possible in every state.  While
    the flag [is_processing] is not set it returns the frame it is given and
    no detection.  While the flag is set, whether the background thread is
    still in its loop or not, it returns the result waiting in the result
    slot and empties the slot; with an empty slot, the last result recorded;
    and, nothing having been recorded yet, the frame it is given and no
    detection.  Until a first result is recorded the slot is empty. *)
Theorem predict_async_returns :
  (forall self frame,
      (is_processing self = false ->
       predict_async self frame = (self, (frame, None)))
      /\ (is_processing self = true ->
          match Queue.items (result_queue self), last_result self with
          | r :: rest, _ =>
              snd (predict_async self frame) = r
              /\ Queue.items (result_queue (fst (predict_async self frame))) = rest
          | [], Some r => snd (predict_async self frame) = r
          | [], None => snd (predict_async self frame) = (frame, None)
          end))
  /\ (forall s frame,
        (caller s = None -> exists s' out, step w (CallBegin frame) s = Some (s', out))
        /\ (caller s = Some frame -> exists s' r, step w CallEnd s = Some (s', Some r)))
  /\ (forall model_path h acts s outs,
        exec w acts (boot w model_path h) = Some (s, outs) ->
        last_result (loader s) = None ->
        Queue.items (result_queue (loader s)) = []).
Proof.
  split; [ | split ].
  - intros self frame. unfold predict_async. split.
    + by intros ->.
    + intros ->. cbn [negb].
      unfold predict_async_fetch, Queue.get_nowait.
      replace (result_queue (predict_async_submit self frame)) with (result_queue self);
        [ | unfold predict_async_submit;
            destruct (Queue.empty (detection_queue self)); [ | done ];
            by destruct (Queue.put_nowait (detection_queue self) frame) ].
      replace (last_result (predict_async_submit self frame)) with (last_result self);
        [ | unfold predict_async_submit;
            destruct (Queue.empty (detection_queue self)); [ | done ];
            by destruct (Queue.put_nowait (detection_queue self) frame) ].
      destruct (Queue.items (result_queue self)) as [ | r rest ]; [ | done ].
      by destruct (last_result self).
  - intros s frame. split; intros Hc; cbn [step]; rewrite Hc.
    + destruct (negb (is_processing (loader s))); eauto.
    + destruct (predict_async_fetch (loader s) frame); eauto.
  - intros model_path h acts s outs Hexec.
    pose proof (slots_ok_exec acts _ _ _ (slots_ok_boot model_path h) Hexec) as Hok.
    by destruct Hok as (_ & _ & _ & _ & Hl).
Qed.

End Async.

(** Two frames submitted in a row: the slot keeps the first. *)
Lemma submit_dropped_when_slot_occupied_demo :
  let w := Demo.world in
  let h := [Demo.frame_mug; Demo.frame_pen] in
  let acts := [ModelLoader.Start; ModelLoader.CallBegin (Some 0%nat); ModelLoader.CallEnd;
               ModelLoader.CallBegin (Some 1%nat); ModelLoader.CallEnd] in
  exists s outs,
    ModelLoader.exec w acts (ModelLoader.boot w "trained_model/best.pt" h) = Some (s, outs)
    /\ Queue.items (ModelLoader.detection_queue (ModelLoader.loader s)) = [Some 0%nat]
    /\ (Queue.qsize (ModelLoader.detection_queue (ModelLoader.loader s)) <= 1)%nat.
Proof.
  cbv zeta. eexists. eexists.
  assert (Hexec : ModelLoader.exec Demo.world
            [ModelLoader.Start; ModelLoader.CallBegin (Some 0%nat); ModelLoader.CallEnd;
             ModelLoader.CallBegin (Some 1%nat); ModelLoader.CallEnd]
            (ModelLoader.boot Demo.world "trained_model/best.pt"
                              [Demo.frame_mug; Demo.frame_pen])
          = Some (ModelLoader.mkSys
                    (ModelLoader.set_detection_queue (Queue.mk 1 [Some 0%nat])
                       (ModelLoader.start_processing Demo.loaded))
                    [Demo.frame_mug; Demo.frame_pen] ModelLoader.AtLoopTest None,
                  [(Some 0%nat, None); (Some 1%nat, None)])) by reflexivity.
  split; [ exact Hexec | ]. split; [ reflexivity | ].
  destruct (submit_dropped_when_slot_occupied Demo.world) as (_ & Hbound & _).
  exact (Hbound _ _ _ _ _ Hexec).
Defined.

(** C4, as stated, fails.  The background thread finishes the first frame
    (a mug) and then the second (a pen) while the caller is away: the slot
    still holds the mug's result, and the third call returns it although the
    most recent completed result, and the last one recorded, is the pen's. *)
Lemma predict_async_returns_older_result :
  let w := Demo.world_by_pixel in
  let h := [Demo.frame_mug; Demo.frame_pen; Demo.frame_phone] in
  let acts :=
    [ModelLoader.Start;
     ModelLoader.CallBegin (Some 0%nat); ModelLoader.CallEnd;
     ModelLoader.WorkerTurn;
     ModelLoader.CallBegin (Some 1%nat); ModelLoader.CallEnd;
     ModelLoader.WorkerTurn; ModelLoader.WorkerTurn; ModelLoader.WorkerTurn;
     ModelLoader.CallBegin (Some 2%nat); ModelLoader.CallEnd] in
  exists s,
    ModelLoader.exec w acts (ModelLoader.boot w "trained_model/best.pt" h)
    = Some (s, [ (Some 0%nat, None);
                 (Some 1%nat, None);
                 (Some 3%nat, Some {| class_name := "Mug"; confidence := 9 # 10;
                                      class_id := Some 5 |}) ])
    /\ ModelLoader.last_result (ModelLoader.loader s)
       = Some (Some 4%nat, Some {| class_name := "Pen"; confidence := 9 # 10;
                                   class_id := Some 7 |}).
Proof.
  cbv zeta. eexists. split; [ vm_compute; reflexivity | reflexivity ].
Qed.

(** Cold start: the flag is set, nothing has been recorded. *)
Lemma predict_async_returns_demo :
  let self := ModelLoader.start_processing Demo.loaded in
  ModelLoader.is_processing self = true
  /\ snd (ModelLoader.predict_async self (Some 0%nat)) = (Some 0%nat, None).
Proof.
  cbv zeta. split; [ reflexivity | ].
  destruct (predict_async_returns Demo.world) as (Hfun & _).
  destruct (Hfun (ModelLoader.start_processing Demo.loaded) (Some 0%nat)) as [_ Hon].
  exact (Hon eq_refl).
Defined.

(** ** Placeholder mode *)

Section Placeholder.
Import ModelLoader.

Variable w : World.

(** C2 (amended).  When loading fails, [load_model] returns [True] without
    raising and leaves the loader in placeholder mode.  In that mode
    [predict_single] returns the frame it is given and no detection.  The
    background loop, for each frame it takes, records the detection
    [{'class_name': 'Mock', 'confidence': 0.95}] with a copy of the frame on
    which the box (50, 50)-(200, 200) and the text "Mock Detection" are drawn,
    and [predict_async] returns that result once it is in the slot. *)
Theorem placeholder_after_load_failure model_path self s e :
  use_mock self = false ->
  load_model_try w model_path self = (s, inl e) ->
  exists self',
    load_model w model_path self = (self', inr true)
    /\ use_mock self' = true
    /\ (forall image h, predict_single w self' image h = (h, inr (image, None)))
    /\ (forall ld frame h img,
          use_mock ld = true ->
          h !! frame = Some img ->
          accepts w mock_box img = true ->
          accepts w mock_text (draw_on mock_box img) = true ->
          exists ld',
            _process_queue w ld h (Holding frame)
            = Some (ld', h ++ [draw_on mock_text (draw_on mock_box img)], AtLoopTest)
            /\ use_mock ld' = true
            /\ last_result ld' = Some (Some (length h), Some mock_detection)
            /\ (is_processing ld = true ->
                Queue.items (result_queue ld) = [] ->
                forall next,
                  snd (predict_async ld' next) = (Some (length h), Some mock_detection))).
Proof.
  intros Hmock Htry.
  destruct (load_model_cases w model_path self) as (self' & Hrun & _ & _ & Hfail & _).
  specialize (Hfail s e Htry).
  exists self'. split; [ done | ]. split; [ done | ]. split.
  - intros image h. unfold predict_single. by rewrite Hfail.
  - intros ld frame h img Hld Hframe Hbox Htext.
    cbn [_process_queue]. rewrite Hld.
    unfold process_frame_mock, bind at 1, copy, bind at 1, read. rewrite Hframe.
    unfold alloc, bind at 1. rewrite (draw_fresh _ _ _ _ Hbox).
    unfold bind at 1. rewrite (draw_fresh _ _ _ _ Htext). unfold ret.
    destruct (publish_never_waits (Some (length h), Some mock_detection) ld)
      as (ld' & -> & Hlast & Hdq & Hum & Hip & Hmax & Hitems).
    exists ld'. split; [ done | ]. split; [ congruence | ]. split; [ done | ].
    intros Hon Hempty next. rewrite Hempty in Hitems.
    unfold predict_async. rewrite Hip, Hon. cbn [negb].
    unfold predict_async_fetch, Queue.get_nowait.
    replace (result_queue (predict_async_submit ld' next)) with (result_queue ld');
      [ by rewrite Hitems | ].
    unfold predict_async_submit.
    destruct (Queue.empty (detection_queue ld')); [ | done ].
    by destruct (Queue.put_nowait (detection_queue ld') next).
Qed.

End Placeholder.

(** The weights are missing; the background loop takes one frame. *)
Lemma placeholder_after_load_failure_demo :
  let w := Demo.world_no_model in
  ModelLoader.use_mock (ModelLoader.init w) = false
  /\ ModelLoader.load_model_try w "trained_model/best.pt" (ModelLoader.init w)
     = (ModelLoader.init w, inl (Exception "FileNotFoundError"))
  /\ exists self',
       ModelLoader.load_model w "trained_model/best.pt" (ModelLoader.init w)
       = (self', inr true)
       /\ ModelLoader.use_mock self' = true
       /\ ModelLoader.predict_single w self' 0%nat [Demo.frame0]
          = ([Demo.frame0], inr (0%nat, None)).
Proof.
  cbv zeta. split; [ reflexivity | ]. split; [ reflexivity | ].
  destruct (placeholder_after_load_failure Demo.world_no_model "trained_model/best.pt"
              (ModelLoader.init Demo.world_no_model) _ _ eq_refl eq_refl)
    as (self' & Hrun & Hmock & Hsync & _).
  exists self'. split; [ exact Hrun | ]. split; [ exact Hmock | ].
  exact (Hsync 0%nat [Demo.frame0]).
Defined.

(** C2, as stated, fails.  With the weights missing, [load_model] returns
    [True] and [predict_single] then returns the frame and no detection, not
    a placeholder; and [predict_async], before the background loop has
    recorded anything, returns no detection either. *)
Lemma predict_single_no_placeholder :
  let w := Demo.world_no_model in
  ModelLoader.load_model w "trained_model/best.pt" (ModelLoader.init w)
  = (Demo.unloaded, inr true)
  /\ ModelLoader.use_mock Demo.unloaded = true
  /\ ModelLoader.predict_single w Demo.unloaded 0%nat [Demo.frame0]
     = ([Demo.frame0], inr (0%nat, None))
  /\ snd (ModelLoader.predict_async (ModelLoader.start_processing Demo.unloaded) (Some 0%nat))
     = (Some 0%nat, None).
Proof.
  cbv zeta. repeat split; reflexivity.
Qed.

(** ** The camera loop *)

Section Camera.
Import CameraThread.

(** A failing pass counts the failure and emits at most a sleep. *)
Lemma iteration_failing tk self :
  is_running self = true ->
  failing self tk = true ->
  exists ev,
    iteration tk self
    = (count_failure self, ev,
       if consecutive_failures self + 1 >? max_failures self then Break else Continue)
    /\ (forall e, e ∈ ev -> exists ms, e = msleep ms).
Proof.
  intros Hrun. unfold failing, iteration.
  destruct (stop_requested tk); [ done | ]. rewrite Hrun. cbn [negb andb].
  destruct (Qgtb (frame_interval self) (now tk - last_frame_time self)); [ done | ].
  cbn [negb andb].
  assert (Hf : forall ms, exists ev,
             failure ms self
             = (count_failure self, ev,
                if consecutive_failures self + 1 >? max_failures self
                then Break else Continue)
             /\ (forall e, e ∈ ev -> exists ms', e = msleep ms')).
  { intros ms. unfold failure. cbn [consecutive_failures max_failures count_failure].
    destruct (consecutive_failures self + 1 >? max_failures self).
    - exists []. split; [ done | ]. by intros e ?%elem_of_nil.
    - eexists. split; [ reflexivity | ].
      destruct (ms =? 0); intros e He.
      + by apply elem_of_nil in He.
      + apply list_elem_of_singleton in He. eauto. }
  destruct (camera tk); try done; intros _; apply Hf.
Qed.

(** Failing passes that take the count above [max_failures]: the loop is
    left at the pass that does, with nothing emitted but sleeps. *)
Lemma run_failing : forall ticks self rest,
  is_running self = true ->
  consecutive_failures self <= max_failures self ->
  Forall (fun tk => failing self tk = true) ticks ->
  consecutive_failures self + Z.of_nat (length ticks) > max_failures self ->
  exists self' ev,
    run (ticks ++ rest) self = (self', ev, true)
    /\ consecutive_failures self' = max_failures self + 1
    /\ max_failures self' = max_failures self
    /\ is_running self' = true
    /\ (forall e, e ∈ ev -> exists ms, e = msleep ms).
Proof.
  induction ticks as [ | tk ticks IH ]; intros self rest Hrun Hle Hfail Hgt.
  - cbn in Hgt. lia.
  - apply Forall_cons in Hfail as [Htk Hticks].
    destruct (iteration_failing tk self Hrun Htk) as (ev & Hit & Hev).
    cbn [app run]. rewrite Hit.
    destruct (consecutive_failures self + 1 >? max_failures self) eqn:Hbreak.
    + exists (count_failure self), ev. repeat split; try done. cbn. lia.
    + destruct (IH (count_failure self) rest) as (self' & ev' & Hrun' & Hcf & Hmax & Hflag & Hev');
        try done.
      * cbn. lia.
      * cbn [length] in Hgt. cbn. lia.
      * rewrite Hrun'. exists self', (ev ++ ev'). repeat split; try done.
        intros e [He | He]%elem_of_app; auto.
Qed.

(** C7 (amended).  Once the consecutive failed passes take the count above
    [max_failures], the loop is left at that pass and [run] returns, whatever
    passes the environment would still provide, and no frame is delivered on
    the way.  The loop does not clear [is_running]: the flag stays set. *)
Theorem run_aborts_after_too_many_failures : forall ticks self rest,
  is_running self = true ->
  consecutive_failures self <= max_failures self ->
  Forall (fun tk => failing self tk = true) ticks ->
  consecutive_failures self + Z.of_nat (length ticks) > max_failures self ->
  exists self' ev,
    run (ticks ++ rest) self = (self', ev, true)
    /\ consecutive_failures self' = max_failures self + 1
    /\ max_failures self' = max_failures self
    /\ is_running self' = true
    /\ (forall frame, frame_ready frame ∉ ev).
Proof.
  intros ticks self rest Hrun Hle Hfail Hgt.
  destruct (run_failing ticks self rest Hrun Hle Hfail Hgt)
    as (self' & ev & Heq & Hcf & Hmax & Hflag & Hev).
  exists self', ev. do 4 (split; [ done | ]).
  intros frame Hin. by destruct (Hev _ Hin).
Qed.

End Camera.

(** Eleven reads in a row fail; the twelfth would succeed. *)
Lemma run_aborts_after_too_many_failures_demo :
  let self := CameraThread.started (CameraThread.init 0) in
  let bad := {| CameraThread.stop_requested := false; CameraThread.now := 1;
                CameraThread.camera := CameraThread.ReadFailed |} in
  let good := {| CameraThread.stop_requested := false; CameraThread.now := 2;
                 CameraThread.camera := CameraThread.ReadOk Demo.frame0 |} in
  (CameraThread.is_running self = true
   /\ CameraThread.consecutive_failures self <= CameraThread.max_failures self
   /\ Forall (fun tk => failing self tk = true) (replicate 11 bad)
   /\ CameraThread.consecutive_failures self + Z.of_nat (length (replicate 11 bad))
      > CameraThread.max_failures self)
  /\ exists self' ev,
       CameraThread.run (replicate 11 bad ++ [good]) self = (self', ev, true)
       /\ CameraThread.consecutive_failures self' = CameraThread.max_failures self + 1
       /\ CameraThread.max_failures self' = CameraThread.max_failures self
       /\ CameraThread.is_running self' = true
       /\ (forall frame, frame_ready frame ∉ ev).
Proof.
  cbv zeta.
  assert (Hfail : Forall (fun tk => failing (CameraThread.started (CameraThread.init 0)) tk = true)
                    (replicate 11 {| CameraThread.stop_requested := false;
                                     CameraThread.now := 1;
                                     CameraThread.camera := CameraThread.ReadFailed |}))
    by (repeat constructor).
  split.
  - repeat split; try reflexivity; try exact Hfail. discriminate.
  - apply run_aborts_after_too_many_failures;
      try reflexivity; try exact Hfail. discriminate.
Defined.

(** C7, as stated, fails.  After eleven failed reads in a row the loop is
    left and [run] has returned, but [is_running] is still set: the thread
    has not gone to the idle state, and [run] has emitted nothing. *)
Lemma run_aborts_silently :
  let self := CameraThread.started (CameraThread.init 0) in
  let bad := {| CameraThread.stop_requested := false; CameraThread.now := 1;
                CameraThread.camera := CameraThread.ReadFailed |} in
  exists self',
    CameraThread.run (replicate 11 bad) self = (self', [], true)
    /\ CameraThread.consecutive_failures self' = 11
    /\ CameraThread.is_running self' = true.
Proof.
  cbv zeta. eexists. split; [ vm_compute; reflexivity | ]. split; reflexivity.
Qed.

(** ** The batch loop *)

Section Batch.
Import FileProcessor.

Variable w : World.
Variable ml : ModelLoader.t.

Ltac run_monad :=
  cbv [bind emit ask on_store update self_ alloc ret lift try_except try_finally].

Ltac in_list H :=
  repeat (apply elem_of_cons in H as [H | H]); try discriminate H;
  try (by apply elem_of_nil in H).

Ltac tail_ok :=
  split;
  [ intros H; in_list H
  | split;
    [ intros p im H; in_list H; injection H as -> ->;
      split; first [ done | eexists; apply list_elem_of_here ]
    | split;
      [ intros im d' H; in_list H; injection H as -> ->;
        apply list_elem_of_further, list_elem_of_here
      | eexists; reflexivity ] ] ].

(** One turn of the loop: it always comes back, with its progress line
    first. *)
Lemma item_spec total i file_path self h ev :
  exists self' h' tail,
    item w ml total i file_path (self, h, ev)
    = ((self', h',
        ev ++ progress_update (processing_msg i total (basename w file_path)) :: tail),
       inr tt)
    /\ output_dir self' = output_dir self
    /\ files_to_process self' = files_to_process self
    /\ item_tail_ok w (output_dir self) file_path tail.
Proof.
  unfold item, item_try. run_monad.
  set (header := progress_update (processing_msg i total (basename w file_path))).
  destruct (imread w (ev ++ [header]) file_path) as [e | [img | ]].
  - exists self, h, [progress_update (error_msg w file_path e)].
    split; [ by rewrite <- app_assoc | ]. do 2 (split; [ done | ]). tail_ok.
  - destruct (predict_single_returns w ml (length h) (h ++ [img]))
      as (h1 & [processed_image detection] & ->).
    destruct detection as [d | ].
    + cbn [output_dir set_last].
      set (path := path_join w (output_dir self) ("detected_" +:+ basename w file_path)).
      match goal with
      | |- context [imwrite w ?evs path h1 processed_image] =>
          destruct (imwrite w evs path h1 processed_image) as [e | ok]
      end.
      * exists (set_last processed_image (Some d) self), h1,
          [image_processed processed_image (Some d) (basename w file_path);
           cv2_imwrite path processed_image;
           progress_update (error_msg w file_path e)].
        split; [ by rewrite <- !app_assoc | ]. do 2 (split; [ done | ]). tail_ok.
      * exists (set_last processed_image (Some d) self), h1,
          [image_processed processed_image (Some d) (basename w file_path);
           cv2_imwrite path processed_image;
           progress_update (detected_msg (basename w file_path) d)].
        split; [ by rewrite <- !app_assoc | ]. do 2 (split; [ done | ]). tail_ok.
    + exists (set_last processed_image None self), h1,
        [image_processed processed_image None (basename w file_path);
         progress_update ("No detection: " +:+ basename w file_path)].
      split; [ by rewrite <- !app_assoc | ]. do 2 (split; [ done | ]). tail_ok.
  - exists self, h, [progress_update ("Skipped (invalid): " +:+ basename w file_path)].
    split; [ by rewrite <- app_assoc | ]. do 2 (split; [ done | ]). tail_ok.
Qed.

Lemma elem_of_concat (x : Event) (ls : list (list Event)) :
  x ∈ concat ls <-> exists l, l ∈ ls /\ x ∈ l.
Proof.
  induction ls as [ | l ls IH ]; cbn [concat].
  - split; [ by intros ?%elem_of_nil | by intros (l & ?%elem_of_nil & _) ].
  - rewrite elem_of_app, IH. split.
    + intros [H | (l' & Hl' & Hx)].
      * exists l. split; [ apply list_elem_of_here | done ].
      * exists l'. split; [ by apply list_elem_of_further | done ].
    + intros (l' & [-> | Hl']%elem_of_cons & Hx); eauto.
Qed.

(** The whole loop: one chunk of events per file, in the order of the
    list. *)
Lemma items_spec total : forall files i self h ev,
  exists self' h' chunks,
    items w ml total i files (self, h, ev)
    = ((self', h', ev ++ concat chunks), inr tt)
    /\ output_dir self' = output_dir self
    /\ files_to_process self' = files_to_process self
    /\ chunks_ok w (output_dir self) total i files chunks.
Proof.
  induction files as [ | file_path files IH ]; intros i self h ev; cbn [items].
  - exists self, h, []. cbn. rewrite app_nil_r. repeat split; try done.
  - destruct (item_spec total i file_path self h ev)
      as (self1 & h1 & tail & Hitem & Hdir1 & Hfiles1 & Htail).
    set (header := progress_update (processing_msg i total (basename w file_path))) in *.
    destruct (IH (S i) self1 h1 (ev ++ header :: tail))
      as (self2 & h2 & chunks & Hitems & Hdir2 & Hfiles2 & Hlen & Hchunks).
    exists self2, h2, ((header :: tail) :: chunks).
    unfold bind. rewrite Hitem, Hitems.
    split; [ cbn [concat]; by rewrite <- !app_assoc | ].
    split; [ congruence | ]. split; [ congruence | ].
    split; [ cbn; by rewrite Hlen | ].
    intros [ | k ] f chunk Hf Hchunk.
    + cbn in Hf, Hchunk. injection Hf as <-. injection Hchunk as <-.
      exists tail. by rewrite Nat.add_0_r.
    + cbn in Hf, Hchunk. rewrite Hdir1 in Hchunks.
      destruct (Hchunks k f chunk Hf Hchunk) as (tail' & -> & Htail').
      exists tail'. split; [ | done ].
      by replace (i + S k)%nat with (S i + k)%nat by lia.
Qed.

(** C5.  When the output directory can be made, [run] takes every entry of
    the list in order, whatever goes wrong with single entries: each entry
    gets its chunk of events, which starts with the entry's progress message
    and ends with a progress message; an image is written in a chunk exactly
    when the prediction for that entry carries a detection; the completion
    event is emitted once, as the last event, and the list is cleared. *)
Theorem run_processes_every_file self h ev :
  makedirs w (ev ++ [os_makedirs (output_dir self)]) (output_dir self) = inr tt ->
  exists self' h' chunks,
    run w ml (self, h, ev)
    = ((self', h',
        ev ++ os_makedirs (output_dir self) :: concat chunks ++ [finished_processing]),
       inr tt)
    /\ files_to_process self' = []
    /\ chunks_ok w (output_dir self) (length (files_to_process self)) 0
                 (files_to_process self) chunks
    /\ (finished_processing ∉ concat chunks).
Proof.
  intros Hmk. unfold run. run_monad. rewrite Hmk.
  destruct (items_spec (length (files_to_process self)) (files_to_process self) 0%nat
              self h (ev ++ [os_makedirs (output_dir self)]))
    as (self1 & h1 & chunks & Hitems & Hdir & Hfiles & Hchunks).
  cbv [bind] in Hitems. rewrite Hitems.
  exists (clear_files self1), h1, chunks.
  split; [ by rewrite <- !app_assoc | ]. split; [ done | ]. split; [ done | ].
  intros (chunk & Hin & Hfin)%elem_of_concat.
  destruct Hchunks as [Hlen Hchunks].
  apply list_elem_of_lookup_1 in Hin as [k Hk].
  destruct (lookup_lt_is_Some_2 (files_to_process self) k) as [f Hf].
  { rewrite <- Hlen. by eapply lookup_lt_Some. }
  destruct (Hchunks k f chunk Hf Hk) as (tail & -> & Hnot & _).
  apply elem_of_cons in Hfin as [Hfin | Hfin]; [ discriminate | done ].
Qed.

End Batch.

(** One readable image with a detection, one unreadable file. *)
Lemma run_processes_every_file_demo :
  let w := Demo.world in
  let self := FileProcessor.add_files ["a/b.jpg"; "c.txt"] FileProcessor.init in
  makedirs w ([] ++ [os_makedirs (FileProcessor.output_dir self)])
           (FileProcessor.output_dir self) = inr tt
  /\ exists self' h' chunks,
       FileProcessor.run w Demo.loaded (self, [], [])
       = ((self', h',
           [] ++ os_makedirs (FileProcessor.output_dir self)
              :: concat chunks ++ [finished_processing]),
          inr tt)
       /\ FileProcessor.files_to_process self' = []
       /\ chunks_ok w (FileProcessor.output_dir self)
                    (length (FileProcessor.files_to_process self)) 0
                    (FileProcessor.files_to_process self) chunks
       /\ (finished_processing ∉ concat chunks).
Proof.
  cbv zeta. split; [ reflexivity | ].
  apply (run_processes_every_file Demo.world Demo.loaded). reflexivity.
Defined.

(** An entry that raises, a readable image, an unreadable file: the loop
    goes on to the end. *)
Example run_goes_on_after_errors :
  FileProcessor.run Demo.world_failing_read Demo.loaded
    (FileProcessor.add_files ["x/bad.png"; "a/b.jpg"; "c.txt"] FileProcessor.init, [], [])
  = ((FileProcessor.mk [] "output" (Some 1%nat)
        (Some {| class_name := "Mug"; confidence := 81 # 100; class_id := Some 5 |}),
      [ Demo.frame0;
        {| pixels := pixels Demo.frame0;
           canvas := [ Rectangle (10, 10) (100, 100) ModelLoader.green 2;
                       Rectangle (10, -11) (82, 10) ModelLoader.green (-1);
                       PutText "Mug 0.81" (10, 5) FONT_HERSHEY_SIMPLEX (1 # 2)
                               ModelLoader.white 2 ] |} ],
      [ os_makedirs "output";
        progress_update "Processing 1/3: bad.png";
        progress_update "Error: bad.png - PermissionError";
        progress_update "Processing 2/3: b.jpg";
        image_processed 1%nat
          (Some {| class_name := "Mug"; confidence := 81 # 100; class_id := Some 5 |})
          "b.jpg";
        cv2_imwrite "output/detected_b.jpg" 1%nat;
        progress_update "Detected: b.jpg - Mug (0.81)";
        progress_update "Processing 3/3: c.txt";
        progress_update "Skipped (invalid): c.txt";
        finished_processing ]),
     inr tt).
Proof. reflexivity. Qed.

(** ** What is written, and where *)

Section Persist.

Variable w : World.

Ltac run_monad :=
  cbv [bind emit ask on_store update self_ alloc ret lift try_except try_finally read
       MainWindow.predict MainWindow.do_hide_loading].

Ltac leaf :=
  eexists _, _, _; split; [ rewrite <- ?app_assoc; reflexivity | reflexivity ].

Ltac leaf4 :=
  eexists _, _, _, _; split; [ rewrite <- ?app_assoc; reflexivity | reflexivity ].

Lemma writes_app ev1 ev2 : writes (ev1 ++ ev2) = writes ev1 ++ writes ev2.
Proof. apply omap_app. Qed.

(** One turn of the batch loop writes what [file_output] says, whatever
    [cv2.imwrite] answers. *)
Lemma item_writes ml total i file_path self h ev :
  exists self' h' new,
    FileProcessor.item w ml total i file_path (self, h, ev)
    = ((self', h', ev ++ new), inr tt)
    /\ writes new = file_output w ml total i file_path (self, h, ev).
Proof.
  unfold FileProcessor.item, FileProcessor.item_try, file_output, annotated. run_monad.
  destruct (imread w (ev ++ [progress_update
                               (FileProcessor.processing_msg i total (basename w file_path))])
                   file_path) as [ e | [ img | ] ]; [ leaf | | leaf ].
  destruct (predict_single_returns w ml (length h) (h ++ [img]))
    as (h1 & [processed_image detection] & ->).
  destruct detection as [ d | ]; [ | leaf ].
  cbn [FileProcessor.output_dir FileProcessor.set_last].
  match goal with
  | |- context [imwrite w ?evs ?p h1 processed_image] =>
      destruct (imwrite w evs p h1 processed_image) as [ e | ok ]
  end; leaf.
Qed.

(** The whole loop writes what [batch_output] says. *)
Lemma items_writes ml total : forall files i s,
  exists self' h' new,
    FileProcessor.items w ml total i files s = ((self', h', snd s ++ new), inr tt)
    /\ writes new = batch_output w ml total i files s.
Proof.
  induction files as [ | file_path files IH ]; intros i [[self h] ev];
    cbn [FileProcessor.items batch_output snd].
  - exists self, h, []. split; [ by rewrite app_nil_r | done ].
  - destruct (item_writes ml total i file_path self h ev)
      as (self1 & h1 & new1 & Hitem & Hw1).
    unfold bind. rewrite Hitem. cbn [fst].
    destruct (IH (S i) (self1, h1, ev ++ new1)) as (self2 & h2 & new2 & Hitems & Hw2).
    cbn [snd] in Hitems. rewrite Hitems.
    exists self2, h2, (new1 ++ new2).
    split; [ by rewrite app_assoc | ]. by rewrite writes_app, Hw1, Hw2.
Qed.

Lemma run_writes ml self h ev :
  makedirs w (ev ++ [os_makedirs (FileProcessor.output_dir self)])
           (FileProcessor.output_dir self) = inr tt ->
  exists self' h' new,
    FileProcessor.run w ml (self, h, ev) = ((self', h', ev ++ new), inr tt)
    /\ writes new
       = batch_output w ml (length (FileProcessor.files_to_process self)) 0
                      (FileProcessor.files_to_process self)
                      (self, h, ev ++ [os_makedirs (FileProcessor.output_dir self)]).
Proof.
  intros Hmk. unfold FileProcessor.run. run_monad. rewrite Hmk.
  destruct (items_writes ml (length (FileProcessor.files_to_process self))
              (FileProcessor.files_to_process self) 0%nat
              (self, h, ev ++ [os_makedirs (FileProcessor.output_dir self)]))
    as (self1 & h1 & new & Hitems & Hw).
  cbv [bind] in Hitems. cbn [snd] in Hitems. rewrite Hitems.
  exists (FileProcessor.clear_files self1), h1,
    (os_makedirs (FileProcessor.output_dir self) :: new ++ [finished_processing]).
  split; [ by rewrite <- !app_assoc | ].
  change (os_makedirs (FileProcessor.output_dir self) :: new ++ [finished_processing])
    with ([os_makedirs (FileProcessor.output_dir self)] ++ new ++ [finished_processing]).
  rewrite !writes_app, Hw. cbn [writes omap]. by rewrite app_nil_r.
Qed.

(** The upload of one image hands the annotated image to [cv2.imwrite] as
    [output/detected_<file name>] when the file is read and a detection is
    found in it, and writes nothing otherwise. *)
Lemma process_single_image_writes file_path win h ev :
  (forall evs dir, makedirs w evs dir = inr tt) ->
  exists win' h' new r,
    MainWindow.process_single_image w file_path (win, h, ev)
    = ((win', h', ev ++ new), r)
    /\ writes new
       = match imread w (ev ++ [log_message ("Processing: " +:+ basename w file_path)])
                      file_path with
         | inr (Some img) =>
             match annotated w (MainWindow.model_loader win) h img with
             | Some processed_image =>
                 [("output/detected_" +:+ basename w file_path, processed_image)]
             | None => []
             end
         | _ => []
         end.
Proof.
  intros Hmk. unfold MainWindow.process_single_image, annotated. run_monad.
  destruct (imread w (ev ++ [log_message ("Processing: " +:+ basename w file_path)])
                   file_path) as [ e | [ img | ] ]; [ leaf4 | | leaf4 ].
  destruct (predict_single_returns w (MainWindow.model_loader win) (length h) (h ++ [img]))
    as (h1 & [processed_image detection] & ->).
  destruct detection as [ d | ]; [ | leaf4 ].
  rewrite Hmk.
  match goal with
  | |- context [imwrite w ?evs ?p h1 processed_image] =>
      destruct (imwrite w evs p h1 processed_image) as [ e | ok ]
  end; leaf4.
Qed.

(** A snapshot hands the annotated image to [cv2.imwrite] as
    [snapshots/snapshot_<timestamp>.jpg] when a detection is found in the
    mirrored frame, and writes nothing otherwise. *)
Lemma process_snapshot_writes now snapshot_frame win h ev :
  (forall evs dir, makedirs w evs dir = inr tt) ->
  exists win' h' new,
    MainWindow.process_snapshot w now snapshot_frame (win, h, ev)
    = ((win', h', ev ++ new), inr tt)
    /\ writes new
       = match h !! snapshot_frame with
         | Some img =>
             match flip w img with
             | inr flipped =>
                 match annotated w (MainWindow.model_loader win) h flipped with
                 | Some processed_image =>
                     [("snapshots/snapshot_" +:+ strftime_Ymd_HMS now +:+ ".jpg",
                       processed_image)]
                 | None => []
                 end
             | inl _ => []
             end
         | None => []
         end.
Proof.
  intros Hmk.
  unfold MainWindow.process_snapshot, MainWindow.process_snapshot_try,
    MainWindow.snapshot_path, annotated.
  run_monad.
  destruct (h !! snapshot_frame) as [ img | ]; [ | leaf ].
  destruct (flip w img) as [ [msg] | flipped ]; [ leaf | ].
  destruct (predict_single_returns w (MainWindow.model_loader win) (length h) (h ++ [flipped]))
    as (h1 & [processed_image detection] & ->).
  destruct detection as [ d | ]; [ | leaf ].
  rewrite Hmk.
  match goal with
  | |- context [imwrite w ?evs ?p h1 processed_image] =>
      destruct (imwrite w evs p h1 processed_image) as [ [msg] | ok ]
  end; leaf.
Qed.

(** C8.  Where the directories can be made: the batch hands to
    [cv2.imwrite], in order, one image for every file that is read and in
    which a detection is found, the annotated image, under the file's name
    prefixed with [detected_] in the output directory, and nothing else; the
    upload of one image does so for its file, as
    [output/detected_<file name>]; a snapshot hands the annotated image over
    as [snapshots/snapshot_<YYYYmmdd_HHMMSS>.jpg] when a detection is found in
    the mirrored frame, and nothing otherwise. *)
Theorem outputs_named_and_only_on_detection :
  (forall evs dir, makedirs w evs dir = inr tt) ->
  (forall ml self h ev,
      exists self' h' new,
        FileProcessor.run w ml (self, h, ev) = ((self', h', ev ++ new), inr tt)
        /\ writes new
           = batch_output w ml (length (FileProcessor.files_to_process self)) 0
                          (FileProcessor.files_to_process self)
                          (self, h, ev ++ [os_makedirs (FileProcessor.output_dir self)]))
  /\ (forall file_path win h ev,
        exists win' h' new r,
          MainWindow.process_single_image w file_path (win, h, ev)
          = ((win', h', ev ++ new), r)
          /\ writes new
             = match imread w (ev ++ [log_message ("Processing: " +:+ basename w file_path)])
                            file_path with
               | inr (Some img) =>
                   match annotated w (MainWindow.model_loader win) h img with
                   | Some processed_image =>
                       [("output/detected_" +:+ basename w file_path, processed_image)]
                   | None => []
                   end
               | _ => []
               end)
  /\ (forall now snapshot_frame win h ev,
        exists win' h' new,
          MainWindow.process_snapshot w now snapshot_frame (win, h, ev)
          = ((win', h', ev ++ new), inr tt)
          /\ writes new
             = match h !! snapshot_frame with
               | Some img =>
                   match flip w img with
                   | inr flipped =>
                       match annotated w (MainWindow.model_loader win) h flipped with
                       | Some processed_image =>
                           [("snapshots/snapshot_" +:+ strftime_Ymd_HMS now +:+ ".jpg",
                             processed_image)]
                       | None => []
                       end
                   | inl _ => []
                   end
               | None => []
               end).
Proof.
  intros Hmk. split; [ | split ].
  - intros ml self h ev. by apply run_writes.
  - intros file_path win h ev. by apply process_single_image_writes.
  - intros now snapshot_frame win h ev. by apply process_snapshot_writes.
Qed.

End Persist.

(** A batch of a readable image and an unreadable file, the upload of an
    image, and a snapshot taken on 7 March 2024 at 09:05:00, each with a mug
    in view. *)
Lemma outputs_named_and_only_on_detection_demo :
  let w := Demo.world in
  let now := {| tm_year := 2024; tm_mon := 3; tm_mday := 7;
                tm_hour := 9; tm_min := 5; tm_sec := 0 |} in
  let win := MainWindow.mk Demo.loaded false true in
  let batch := FileProcessor.add_files ["a/b.jpg"; "c.txt"] FileProcessor.init in
  (forall evs dir, makedirs w evs dir = inr tt)
  /\ (exists self' h' new,
        FileProcessor.run w Demo.loaded (batch, [], []) = ((self', h', [] ++ new), inr tt)
        /\ writes new = [("output/detected_b.jpg", 1%nat)])
  /\ (exists win' h' new r,
        MainWindow.process_single_image w "in/desk.png" (win, [], [])
        = ((win', h', [] ++ new), r)
        /\ writes new = [("output/detected_desk.png", 1%nat)])
  /\ (exists win' h' new,
        MainWindow.process_snapshot w now 0%nat (win, [Demo.frame0], [])
        = ((win', h', [] ++ new), inr tt)
        /\ writes new = [("snapshots/snapshot_20240307_090500.jpg", 2%nat)]).
Proof.
  cbv zeta.
  assert (Hmk : forall evs dir, makedirs Demo.world evs dir = inr tt) by done.
  destruct (outputs_named_and_only_on_detection Demo.world Hmk) as (Hrun & Hone & Hsnap).
  split; [ exact Hmk | ]. split; [ | split ].
  - destruct (Hrun Demo.loaded
                (FileProcessor.add_files ["a/b.jpg"; "c.txt"] FileProcessor.init) [] [])
      as (self' & h' & new & Heq & Hw).
    exists self', h', new. split; [ exact Heq | ]. rewrite Hw. reflexivity.
  - destruct (Hone "in/desk.png" (MainWindow.mk Demo.loaded false true) [] [])
      as (win' & h' & new & r & Heq & Hw).
    exists win', h', new, r. split; [ exact Heq | ]. rewrite Hw. reflexivity.
  - destruct (Hsnap {| tm_year := 2024; tm_mon := 3; tm_mday := 7;
                      tm_hour := 9; tm_min := 5; tm_sec := 0 |}
                   0%nat (MainWindow.mk Demo.loaded false true) [Demo.frame0] [])
      as (win' & h' & new & Heq & Hw).
    exists win', h', new. split; [ exact Heq | ]. rewrite Hw. reflexivity.
Defined.

(** Without a detection nothing is written: the same snapshot with a
    detector that finds nothing. *)
Example process_snapshot_without_detection :
  let w := Demo.with_model_predict (fun _ _ _ => inr [ {| boxes := Some [] |} ]) Demo.world in
  let now := {| tm_year := 2024; tm_mon := 3; tm_mday := 7;
                tm_hour := 9; tm_min := 5; tm_sec := 0 |} in
  writes (snd (fst (MainWindow.process_snapshot w now 0%nat
                      (MainWindow.mk Demo.loaded false true, [Demo.frame0], []))))
  = [].
Proof. reflexivity. Qed.

(** * More of the code *)

From Stdlib Require Import Lqa.
Import SpecMore.

(** ** [predict_single]: which candidates count *)

Section Candidates.
Import ModelLoader.

Variable w : World.

(** The first loop, whatever the confidences: nothing is kept unless some
    candidate has a positive confidence; else the first of the highest. *)
Lemma highest_loop_any names bs :
  (Forall (fun b => conf b <= 0)%Q bs
   /\ fold_left (highest_step names) bs (0%Q, None) = (0%Q, None))
  \/ exists i b, first_highest bs i b
       /\ (0 < conf b)%Q
       /\ fold_left (highest_step names) bs (0%Q, None)
          = (conf b, Some (detection_of names b)).
Proof.
  induction bs as [ | x l IH ] using rev_ind; [ left; by split | ].
  rewrite fold_left_app. cbn [fold_left].
  destruct IH as [[Hall ->] | (i & b & (Hi & Hmax & Hfirst) & Hpos & ->)].
  - unfold highest_step. destruct (Qgtb (conf x) 0) eqn:G.
    + apply Qgtb_lt in G. right. exists (length l), x.
      split; [ | by split ].
      split; [ by rewrite (list_lookup_middle l [] x) | ]. split.
      * intros b' [Hb | ->%list_elem_of_singleton]%elem_of_app; [ | apply Qle_refl ].
        rewrite Forall_forall in Hall. apply Qlt_le_weak.
        eapply Qle_lt_trans; [ by apply Hall | done ].
      * intros j b' Hj Hb. rewrite lookup_app_l in Hb by done.
        rewrite Forall_forall in Hall.
        eapply Qle_lt_trans; [ apply Hall; by eapply list_elem_of_lookup_2 | done ].
    + apply Qgtb_le in G. left. split; [ | done ].
      rewrite Forall_app, Forall_singleton. by split.
  - right. unfold highest_step.
    destruct (Qgtb (conf x) (conf b)) eqn:G.
    + apply Qgtb_lt in G.
      exists (length l), x. split; [ | split; [ by eapply Qlt_trans | done ] ].
      split; [ by rewrite (list_lookup_middle l [] x) | ]. split.
      * intros b' [Hb | ->%list_elem_of_singleton]%elem_of_app; [ | apply Qle_refl ].
        apply Qlt_le_weak. eapply Qle_lt_trans; eauto.
      * intros j b' Hj Hb. rewrite lookup_app_l in Hb by done.
        eapply Qle_lt_trans; [ | exact G ].
        apply Hmax. by eapply list_elem_of_lookup_2.
    + apply Qgtb_le in G.
      exists i, b. split; [ | by split ].
      pose proof (lookup_lt_Some _ _ _ Hi) as Hlt.
      split; [ by rewrite lookup_app_l | ]. split.
      * intros b' [Hb | ->%list_elem_of_singleton]%elem_of_app; auto.
      * intros j b' Hj Hb. apply (Hfirst j); [ done | ].
        rewrite lookup_app_l in Hb; [ done | lia ].
Qed.

(** X1.  [predict_single] reports a detection exactly when some candidate
    of the first result has a confidence above zero (OpenCV drawing without
    error).  Without one (no candidate at all, or none above zero) it
    returns the very frame it was given and the store is as it was: nothing
    is copied. *)
Theorem predict_single_detects_iff_positive self m image h img result rest bs :
  use_mock self = false ->
  model self = Some m ->
  h !! image = Some img ->
  model_predict w m img predict_single_args = inr (result :: rest) ->
  boxes result = Some bs ->
  (forall op im, accepts w op im = true) ->
  (forall text, exists size,
      getTextSize w text FONT_HERSHEY_SIMPLEX (1 # 2) 2 = inr size) ->
  exists h' out detection,
    predict_single w self image h = (h', inr (out, detection))
    /\ (is_Some detection <-> Exists (fun b => 0 < conf b)%Q bs)
    /\ (detection = None -> h' = h /\ out = image)
    /\ (forall d, detection = Some d -> exists b, b ∈ bs /\ confidence d = conf b
                                       /\ (0 < conf b)%Q).
Proof.
  intros Hmock Hmodel Himg Hpred Hboxes Hacc Hsize.
  unfold predict_single. rewrite Hmock, Hmodel.
  unfold try_except, predict_single_try, bind at 1, read. rewrite Himg.
  unfold bind at 1, lift. rewrite Hpred, Hboxes.
  destruct (highest_loop_any (class_names self) bs)
    as [[Hall ->] | (i & b & Hfirst & Hpos & ->)].
  - exists h, image, None. split; [ done | ]. split; [ | by split ].
    split; [ by intros [? ?] | ].
    intros (b & Hb & Hp)%Exists_exists. rewrite Forall_forall in Hall.
    specialize (Hall b Hb). by apply Qlt_not_le in Hp.
  - unfold bind at 1, copy, bind at 1, read. rewrite Himg. unfold alloc.
    unfold bind at 1.
    rewrite (draw_highest_first w (class_names self) (length h) bs i b Hfirst).
    unfold draw_box. destruct (int_xyxy b) as [[[x1 y1] x2] y2].
    destruct (Hsize (label_of (class_names self) b)) as [size Hsz].
    unfold bind, lift. rewrite draw_fresh by apply Hacc.
    rewrite Hsz. rewrite draw_fresh by apply Hacc.
    rewrite draw_fresh by apply Hacc. unfold ret.
    eexists _, _, _. split; [ reflexivity | ].
    destruct Hfirst as (Hi & _). apply list_elem_of_lookup_2 in Hi.
    split; [ | split; [ done | ] ].
    + split; [ intros _; apply Exists_exists; eauto | eauto ].
    + intros d [= <-]. exists b. by repeat split.
Qed.

End Candidates.

(** A candidate at confidence zero is not a detection. *)
Lemma predict_single_detects_iff_positive_demo :
  let zero := {| conf := 0; cls := 5; xyxy := (10, 10, 100, 100)%Q |} in
  let w := Demo.with_model_predict (fun _ _ _ => inr [ {| boxes := Some [zero] |} ])
                                   Demo.world in
  exists h' out detection,
    ModelLoader.predict_single w Demo.loaded 0%nat [Demo.frame0]
    = (h', inr (out, detection))
    /\ (is_Some detection <-> Exists (fun b => 0 < conf b)%Q [zero])
    /\ detection = None /\ h' = [Demo.frame0] /\ out = 0%nat.
Proof.
  cbv zeta.
  destruct (predict_single_detects_iff_positive
              (Demo.with_model_predict
                 (fun _ _ _ => inr [ {| boxes := Some [ {| conf := 0; cls := 5;
                                                          xyxy := (10, 10, 100, 100)%Q |} ] |} ])
                 Demo.world)
              Demo.loaded 0%nat 0%nat [Demo.frame0] Demo.frame0
              {| boxes := Some [ {| conf := 0; cls := 5; xyxy := (10, 10, 100, 100)%Q |} ] |}
              [] [ {| conf := 0; cls := 5; xyxy := (10, 10, 100, 100)%Q |} ]
              eq_refl eq_refl eq_refl eq_refl eq_refl
              (fun _ _ => eq_refl)
              (fun text => ex_intro _ _ eq_refl))
    as (h' & out & detection & Hrun & Hiff & Hnone & _).
  exists h', out, detection. split; [ exact Hrun | ]. split; [ exact Hiff | ].
  vm_compute in Hrun. injection Hrun as <- <- <-.
  repeat split; reflexivity.
Defined.

(** ** Placeholder mode is for good *)

Section Permanent.
Import ModelLoader.

(** X2.  Once a load has failed, every later [load_model], whatever the
    path and even with a detector that would now load, returns [True]
    without trying again: the loader stays in placeholder mode with the
    model handle and the slots it had, and the class names [{0: 'Object'}]. *)
Theorem load_model_never_retried w1 model_path1 self s e :
  use_mock self = false ->
  load_model_try w1 model_path1 self = (s, inl e) ->
  exists self1,
    load_model w1 model_path1 self = (self1, inr true)
    /\ use_mock self1 = true
    /\ forall w2 model_path2,
         load_model w2 model_path2 self1 = (self1, inr true).
Proof.
  intros Hmock Htry. unfold load_model at 1, bind at 1, get.
  rewrite Hmock. unfold try_except. rewrite Htry.
  eexists. split; [ reflexivity | ]. split; [ reflexivity | ].
  intros w2 model_path2. reflexivity.
Qed.

End Permanent.

(** The weights are missing at first and present later: still placeholder
    mode. *)
Lemma load_model_never_retried_demo :
  let self := ModelLoader.init Demo.world_no_model in
  exists self1,
    ModelLoader.load_model Demo.world_no_model "trained_model/best.pt" self = (self1, inr true)
    /\ ModelLoader.use_mock self1 = true
    /\ ModelLoader.load_model Demo.world "trained_model/best.pt" self1 = (self1, inr true).
Proof.
  cbv zeta.
  destruct (load_model_never_retried Demo.world_no_model "trained_model/best.pt"
              (ModelLoader.init Demo.world_no_model) _ _ eq_refl eq_refl)
    as (self1 & Hrun & Hmock & Hlater).
  exists self1. split; [ exact Hrun | ]. split; [ exact Hmock | ].
  exact (Hlater Demo.world "trained_model/best.pt").
Defined.

(** ** The background loop, further *)

Section Background.
Import ModelLoader.

Variable w : World.

Lemma extends_refl h : extends h h.
Proof. by split. Qed.

Lemma extends_trans h1 h2 h3 : extends h1 h2 -> extends h2 h3 -> extends h1 h3.
Proof.
  intros [L1 O1] [L2 O2]. split; [ lia | ].
  intros l Hl. rewrite O2 by lia. by apply O1.
Qed.

Lemma extends_alloc (h : heap) img : extends h (h ++ [img]).
Proof.
  split; [ rewrite length_app; lia | ].
  intros l Hl. by apply lookup_app_l.
Qed.

Lemma extends_drawn_fresh (h h1 h2 : heap) :
  extends h h1 -> drawn_at (length h) h1 h2 -> extends h h2.
Proof.
  intros [L O] (L' & O' & _). split; [ lia | ].
  intros l Hl. rewrite O' by lia. by apply O.
Qed.

(** Processing a frame adds at most its copy to the store. *)
Lemma process_frame_extends self frame h :
  extends h (fst ((if use_mock self then process_frame_mock w frame
                   else process_frame_model w self frame) h)).
Proof.
  destruct (use_mock self).
  - unfold process_frame_mock, bind at 1, copy, bind at 1, read.
    destruct (h !! frame) as [img | ]; [ | apply extends_refl ].
    unfold alloc.
    assert (Hd : draws_at (length h)
              (draw (accepts w) (length h) mock_box ;;;
               draw (accepts w) (length h) mock_text ;;;
               ret (Some (length h), Some mock_detection))%py).
    { repeat (apply draws_at_bind; [ | intros ? ]);
        auto using draws_at_draw, draws_at_ret. }
    eapply extends_drawn_fresh; [ apply extends_alloc | apply (Hd (h ++ [img])) ].
  - unfold process_frame_model. destruct (model self) as [m | ]; [ | apply extends_refl ].
    unfold bind at 1, read.
    destruct (h !! frame) as [img | ] eqn:E; [ | apply extends_refl ].
    unfold bind at 1, lift.
    destruct (model_predict w m img process_queue_args); [ apply extends_refl | ].
    unfold bind, copy, bind, read. rewrite E. unfold alloc, ret. cbn [fst].
    apply extends_alloc.
Qed.

(** A turn of the background thread is possible in every state. *)
Lemma process_queue_any self h k :
  exists self' h' k',
    _process_queue w self h k = Some (self', h', k')
    /\ extends h h'
    /\ is_processing self' = is_processing self
    /\ use_mock self' = use_mock self
    /\ (k = Left -> k' = Left /\ last_result self' = last_result self)
    /\ (k = NotStarted -> k' = NotStarted).
Proof.
  destruct k as [ | | frame | ]; cbn [_process_queue].
  - exists self, h, NotStarted. split; [ done | ]. split; [ apply extends_refl | ].
    by repeat split.
  - destruct (is_processing self) eqn:Hp.
    + unfold Queue.get_nowait.
      destruct (Queue.items (detection_queue self)) as [ | [f | ] rest ];
        eexists _, _, _; (split; [ reflexivity | ]);
        (split; [ apply extends_refl | ]); by repeat split.
    + exists self, h, Left. split; [ done | ]. split; [ apply extends_refl | ].
      by repeat split.
  - pose proof (process_frame_extends self frame h) as Hext.
    destruct ((if use_mock self then process_frame_mock w frame
               else process_frame_model w self frame) h) as [h' [e | r]]; cbn [fst] in Hext.
    + exists self, h', AtLoopTest. split; [ done | ]. split; [ done | ].
      by repeat split.
    + destruct (publish_never_waits r self) as (s & -> & _ & _ & Hmock & Hip & _).
      exists s, h', AtLoopTest. split; [ done | ]. split; [ done | ].
      by repeat split.
  - exists self, h, Left. split; [ done | ]. split; [ apply extends_refl | ].
    by repeat split.
Qed.

Lemma step_extends a s s' out :
  step w a s = Some (s', out) -> extends (store s) (store s').
Proof.
  destruct a as [ frame | | | | ]; cbn [step].
  - destruct (caller s); [ done | ].
    destruct (negb (is_processing (loader s))); intros [= <- _]; apply extends_refl.
  - destruct (caller s) as [ frame | ]; [ | done ].
    destruct (predict_async_fetch (loader s) frame). intros [= <- _]. apply extends_refl.
  - destruct (worker_live (worker s)); [ done | ]. intros [= <- _]. apply extends_refl.
  - intros [= <- _]. apply extends_refl.
  - destruct (process_queue_any (loader s) (store s) (worker s))
      as (self' & h' & k' & -> & Hext & _).
    by intros [= <- _].
Qed.

(** X3.  Over every schedule of the caller and the background thread, the
    images already in the store, the submitted frames among them, stay as
    they are: the loop draws on copies only, and the store only grows. *)
Theorem background_loop_keeps_frames : forall acts s s' outs,
  exec w acts s = Some (s', outs) ->
  (length (store s) <= length (store s'))%nat
  /\ forall l, (l < length (store s))%nat -> store s' !! l = store s !! l.
Proof.
  intros acts s s' outs Hexec. change (extends (store s) (store s')).
  revert s s' outs Hexec.
  induction acts as [ | a acts IH ]; intros s s' outs; cbn [exec].
  - intros [= <- _]. apply extends_refl.
  - destruct (step w a s) as [[s1 out] | ] eqn:Hstep; [ | done ].
    destruct (exec w acts s1) as [[s2 outs2] | ] eqn:Hexec; [ | done ].
    intros [= <- _]. eapply extends_trans; [ by eapply step_extends | by eapply IH ].
Qed.

Lemma placeholder_only_step a s s' out :
  placeholder_only (loader s) ->
  step w a s = Some (s', out) ->
  placeholder_only (loader s')
  /\ match out with Some r => placeholder_or_none r | None => True end.
Proof.
  intros Hinv. pose proof Hinv as (Hmock & Hq & Hl).
  destruct a as [ frame | | | | ]; cbn [step].
  - destruct (caller s); [ done | ].
    destruct (negb (is_processing (loader s))); intros [= <- <-].
    + split; [ done | by left ].
    + split; [ | done ]. cbn [loader]. unfold predict_async_submit.
      destruct (Queue.empty (detection_queue (loader s))); [ | done ].
      by destruct (Queue.put_nowait (detection_queue (loader s)) frame).
  - destruct (caller s) as [ frame | ]; [ | done ].
    unfold predict_async_fetch, Queue.get_nowait.
    destruct (Queue.items (result_queue (loader s))) as [ | r rest ] eqn:E.
    + intros [= <- <-]. split; [ done | ].
      destruct (last_result (loader s)) as [ r | ] eqn:El; [ right; by apply Hl | by left ].
    + intros [= <- <-]. split.
      * repeat split; try done. cbn. intros r' Hr'. apply Hq. by apply list_elem_of_further.
      * right. apply Hq. apply list_elem_of_here.
  - destruct (worker_live (worker s)); [ done | ]. by intros [= <- <-].
  - by intros [= <- <-].
  - destruct (worker s) as [ | | frame | ] eqn:Hk; cbn [_process_queue].
    + by intros [= <- <-].
    + destruct (is_processing (loader s)); [ | by intros [= <- <-] ].
      unfold Queue.get_nowait.
      destruct (Queue.items (detection_queue (loader s))) as [ | [f | ] rest ];
        by intros [= <- <-].
    + rewrite Hmock.
      destruct (process_frame_mock w frame (store s)) as [h' [e | r]] eqn:Hp;
        [ by intros [= <- <-] | ].
      assert (Hr : snd r = Some mock_detection).
      { revert Hp. unfold process_frame_mock, bind at 1, copy, bind at 1, read.
        destruct (store s !! frame); [ | done ]. unfold alloc, bind at 1.
        destruct (draw (accepts w) _ mock_box _) as [h1 [e | []]]; [ done | ].
        unfold bind. destruct (draw (accepts w) _ mock_text h1) as [h2 [e | []]]; [ done | ].
        unfold ret. by intros [= _ <-]. }
      destruct (publish_never_waits r (loader s))
        as (ld & -> & Hlast & _ & Hmock' & _ & _ & Hitems).
      intros [= <- <-]. split; [ | done ]. cbn [loader].
      split; [ congruence | ]. split.
      * intros r' Hr'. rewrite Hitems in Hr'.
        destruct (Queue.items (result_queue (loader s))) as [ | r0 rest ] eqn:E.
        -- by apply list_elem_of_singleton in Hr' as ->.
        -- by apply Hq.
      * intros r' Hr'. congruence.
    + by intros [= <- <-].
Qed.

(** X4.  From a loader that is in placeholder mode when the program starts,
    over every schedule, [predict_async] never returns anything but either
    no detection or the placeholder [{'class_name': 'Mock', 'confidence':
    0.95}]. *)
Theorem placeholder_mode_returns_mock_only model_path h acts s outs :
  use_mock (loader (boot w model_path h)) = true ->
  exec w acts (boot w model_path h) = Some (s, outs) ->
  use_mock (loader s) = true
  /\ Forall placeholder_or_none outs.
Proof.
  intros Hmock Hexec.
  assert (Hinit : placeholder_only (loader (boot w model_path h))).
  { split; [ done | ].
    unfold boot in *. cbn [loader] in *.
    destruct (load_model w model_path (init w)) as [self' r] eqn:E.
    destruct (load_model_keeps_slots w _ _ _ _ E) as (_ & Hr & Hl & _).
    cbn [fst]. rewrite Hr, Hl. cbn. split; [ by intros r' ?%elem_of_nil | done ]. }
  clear Hmock. revert Hexec Hinit. generalize (boot w model_path h).
  revert s outs. induction acts as [ | a acts IH ]; intros s outs s0; cbn [exec].
  - intros [= <- <-] (Hm & _). by split.
  - destruct (step w a s0) as [[s1 out] | ] eqn:Hstep; [ | done ].
    destruct (exec w acts s1) as [[s2 outs2] | ] eqn:Hexec; [ | done ].
    intros [= <- <-] Hinv.
    destruct (placeholder_only_step _ _ _ _ Hinv Hstep) as [Hinv1 Hout].
    destruct (IH _ _ _ Hexec Hinv1) as [Hm Houts]. split; [ done | ].
    destruct out; [ by constructor | done ].
Qed.

End Background.

(** A frame submitted, taken and processed: the frame is as it was. *)
Lemma background_loop_keeps_frames_demo :
  let w := Demo.world in
  let acts := [ModelLoader.Start; ModelLoader.CallBegin (Some 0%nat); ModelLoader.CallEnd;
               ModelLoader.WorkerTurn; ModelLoader.WorkerTurn] in
  exists s outs,
    ModelLoader.exec w acts (ModelLoader.boot w "trained_model/best.pt" [Demo.frame_mug])
    = Some (s, outs)
    /\ length (ModelLoader.store s) = 2%nat
    /\ ModelLoader.store s !! 0%nat = Some Demo.frame_mug.
Proof.
  cbv zeta. eexists. eexists.
  assert (Hexec : ModelLoader.exec Demo.world
            [ModelLoader.Start; ModelLoader.CallBegin (Some 0%nat); ModelLoader.CallEnd;
             ModelLoader.WorkerTurn; ModelLoader.WorkerTurn]
            (ModelLoader.boot Demo.world "trained_model/best.pt" [Demo.frame_mug])
          = Some (ModelLoader.mkSys
                    (ModelLoader.set_result_queue
                       (Queue.mk 1 [(Some 1%nat, Some (ModelLoader.detection_of
                          (ModelLoader.class_names Demo.loaded) Demo.pen))])
                       (ModelLoader.set_last_result
                          (Some 1%nat, Some (ModelLoader.detection_of
                             (ModelLoader.class_names Demo.loaded) Demo.pen))
                          (ModelLoader.start_processing Demo.loaded)))
                    [Demo.frame_mug; Demo.frame_mug] ModelLoader.AtLoopTest None,
                  [(Some 0%nat, None)])) by reflexivity.
  split; [ exact Hexec | ]. split; [ reflexivity | ].
  destruct (background_loop_keeps_frames Demo.world _ _ _ _ Hexec) as [_ Hsame].
  exact (Hsame 0%nat (Nat.lt_0_succ 0)).
Defined.

(** The weights are missing; one frame goes through the background loop. *)
Lemma placeholder_mode_returns_mock_only_demo :
  let w := Demo.world_no_model in
  let acts := [ModelLoader.Start; ModelLoader.CallBegin (Some 0%nat); ModelLoader.CallEnd;
               ModelLoader.WorkerTurn; ModelLoader.WorkerTurn;
               ModelLoader.CallBegin (Some 0%nat); ModelLoader.CallEnd] in
  exists s,
    ModelLoader.exec w acts (ModelLoader.boot w "trained_model/best.pt" [Demo.frame_mug])
    = Some (s, [(Some 0%nat, None); (Some 1%nat, Some ModelLoader.mock_detection)])
    /\ Forall placeholder_or_none
         [(Some 0%nat, None); (Some 1%nat, Some ModelLoader.mock_detection)].
Proof.
  cbv zeta. eexists.
  assert (Hexec : ModelLoader.exec Demo.world_no_model
            [ModelLoader.Start; ModelLoader.CallBegin (Some 0%nat); ModelLoader.CallEnd;
             ModelLoader.WorkerTurn; ModelLoader.WorkerTurn;
             ModelLoader.CallBegin (Some 0%nat); ModelLoader.CallEnd]
            (ModelLoader.boot Demo.world_no_model "trained_model/best.pt" [Demo.frame_mug])
          = Some (ModelLoader.mkSys
                    (ModelLoader.set_detection_queue (Queue.mk 1 [Some 0%nat])
                       (ModelLoader.set_last_result
                          (Some 1%nat, Some ModelLoader.mock_detection)
                          (ModelLoader.start_processing Demo.unloaded)))
                    [Demo.frame_mug;
                     draw_on ModelLoader.mock_text (draw_on ModelLoader.mock_box Demo.frame_mug)]
                    ModelLoader.AtLoopTest None,
                  [(Some 0%nat, None); (Some 1%nat, Some ModelLoader.mock_detection)]))
    by reflexivity.
  split; [ exact Hexec | ].
  exact (proj2 (placeholder_mode_returns_mock_only Demo.world_no_model _ _ _ _ _
                  eq_refl Hexec)).
Defined.

Section Shutdown.
Import ModelLoader.

Variable w : World.

Lemma left_stays_left : forall acts s s' outs,
  worker s = Left ->
  Start ∉ acts ->
  exec w acts s = Some (s', outs) ->
  worker s' = Left /\ last_result (loader s') = last_result (loader s).
Proof.
  induction acts as [ | a acts IH ]; intros s s' outs Hk Hns; cbn [exec].
  - by intros [= <- _].
  - destruct (step w a s) as [[s1 out] | ] eqn:Hstep; [ | done ].
    destruct (exec w acts s1) as [[s2 outs2] | ] eqn:Hexec; [ | done ].
    intros [= <- _].
    assert (H1 : worker s1 = Left /\ last_result (loader s1) = last_result (loader s)).
    { revert Hstep. destruct a as [ frame | | | | ]; cbn [step].
      - destruct (caller s); [ done | ].
        destruct (negb (is_processing (loader s))); intros [= <- _]; [ done | ].
        split; [ done | ]. cbn [loader]. unfold predict_async_submit.
        destruct (Queue.empty (detection_queue (loader s))); [ | done ].
        by destruct (Queue.put_nowait (detection_queue (loader s)) frame).
      - destruct (caller s) as [ frame | ]; [ | done ].
        unfold predict_async_fetch, Queue.get_nowait.
        destruct (Queue.items (result_queue (loader s))); by intros [= <- _].
      - exfalso. apply Hns. apply list_elem_of_here.
      - by intros [= <- _].
      - rewrite Hk. cbn [_process_queue]. by intros [= <- _]. }
    destruct H1 as [Hk1 Hl1].
    destruct (IH s1 s2 outs2 Hk1) as [Hk2 Hl2]; [ | done | split; congruence ].
    intros Hin. apply Hns. by apply list_elem_of_further.
Qed.

(** X5.  A [None] handed to [predict_async] while the slot is free is
    queued like a frame, and the background thread leaves its loop when it
    takes it.  [is_processing] stays set, but from then on (unless
    [start_processing] is called again) the thread is gone: no frame is
    processed and [last_result] never changes again. *)
Theorem none_frame_ends_background_loop s :
  is_processing (loader s) = true ->
  Queue.items (detection_queue (loader s)) = [] ->
  caller s = None ->
  worker s = AtLoopTest ->
  exists s1 r,
    exec w [CallBegin None; CallEnd; WorkerTurn] s = Some (s1, [r])
    /\ worker s1 = Left
    /\ is_processing (loader s1) = true
    /\ forall acts s2 outs,
         Start ∉ acts ->
         exec w acts s1 = Some (s2, outs) ->
         worker s2 = Left /\ last_result (loader s2) = last_result (loader s1).
Proof.
  destruct s as [[m names [md dq] [mr rq] ip lr um] h k c].
  cbn [loader is_processing detection_queue Queue.items caller worker].
  intros -> -> -> ->.
  destruct md as [ | md ], rq as [ | r0 rq ]; cbn;
    (eexists _, _; split; [ reflexivity | ]; split; [ reflexivity | ];
     split; [ reflexivity | ];
     intros acts s2 outs Hns Hexec;
     by eapply (left_stays_left acts); [ | exact Hns | exact Hexec ]).
Qed.

(** X7.  Over every schedule from the start of the program the result slot
    never holds more than one result, and the background thread can always
    take its next turn: its [put] into the result slot, guarded by
    [empty()], never waits. *)
Theorem result_slot_bounded_and_never_waited_on model_path h acts s outs :
  exec w acts (boot w model_path h) = Some (s, outs) ->
  (Queue.qsize (result_queue (loader s)) <= 1)%nat
  /\ exists s', step w WorkerTurn s = Some (s', None).
Proof.
  intros Hexec.
  pose proof (slots_ok_exec w acts _ _ _ (slots_ok_boot w model_path h) Hexec) as Hok.
  split; [ by destruct Hok as (_ & _ & _ & Hr & _) | ].
  cbn [step].
  destruct (process_queue_any w (loader s) (store s) (worker s))
    as (self' & h' & k' & -> & _). eauto.
Qed.

End Shutdown.

(** [predict_async(None)]: the thread leaves, a later frame stays in the
    slot. *)
Lemma none_frame_ends_background_loop_demo :
  let s := ModelLoader.mkSys (ModelLoader.start_processing Demo.loaded) [Demo.frame_mug]
                             ModelLoader.AtLoopTest None in
  exists s1 r s2 outs,
    ModelLoader.exec Demo.world
      [ModelLoader.CallBegin None; ModelLoader.CallEnd; ModelLoader.WorkerTurn] s
    = Some (s1, [r])
    /\ ModelLoader.worker s1 = ModelLoader.Left
    /\ ModelLoader.exec Demo.world
         [ModelLoader.CallBegin (Some 0%nat); ModelLoader.CallEnd;
          ModelLoader.WorkerTurn; ModelLoader.WorkerTurn] s1
       = Some (s2, outs)
    /\ ModelLoader.worker s2 = ModelLoader.Left
    /\ ModelLoader.last_result (ModelLoader.loader s2) = None
    /\ Queue.items (ModelLoader.detection_queue (ModelLoader.loader s2)) = [Some 0%nat].
Proof.
  cbv zeta.
  destruct (none_frame_ends_background_loop Demo.world
              (ModelLoader.mkSys (ModelLoader.start_processing Demo.loaded) [Demo.frame_mug]
                                 ModelLoader.AtLoopTest None)
              eq_refl eq_refl eq_refl eq_refl)
    as (s1 & r & Hexec & Hleft & _ & Hlater).
  exists s1, r.
  vm_compute in Hexec. injection Hexec as <- <-.
  eexists _, _. split; [ reflexivity | ]. split; [ reflexivity | ].
  split; [ reflexivity | ].
  assert (Hns : ModelLoader.Start ∉ [ModelLoader.CallBegin (Some 0%nat); ModelLoader.CallEnd;
                                     ModelLoader.WorkerTurn; ModelLoader.WorkerTurn]).
  { intros H. repeat (apply elem_of_cons in H as [H | H]; [ discriminate H | ]).
    by apply elem_of_nil in H. }
  destruct (Hlater _ _ _ Hns eq_refl) as [Hk Hl].
  split; [ exact Hk | ]. split; [ exact Hl | reflexivity ].
Defined.

(** After two completions in a row the slot still holds one result. *)
Lemma result_slot_bounded_and_never_waited_on_demo :
  let w := Demo.world_by_pixel in
  let h := [Demo.frame_mug; Demo.frame_pen] in
  let acts :=
    [ModelLoader.Start;
     ModelLoader.CallBegin (Some 0%nat); ModelLoader.CallEnd; ModelLoader.WorkerTurn;
     ModelLoader.CallBegin (Some 1%nat); ModelLoader.CallEnd;
     ModelLoader.WorkerTurn; ModelLoader.WorkerTurn; ModelLoader.WorkerTurn] in
  exists s outs,
    ModelLoader.exec w acts (ModelLoader.boot w "trained_model/best.pt" h) = Some (s, outs)
    /\ Queue.qsize (ModelLoader.result_queue (ModelLoader.loader s)) = 1%nat
    /\ exists s', ModelLoader.step w ModelLoader.WorkerTurn s = Some (s', None).
Proof.
  cbv zeta.
  destruct (ModelLoader.exec Demo.world_by_pixel
              [ModelLoader.Start;
               ModelLoader.CallBegin (Some 0%nat); ModelLoader.CallEnd; ModelLoader.WorkerTurn;
               ModelLoader.CallBegin (Some 1%nat); ModelLoader.CallEnd;
               ModelLoader.WorkerTurn; ModelLoader.WorkerTurn; ModelLoader.WorkerTurn]
              (ModelLoader.boot Demo.world_by_pixel "trained_model/best.pt"
                                [Demo.frame_mug; Demo.frame_pen]))
    as [[s outs] | ] eqn:Hexec; [ | vm_compute in Hexec; discriminate Hexec ].
  exists s, outs. split; [ reflexivity | ].
  destruct (result_slot_bounded_and_never_waited_on Demo.world_by_pixel _ _ _ _ _ Hexec)
    as [_ Hturn].
  split; [ | exact Hturn ].
  vm_compute in Hexec. injection Hexec as <- _. reflexivity.
Defined.

(** ** Shutdown of the background thread, statement by statement *)

Section LoopSteps.
Import BackgroundLoop.
Import ModelLoader (Action, CallBegin, CallEnd, Start, Stop, WorkerTurn).

Variable w : World.

(** Processing the frame in hand leaves the submission slot alone. *)
Lemma holding_keeps_queue self h frame self' h' k' :
  ModelLoader._process_queue w self h (ModelLoader.Holding frame) = Some (self', h', k') ->
  ModelLoader.detection_queue self' = ModelLoader.detection_queue self.
Proof.
  cbn [ModelLoader._process_queue].
  destruct ((if ModelLoader.use_mock self then ModelLoader.process_frame_mock w frame
             else ModelLoader.process_frame_model w self frame) h) as [h1 [ e | r ]];
    [ by intros [= <- _ _] | ].
  unfold ModelLoader.publish.
  destruct (Queue.empty _); [ | by intros [= <- _ _] ].
  destruct (Queue.put _ r); [ by intros [= <- _ _] | done ].
Qed.

(** A turn of the thread is possible in every state.  It keeps the flag;
    with the flag cleared it brings the thread nearer to the end of its loop,
    and it takes at most the head of the queue, which it can only do from
    inside [get]. *)
Lemma turn_any self h k :
  exists self' h' k',
    turn w self h k = Some (self', h', k')
    /\ ModelLoader.is_processing self' = ModelLoader.is_processing self
    /\ (ModelLoader.is_processing self = false ->
        (turns_left k' <= turns_left k - 1)%nat /\ (k' = InGet -> k = InGet))
    /\ (Queue.items (ModelLoader.detection_queue self')
        = Queue.items (ModelLoader.detection_queue self)
        \/ (k = InGet /\ k' <> InGet
            /\ exists x, Queue.items (ModelLoader.detection_queue self)
                         = x :: Queue.items (ModelLoader.detection_queue self'))).
Proof.
  destruct k as [ | | | frame | ]; cbn [turn].
  - eexists _, _, _. split; [ reflexivity | ]. split; [ done | ].
    split; [ intros _; split; [ cbn; lia | done ] | by left ].
  - eexists _, _, _. split; [ reflexivity | ]. split; [ done | ].
    split; [ | by left ]. intros ->. split; [ cbn; lia | done ].
  - unfold Queue.get_nowait.
    destruct (Queue.items (ModelLoader.detection_queue self)) as [ | [ f | ] rest ] eqn:Hq;
      eexists _, _, _; (split; [ reflexivity | ]); (split; [ done | ]);
      (split; [ intros _; split; [ cbn; lia | done ] | ]).
    + by left.
    + right. split; [ done | ]. split; [ done | ]. by exists (Some f).
    + right. split; [ done | ]. split; [ done | ]. by exists None.
  - destruct (process_queue_any w self h (ModelLoader.Holding frame))
      as (self' & h' & k' & Hturn & _ & Hflag & _ & _ & _).
    rewrite Hturn. exists self', h', AtLoopTest. split; [ done | ]. split; [ done | ].
    split; [ intros _; split; [ cbn; lia | done ] | ].
    left. by rewrite (holding_keeps_queue _ _ _ _ _ _ Hturn).
  - eexists _, _, _. split; [ reflexivity | ]. split; [ done | ].
    split; [ intros _; split; [ cbn; lia | done ] | by left ].
Qed.

(** An action other than [start_processing], with the flag cleared. *)
Lemma step_stopped a s s1 out :
  ModelLoader.is_processing (loader s) = false ->
  a <> Start ->
  step w a s = Some (s1, out) ->
  ModelLoader.is_processing (loader s1) = false
  /\ (turns_left (point s1) <= turns_left (point s) - worker_turns [a])%nat
  /\ (point s1 = InGet -> point s = InGet)
  /\ (Queue.items (ModelLoader.detection_queue (loader s1))
      = Queue.items (ModelLoader.detection_queue (loader s))
      \/ (point s = InGet /\ point s1 <> InGet
          /\ exists x, Queue.items (ModelLoader.detection_queue (loader s))
                       = x :: Queue.items (ModelLoader.detection_queue (loader s1)))).
Proof.
  intros Hoff Hns. destruct a as [ frame | | | | ]; cbn [step worker_turns].
  - destruct (caller s); [ done | ]. rewrite Hoff. cbn [negb]. intros [= <- _].
    split; [ done | ]. split; [ lia | ]. split; [ done | by left ].
  - destruct (caller s) as [ frame | ]; [ | done ].
    unfold ModelLoader.predict_async_fetch, Queue.get_nowait.
    destruct (Queue.items (ModelLoader.result_queue (loader s)));
      intros [= <- _]; cbn [loader point];
      (split; [ done | ]); (split; [ lia | ]); (split; [ done | by left ]).
  - done.
  - intros [= <- _]. cbn [loader point].
    split; [ done | ]. split; [ lia | ]. split; [ done | by left ].
  - destruct (turn_any (loader s) (store s) (point s))
      as (self' & h' & k' & -> & Hflag & Hdown & Hq).
    intros [= <- _]. cbn [loader point].
    destruct (Hdown Hoff) as [Hle Hin].
    split; [ by rewrite Hflag | ]. split; [ done | ]. split; [ done | done ].
Qed.

(** A schedule without [start_processing], from a state with the flag
    cleared. *)
Lemma exec_stopped : forall acts s s' outs,
  ModelLoader.is_processing (loader s) = false ->
  Start ∉ acts ->
  exec w acts s = Some (s', outs) ->
  ModelLoader.is_processing (loader s') = false
  /\ (turns_left (point s') <= turns_left (point s) - worker_turns acts)%nat
  /\ (point s' = InGet -> point s = InGet)
  /\ (Queue.items (ModelLoader.detection_queue (loader s'))
      = Queue.items (ModelLoader.detection_queue (loader s))
      \/ (point s = InGet
          /\ exists x, Queue.items (ModelLoader.detection_queue (loader s))
                       = x :: Queue.items (ModelLoader.detection_queue (loader s')))).
Proof.
  induction acts as [ | a acts IH ]; intros s s' outs Hoff Hns; cbn [exec].
  - intros [= <- _]. split; [ done | ]. split; [ cbn; lia | ]. split; [ done | by left ].
  - destruct (step w a s) as [[s1 out] | ] eqn:Hstep; [ | done ].
    destruct (exec w acts s1) as [[s2 outs2] | ] eqn:Hexec; [ | done ].
    intros [= <- _].
    assert (Ha : a <> Start).
    { intros ->. apply Hns. apply list_elem_of_here. }
    destruct (step_stopped a s s1 out Hoff Ha Hstep) as (Hoff1 & Hle1 & Hin1 & Hq1).
    destruct (IH s1 s2 outs2 Hoff1) as (Hoff2 & Hle2 & Hin2 & Hq2);
      [ intros Hin; apply Hns; by apply list_elem_of_further | done | ].
    split; [ done | ]. split.
    { assert (worker_turns (a :: acts) = worker_turns [a] + worker_turns acts)%nat
        as -> by (by destruct a).
      lia. }
    split; [ auto | ].
    destruct Hq1 as [ Hq1 | (Hget & Hnot & x & Hq1) ].
    + rewrite <- Hq1. destruct Hq2 as [ Hq2 | (Hget1 & Hq2) ]; [ by left | right; auto ].
    + right. split; [ done | ]. exists x. rewrite Hq1.
      destruct Hq2 as [ -> | (Hget1 & _) ]; done.
Qed.

(** X6.  After [stop_processing], and as long as [start_processing] is not
    called again, the background thread leaves its loop within three of its
    turns, whatever the caller does meanwhile: the thread may be past the
    loop test already, in which case it still takes a frame that is queued
    and processes it before it meets the test again.  It takes no second
    frame: of the submission slot at most the head is consumed. *)
Theorem stop_processing_ends_loop s :
  (exists s',
      exec w [Stop; WorkerTurn; WorkerTurn; WorkerTurn] s = Some (s', [])
      /\ live (point s') = false)
  /\ forall acts s' outs,
       Start ∉ acts ->
       exec w (Stop :: acts) s = Some (s', outs) ->
       ModelLoader.is_processing (loader s') = false
       /\ ((3 <= worker_turns acts)%nat -> live (point s') = false)
       /\ (Queue.items (ModelLoader.detection_queue (loader s'))
           = Queue.items (ModelLoader.detection_queue (loader s))
           \/ exists x, Queue.items (ModelLoader.detection_queue (loader s))
                        = x :: Queue.items (ModelLoader.detection_queue (loader s'))).
Proof.
  assert (Hdead : forall k, turns_left k = 0%nat -> live k = false)
    by (by intros [ | | | frame | ]).
  assert (Hmost : forall k, (turns_left k <= 3)%nat)
    by (intros [ | | | frame | ]; cbn; lia).
  set (s0 := mkSys (ModelLoader.stop_processing (loader s)) (store s) (point s) (caller s)).
  assert (Hgen : forall acts s' outs,
             Start ∉ acts ->
             exec w acts s0 = Some (s', outs) ->
             ModelLoader.is_processing (loader s') = false
             /\ ((3 <= worker_turns acts)%nat -> live (point s') = false)
             /\ (Queue.items (ModelLoader.detection_queue (loader s'))
                 = Queue.items (ModelLoader.detection_queue (loader s))
                 \/ exists x, Queue.items (ModelLoader.detection_queue (loader s))
                              = x :: Queue.items (ModelLoader.detection_queue (loader s')))).
  { intros acts s' outs Hns Hexec.
    destruct (exec_stopped acts s0 s' outs eq_refl Hns Hexec) as (Hoff & Hle & _ & Hq).
    split; [ done | ]. split.
    - intros H3. apply Hdead. pose proof (Hmost (point s0)). lia.
    - destruct Hq as [ Hq | (_ & x & Hq) ]; [ by left | right; by exists x ]. }
  assert (Hstop : forall acts, exec w (Stop :: acts) s = exec w acts s0).
  { intros acts. cbn [exec step]. fold s0. by destruct (exec w acts s0) as [[s2 outs2] | ]. }
  split.
  - assert (Hturn : forall s1, exists s2, step w WorkerTurn s1 = Some (s2, None)).
    { intros s1. cbn [step].
      destruct (turn_any (loader s1) (store s1) (point s1)) as (self' & h' & k' & -> & _).
      eauto. }
    destruct (Hturn s0) as (s1 & H1), (Hturn s1) as (s2 & H2), (Hturn s2) as (s3 & H3).
    assert (Hexec : exec w [WorkerTurn; WorkerTurn; WorkerTurn] s0 = Some (s3, [])).
    { cbn [exec]. by rewrite H1, H2, H3. }
    exists s3. split.
    + by rewrite Hstop.
    + destruct (Hgen [WorkerTurn; WorkerTurn; WorkerTurn] s3 []) as (_ & Hleft & _);
        [ | done | apply Hleft; cbn; lia ].
      intros Hin. repeat (apply elem_of_cons in Hin as [ Hin | Hin ]; [ done | ]).
      by apply elem_of_nil in Hin.
  - intros acts s' outs Hns. rewrite Hstop. by apply Hgen.
Qed.

End LoopSteps.

(** The thread is past the loop test when a frame is submitted and the
    flag is cleared: it takes the frame, processes it and records the result
    before it leaves; the caller, whose flag is cleared, gets its own frame
    back without a detection. *)
Example stop_processing_with_a_frame_queued :
  let acts := [ ModelLoader.Start; ModelLoader.WorkerTurn;
                ModelLoader.CallBegin (Some 0%nat); ModelLoader.CallEnd;
                ModelLoader.Stop;
                ModelLoader.WorkerTurn; ModelLoader.WorkerTurn; ModelLoader.WorkerTurn;
                ModelLoader.CallBegin (Some 0%nat) ] in
  exists s,
    BackgroundLoop.exec Demo.world acts
      (BackgroundLoop.boot Demo.world "trained_model/best.pt" [Demo.frame_mug])
    = Some (s, [(Some 0%nat, None); (Some 0%nat, None)])
    /\ BackgroundLoop.point s = BackgroundLoop.Left
    /\ Queue.items (ModelLoader.detection_queue (BackgroundLoop.loader s)) = []
    /\ ModelLoader.last_result (BackgroundLoop.loader s)
       = Some (Some 1%nat, Some {| class_name := "Pen"; confidence := 40 # 100;
                                   class_id := Some 7 |}).
Proof. cbv zeta. eexists. split; [ vm_compute; reflexivity | ]. by repeat split. Qed.

(** ** Opening the camera *)

Section OpenCamera.
Import CameraOpen.

Variable device : Z -> PortBehaviour.

Lemma given_up_nil : given_up device [].
Proof. split; [ done | ]. by intros q ?%elem_of_nil. Qed.

Lemma given_up_app new1 new2 : given_up device new1 -> given_up device new2 -> given_up device (new1 ++ new2).
Proof.
  intros [P1 R1] [P2 R2]. split; [ by apply Forall_app | ].
  intros q [H | H]%elem_of_app.
  - destruct (R1 q H) as [Hu Hr]. split; [ done | ].
    intros Ho. apply elem_of_app. left. by apply Hr.
  - destruct (R2 q H) as [Hu Hr]. split; [ done | ].
    intros Ho. apply elem_of_app. right. by apply Hr.
Qed.

Lemma release_camera_spec self ev :
  exists new,
    release_camera (self, ev) = (mk (thread self) (port self) None, ev ++ new)
    /\ (forall e, e ∈ new -> exists p, e = Release p)
    /\ (forall p, camera self = Some p -> Release p ∈ new).
Proof.
  unfold release_camera. destruct self as [th po [p | ]]; cbn.
  - exists [Release p]. split; [ done | ]. split.
    + intros e ->%list_elem_of_singleton. eauto.
    + intros p' [= <-]. apply list_elem_of_here.
  - exists []. rewrite app_nil_r. split; [ done | ]. split; [ | done ].
    by intros e ?%elem_of_nil.
Qed.

(** A port that is not usable is given up: the thread object is as it was,
    and the capture, if it was opened, has been released. *)
Lemma try_port_unusable p self ev :
  usable device p = false ->
  exists c new,
    try_port device p (self, ev) = ((mk (thread self) (port self) c, ev ++ new), false)
    /\ given_up device new
    /\ VideoCapture p ∈ new.
Proof.
  intros Hu.
  assert (Hshape : forall rel,
             (forall e, e ∈ rel -> exists q, e = Release q) ->
             (opens device p -> Release p ∈ rel) ->
             given_up device (VideoCapture p :: rel) /\ VideoCapture p ∈ VideoCapture p :: rel).
  { intros rel Hrel Hopen. split; [ | apply list_elem_of_here ]. split.
    - constructor; [ exists p; by left | ].
      apply Forall_forall. intros e He. destruct (Hrel e He) as [q ->]. exists q. by right.
    - intros q [[= ->] | Hq]%elem_of_cons.
      + split; [ done | ]. intros Ho. apply list_elem_of_further. by apply Hopen.
      + destruct (Hrel _ Hq) as [? [=]]. }
  revert Hu. unfold usable, try_port.
  destruct (device p) as [e | | set_raises read] eqn:Hd.
  - intros _.
    destruct (release_camera_spec self (ev ++ [VideoCapture p])) as (rel & -> & Hrel & _).
    exists None, (VideoCapture p :: rel). rewrite <- app_assoc.
    split; [ done | ]. apply Hshape; [ done | ].
    intros (? & ? & Ho). congruence.
  - intros _. exists (Some p), [VideoCapture p]. split; [ done | ].
    apply Hshape; [ by intros e ?%elem_of_nil | ].
    intros (? & ? & Ho). congruence.
  - intros Hu.
    destruct (release_camera_spec (mk (thread self) (port self) (Some p))
                (ev ++ [VideoCapture p])) as (rel & Hrun & Hrel & Hin).
    cbn [thread port camera] in Hrun, Hin.
    assert (Hgive : exists c new,
               release_camera (mk (thread self) (port self) (Some p), ev ++ [VideoCapture p])
               = (mk (thread self) (port self) c, ev ++ new)
               /\ given_up device new /\ VideoCapture p ∈ new).
    { exists None, (VideoCapture p :: rel). rewrite Hrun, <- app_assoc.
      split; [ done | ]. apply Hshape; [ done | ]. intros _. by apply Hin. }
    destruct Hgive as (c & new & Hgive & Hq & Hcap).
    destruct set_raises; [ exists c, new; by rewrite Hgive | ].
    destruct (verify read 0 3) as [[ | ] | ]; [ done | | ];
      exists c, new; by rewrite Hgive.
Qed.

Lemma try_port_usable p self ev :
  usable device p = true ->
  try_port device p (self, ev)
  = ((mk (CameraThread.started (thread self)) p (Some p),
      ev ++ [VideoCapture p; StartThread]), true).
Proof.
  unfold usable, try_port.
  destruct (device p) as [e | | [ | ] read]; try done.
  destruct (verify read 0 3) as [[ | ] | ]; try done.
  intros _. by rewrite <- app_assoc.
Qed.

Lemma try_ports_spec : forall ports self ev,
  match find (usable device) ports with
  | Some p =>
      exists new,
        try_ports device ports (self, ev)
        = ((mk (CameraThread.started (thread self)) p (Some p),
            ev ++ new ++ [VideoCapture p; StartThread]), true)
        /\ given_up device new
  | None =>
      exists c new,
        try_ports device ports (self, ev)
        = ((mk (thread self) (port self) c, ev ++ new), false)
        /\ given_up device new
        /\ (forall q, q ∈ ports -> VideoCapture q ∈ new)
  end.
Proof.
  induction ports as [ | p ports IH ]; intros self ev; cbn [find try_ports].
  - exists (camera self), []. rewrite app_nil_r. destruct self.
    split; [ done | ]. split; [ apply given_up_nil | ]. by intros q ?%elem_of_nil.
  - destruct (usable device p) eqn:Hu.
    + rewrite (try_port_usable _ _ _ Hu). exists []. split; [ done | apply given_up_nil ].
    + destruct (try_port_unusable p self ev Hu) as (c & new & -> & Hgive & Hcap).
      specialize (IH (mk (thread self) (port self) c) (ev ++ new)).
      destruct (find (usable device) ports) as [p' | ].
      * destruct IH as (new' & -> & Hgive'). cbn [thread].
        exists (new ++ new'). rewrite <- !app_assoc.
        split; [ done | by apply given_up_app ].
      * destruct IH as (c' & new' & -> & Hgive' & Hall). cbn [thread port].
        exists c', (new ++ new'). rewrite <- !app_assoc.
        split; [ done | ]. split; [ by apply given_up_app | ].
        intros q [-> | Hq]%elem_of_cons; apply elem_of_app; [ by left | right; by apply Hall ].
Qed.

(** X8.  [start_camera] settles on the first port of [port, 1, 2, 3] that
    opens, takes the settings and gives a frame within three reads, and
    starts the thread on it with the failure count at zero.  When no port of
    the list does, it returns [False] with the thread not running, after
    emitting [camera_error("No camera found on ports 0-3")] as its last act.
    In both cases every capture opened on a port that was given up has been
    released. *)
Theorem start_camera_first_usable_port thread_running port0 self ev :
  exists rel,
    (forall e, e ∈ rel -> exists p, e = Release p \/ e = Wait 300)
    /\ match find (usable device) [port0; 1; 2; 3] with
       | Some p =>
           exists self' new,
             start_camera device thread_running port0 (self, ev)
             = ((self', ev ++ rel ++ Sleep (2 # 10) :: new ++ [VideoCapture p; StartThread]),
                true)
             /\ port self' = p
             /\ camera self' = Some p
             /\ CameraThread.is_running (thread self') = true
             /\ CameraThread.consecutive_failures (thread self') = 0
             /\ given_up device new
       | None =>
           exists self' new,
             start_camera device thread_running port0 (self, ev)
             = ((self', ev ++ rel ++ Sleep (2 # 10) :: new
                           ++ [EmitCameraError "No camera found on ports 0-3"]),
                false)
             /\ port self' = port self
             /\ CameraThread.is_running (thread self') = false
             /\ given_up device new
             /\ (forall q, q ∈ [port0; 1; 2; 3] -> VideoCapture q ∈ new)
       end.
Proof.
  unfold start_camera, stop_camera.
  destruct (release_camera_spec
              (mk (CameraThread.set_is_running false (thread self)) (port self) (camera self))
              ev) as (rel0 & -> & Hrel0 & _).
  cbn [thread port].
  set (rel := if thread_running then rel0 ++ [Wait 300] else rel0).
  assert (Hev : (if thread_running then (ev ++ rel0) ++ [Wait 300] else ev ++ rel0)
                = ev ++ rel).
  { subst rel. destruct thread_running; [ by rewrite <- app_assoc | done ]. }
  rewrite Hev. exists rel. split.
  { subst rel. destruct thread_running.
    - intros e [He | ->%list_elem_of_singleton]%elem_of_app; [ | exists 0; by right ].
      destruct (Hrel0 e He) as [p ->]. eauto.
    - intros e He. destruct (Hrel0 e He) as [p ->]. eauto. }
  pose proof (try_ports_spec [port0; 1; 2; 3]
                (mk (CameraThread.set_is_running false (thread self)) (port self) None)
                ((ev ++ rel) ++ [Sleep (2 # 10)])) as Hspec.
  destruct (find (usable device) [port0; 1; 2; 3]) as [p | ].
  - destruct Hspec as (new & -> & Hgive).
    exists (mk (CameraThread.started (CameraThread.set_is_running false (thread self)))
               p (Some p)), new.
    split; [ by rewrite <- !app_assoc | ].
    do 4 (split; [ reflexivity | ]). exact Hgive.
  - destruct Hspec as (c & new & -> & Hgive & Hall).
    exists (mk (CameraThread.set_is_running false (thread self)) (port self) c), new.
    split; [ by rewrite <- !app_assoc | ].
    do 2 (split; [ reflexivity | ]). by split.
Qed.

End OpenCamera.

(** No port opens: the error is emitted, although port 0 was never tried. *)
Lemma start_camera_first_usable_port_demo :
  let device := fun _ : Z => CameraOpen.NotOpened in
  let self := CameraOpen.mk (CameraThread.init 0) 0 None in
  exists self',
    CameraOpen.start_camera device false 7 (self, [])
    = ((self', [ CameraOpen.Sleep (2 # 10);
                 CameraOpen.VideoCapture 7; CameraOpen.VideoCapture 1;
                 CameraOpen.VideoCapture 2; CameraOpen.VideoCapture 3;
                 CameraOpen.EmitCameraError "No camera found on ports 0-3" ]), false)
    /\ CameraThread.is_running (CameraOpen.thread self') = false.
Proof.
  cbv zeta.
  destruct (start_camera_first_usable_port (fun _ : Z => CameraOpen.NotOpened) false 7
              (CameraOpen.mk (CameraThread.init 0) 0 None) [])
    as (rel & _ & self' & new & Hrun & _ & Hoff & _).
  exists self'. split; [ | exact Hoff ].
  assert (Hc : CameraOpen.start_camera (fun _ : Z => CameraOpen.NotOpened) false 7
                 (CameraOpen.mk (CameraThread.init 0) 0 None, [])
               = ((CameraOpen.mk (CameraThread.set_is_running false (CameraThread.init 0))
                                 0 (Some 3),
                   [ CameraOpen.Sleep (2 # 10);
                     CameraOpen.VideoCapture 7; CameraOpen.VideoCapture 1;
                     CameraOpen.VideoCapture 2; CameraOpen.VideoCapture 3;
                     CameraOpen.EmitCameraError "No camera found on ports 0-3" ]), false))
    by reflexivity.
  rewrite Hc in Hrun. injection Hrun as Hs _. rewrite Hc. by rewrite Hs.
Defined.

(** The second port opens but gives no frame; the third gives one at the
    third read. *)
Example start_camera_third_port :
  let device := fun p : Z =>
    if p =? 0 then CameraOpen.NotOpened
    else if p =? 1 then CameraOpen.Opened false (fun _ => CameraOpen.NoFrame)
    else CameraOpen.Opened false
           (fun i => if (i <? 2)%nat then CameraOpen.NoFrame
                     else CameraOpen.GotFrame Demo.frame0) in
  CameraOpen.start_camera device false 0
    (CameraOpen.mk (CameraThread.init 0) 0 None, [])
  = ((CameraOpen.mk (CameraThread.started (CameraThread.init 0)) 2 (Some 2),
      [ CameraOpen.Sleep (2 # 10);
        CameraOpen.VideoCapture 0;
        CameraOpen.VideoCapture 1; CameraOpen.Release 1;
        CameraOpen.VideoCapture 2; CameraOpen.StartThread ]), true).
Proof. reflexivity. Qed.

(** ** The camera loop, further *)

Section CameraLoop.
Import CameraThread.

(** One pass without a stop request keeps the flag and the limit; it ends
    the loop exactly when it takes the count past the limit. *)
Lemma iteration_count tk self :
  is_running self = true ->
  stop_requested tk = false ->
  0 <= max_failures self ->
  consecutive_failures self <= max_failures self ->
  match iteration tk self with
  | (self', ev, flow) =>
      is_running self' = true
      /\ max_failures self' = max_failures self
      /\ match flow with
         | Continue => consecutive_failures self' <= max_failures self
         | Break => consecutive_failures self' = max_failures self + 1
         | Exit => False
         end
  end.
Proof.
  intros Hrun Hstop Hmax Hle. unfold iteration. rewrite Hstop, Hrun. cbn [negb].
  destruct (Qgtb (frame_interval self) (now tk - last_frame_time self)); [ done | ].
  assert (Hf : forall ms,
             match failure ms self with
             | (self', ev, flow) =>
                 is_running self' = true
                 /\ max_failures self' = max_failures self
                 /\ match flow with
                    | Continue => consecutive_failures self' <= max_failures self
                    | Break => consecutive_failures self' = max_failures self + 1
                    | Exit => False
                    end
             end).
  { intros ms. unfold failure. cbn [consecutive_failures max_failures count_failure].
    destruct (Z.gtb_spec (consecutive_failures self + 1) (max_failures self));
      cbn [is_running max_failures consecutive_failures count_failure];
      (split; [ done | ]); (split; [ done | lia ]). }
  destruct (camera tk) as [ | | frame | e ]; try apply Hf.
  unfold success.
  destruct (Qgeb (now tk - last_fps_time self) (1 # 2)); cbn; (split; [ done | ]);
    (split; [ done | lia ]).
Qed.

(** X9.  While nobody asks it to stop, the loop ends for one reason only:
    the count of consecutive failures has just passed [max_failures].  As
    long as it goes on the count stays within the limit (a frame read sets
    it back to zero), and the loop never clears [is_running] itself. *)
Theorem run_ends_only_past_the_limit : forall ticks self,
  is_running self = true ->
  0 <= max_failures self ->
  consecutive_failures self <= max_failures self ->
  Forall (fun tk => stop_requested tk = false) ticks ->
  match run ticks self with
  | (self', ev, returned) =>
      is_running self' = true
      /\ if returned then consecutive_failures self' = max_failures self + 1
         else consecutive_failures self' <= max_failures self
  end.
Proof.
  induction ticks as [ | tk ticks IH ]; intros self Hrun Hmax Hle Hns; cbn [run].
  - by split.
  - apply Forall_cons in Hns as [Hstop Hns].
    pose proof (iteration_count tk self Hrun Hstop Hmax Hle) as Hit.
    destruct (iteration tk self) as [[self1 ev] flow].
    destruct Hit as (Hrun1 & Hmax1 & Hflow).
    destruct flow; [ | by split | done ].
    specialize (IH self1 Hrun1). rewrite Hmax1 in IH.
    specialize (IH Hmax Hflow Hns).
    by destruct (run ticks self1) as [[self2 ev2] returned].
Qed.

(** [int(x)] does not decrease on the non-negative floats. *)
Lemma int_of_float_mono (x y : Q) :
  (0 <= x)%Q -> (x <= y)%Q -> int_of_float x <= int_of_float y.
Proof.
  intros H0 Hxy. unfold int_of_float.
  assert (Hx : 0 <= Qnum x).
  { unfold Qle in H0. cbn in H0. lia. }
  assert (Hy : 0 <= Qnum y).
  { pose proof (Qle_trans _ _ _ H0 Hxy) as H. unfold Qle in H. cbn in H. lia. }
  rewrite !Z.quot_div_nonneg by lia.
  destruct x as [xn xd], y as [yn yd].
  apply (Qfloor_resp_le (xn # xd) (yn # yd) Hxy).
Qed.

(** X10.  A pass that comes sooner than [frame_interval] after the last
    frame does not touch the camera or the state: it sleeps, for at least one
    millisecond and (the clock not running backwards) for no longer than
    the frame interval, and the loop goes on. *)
Theorem early_pass_only_sleeps tk self :
  is_running self = true ->
  stop_requested tk = false ->
  (now tk - last_frame_time self < frame_interval self)%Q ->
  exists ms,
    iteration tk self = (self, [msleep ms], Continue)
    /\ 1 <= ms
    /\ ((last_frame_time self <= now tk)%Q ->
        ms <= Z.max 1 (int_of_float (frame_interval self * inject_Z 1000))).
Proof.
  intros Hrun Hstop Hearly. unfold iteration. rewrite Hstop, Hrun. cbn [negb].
  apply Qgtb_lt in Hearly. rewrite Hearly.
  eexists. split; [ reflexivity | ]. split; [ lia | ].
  intros Hclock. apply Z.max_le_compat_l. apply Qgtb_lt in Hearly.
  apply int_of_float_mono.
  - apply Qmult_le_0_compat; [ lra | done ].
  - apply Qmult_le_compat_r; [ lra | done ].
Qed.

Lemma frames_delivered_app ev1 ev2 :
  frames_delivered (ev1 ++ ev2) = frames_delivered ev1 ++ frames_delivered ev2.
Proof. apply omap_app. Qed.

(** One pass delivers the frame it read, or nothing. *)
Lemma iteration_frames tk self :
  frames_delivered (snd (fst (iteration tk self))) `sublist_of` frames_read [tk].
Proof.
  unfold iteration.
  destruct (negb (is_running _)); [ apply sublist_nil_l | ].
  destruct (Qgtb _ _); [ apply sublist_nil_l | ].
  assert (Hf : forall ms s, frames_delivered (snd (fst (failure ms s))) = []).
  { intros ms s. unfold failure.
    destruct (_ >? _); [ done | ]. by destruct (ms =? 0). }
  destruct (camera tk) as [ | | frame | e ] eqn:Hc; rewrite ?Hf;
    try apply sublist_nil_l.
  unfold success, frames_read.
  destruct (Qgeb _ _); cbn; rewrite Hc; reflexivity.
Qed.

(** X11.  The frames the loop delivers are frames the camera gave, in the
    order it gave them, each at most once: the loop may drop frames (a pass
    that is paced out or comes after the loop ended) but never repeats or
    reorders them. *)
Theorem run_delivers_frames_in_order : forall ticks self,
  frames_delivered (snd (fst (run ticks self))) `sublist_of` frames_read ticks.
Proof.
  induction ticks as [ | tk ticks IH ]; intros self; cbn [run].
  - apply sublist_nil_l.
  - pose proof (iteration_frames tk self) as Hit.
    change (tk :: ticks) with ([tk] ++ ticks).
    unfold frames_read at 1. rewrite omap_app. fold (frames_read [tk]) (frames_read ticks).
    destruct (iteration tk self) as [[self1 ev] flow]. cbn [fst snd] in Hit.
    destruct flow.
    + specialize (IH self1). destruct (run ticks self1) as [[self2 ev2] returned].
      cbn [fst snd] in *. rewrite frames_delivered_app. by apply sublist_app.
    + cbn [fst snd]. by apply sublist_inserts_r.
    + cbn [fst snd]. by apply sublist_inserts_r.
Qed.

End CameraLoop.

(** Two reads fail, a third gives a frame, two later reads fail: the loop
    is still running, its count at two. *)
Lemma run_ends_only_past_the_limit_demo :
  let self := CameraThread.started (CameraThread.init 0) in
  let bad := {| CameraThread.stop_requested := false; CameraThread.now := 1;
                CameraThread.camera := CameraThread.ReadFailed |} in
  let good := {| CameraThread.stop_requested := false; CameraThread.now := 2;
                 CameraThread.camera := CameraThread.ReadOk Demo.frame0 |} in
  let late := {| CameraThread.stop_requested := false; CameraThread.now := 3;
                 CameraThread.camera := CameraThread.ReadFailed |} in
  let ticks := [bad; bad; good; late; late] in
  (CameraThread.is_running self = true
   /\ 0 <= CameraThread.max_failures self
   /\ CameraThread.consecutive_failures self <= CameraThread.max_failures self
   /\ Forall (fun tk => CameraThread.stop_requested tk = false) ticks)
  /\ CameraThread.consecutive_failures (fst (fst (CameraThread.run ticks self))) = 2
  /\ match CameraThread.run ticks self with
     | (self', ev, returned) =>
         CameraThread.is_running self' = true
         /\ if returned
            then CameraThread.consecutive_failures self'
                 = CameraThread.max_failures self + 1
            else CameraThread.consecutive_failures self'
                 <= CameraThread.max_failures self
     end.
Proof.
  cbv zeta.
  assert (Hns : Forall (fun tk => CameraThread.stop_requested tk = false)
                  [ {| CameraThread.stop_requested := false; CameraThread.now := 1;
                       CameraThread.camera := CameraThread.ReadFailed |};
                    {| CameraThread.stop_requested := false; CameraThread.now := 1;
                       CameraThread.camera := CameraThread.ReadFailed |};
                    {| CameraThread.stop_requested := false; CameraThread.now := 2;
                       CameraThread.camera := CameraThread.ReadOk Demo.frame0 |};
                    {| CameraThread.stop_requested := false; CameraThread.now := 3;
                       CameraThread.camera := CameraThread.ReadFailed |};
                    {| CameraThread.stop_requested := false; CameraThread.now := 3;
                       CameraThread.camera := CameraThread.ReadFailed |} ])
    by (repeat constructor).
  split; [ | split ].
  - split; [ reflexivity | ]. split; [ discriminate | ]. split; [ discriminate | exact Hns ].
  - reflexivity.
  - apply run_ends_only_past_the_limit;
      [ reflexivity | discriminate | discriminate | exact Hns ].
Defined.

(** A pass 1/120 s after a frame, at 60 frames a second: it sleeps for the
    eight milliseconds that are left. *)
Lemma early_pass_only_sleeps_demo :
  let self := CameraThread.mk true 3 0 (CameraThread.frame_interval (CameraThread.init 0))
                              1 0 10 in
  let tk := {| CameraThread.stop_requested := false; CameraThread.now := 1 + (1 # 120);
               CameraThread.camera := CameraThread.ReadOk Demo.frame0 |} in
  (CameraThread.is_running self = true
   /\ CameraThread.stop_requested tk = false
   /\ (CameraThread.now tk - CameraThread.last_frame_time self
       < CameraThread.frame_interval self)%Q)
  /\ CameraThread.iteration tk self = (self, [msleep 8], CameraThread.Continue)
  /\ exists ms,
       CameraThread.iteration tk self = (self, [msleep ms], CameraThread.Continue)
       /\ 1 <= ms
       /\ ((CameraThread.last_frame_time self <= CameraThread.now tk)%Q ->
           ms <= Z.max 1 (int_of_float (CameraThread.frame_interval self * inject_Z 1000))).
Proof.
  cbv zeta.
  split; [ split; [ reflexivity | split; [ reflexivity | reflexivity ] ] | ].
  split; [ reflexivity | ].
  apply early_pass_only_sleeps; reflexivity.
Defined.

(** The camera gives three frames; the second comes too soon after the
    first and is dropped. *)
Example run_drops_paced_out_frame :
  let self := CameraThread.started (CameraThread.init 0) in
  let at_ (t : Q) (f : Image) :=
    {| CameraThread.stop_requested := false; CameraThread.now := t;
       CameraThread.camera := CameraThread.ReadOk f |} in
  let f1 := {| pixels := [1]; canvas := [] |} in
  let f2 := {| pixels := [2]; canvas := [] |} in
  let f3 := {| pixels := [3]; canvas := [] |} in
  frames_delivered (snd (fst (CameraThread.run
                                [at_ 1%Q f1; at_ (1 + (1 # 120))%Q f2; at_ 2%Q f3] self)))
  = [f1; f3].
Proof. reflexivity. Qed.

(** ** Image signatures *)

Section Signatures.
Import Imghdr Init.Byte.

Lemma startswith_app header sig :
  startswith header sig = true <-> exists rest, header = sig ++ rest.
Proof.
  revert header. induction sig as [ | s sig IH ]; intros header; cbn [startswith].
  - split; [ intros _; by exists header | done ].
  - destruct header as [ | b header ].
    + split; [ done | by intros (rest & ?) ].
    + rewrite andb_true_iff, IH. split.
      * intros (Hb%byte_dec_bl & rest & ->). exists rest. by rewrite Hb.
      * intros (rest & Heq). injection Heq as -> ->.
        split; [ by apply byte_dec_lb | by exists rest ].
Qed.

Lemma startswith_take n header sig :
  (length sig <= n)%nat -> startswith (take n header) sig = startswith header sig.
Proof.
  revert n header. induction sig as [ | s sig IH ]; intros n header Hn; [ done | ].
  cbn [length] in Hn. destruct n as [ | n ]; [ lia | ].
  destruct header as [ | b header ]; [ done | ].
  cbn [take startswith]. rewrite IH by lia. done.
Qed.

Lemma slice_take n (header : bytes) :
  (16 <= n)%nat -> slice 8 16 (take n header) = slice 8 16 header.
Proof.
  intros Hn. unfold slice. cbn [Nat.sub].
  rewrite !take_drop_commute, take_take. by rewrite Nat.min_l by lia.
Qed.

Lemma check_signatures_take n sigs header :
  (16 <= n)%nat ->
  Forall (fun entry => (length (fst entry) <= 8)%nat) sigs ->
  check_signatures sigs (take n header) = check_signatures sigs header.
Proof.
  intros Hn. induction 1 as [ | [sig typ] sigs Hsig _ IH ]; [ done | ].
  cbn [check_signatures fst] in *.
  rewrite startswith_take by lia. rewrite slice_take by done. by rewrite IH.
Qed.

Lemma _SIGNATURES_short :
  Forall (fun entry => (length (fst entry) <= 8)%nat) _SIGNATURES.
Proof. repeat constructor; cbn; lia. Qed.

(** [what] on header bytes: an empty header is unknown, the others are
    decided by the table. *)
Lemma what_header fs file h :
  what fs file (Some h)
  = match h with
    | [] => None
    | _ => check_signatures _SIGNATURES h
    end.
Proof.
  unfold what. destruct h as [ | b h ]; [ done | ].
  change (take 32 (b :: h)) with (b :: take 31 h).
  change (b :: take 31 h) with (take 32 (b :: h)).
  apply (check_signatures_take 32); [ lia | apply _SIGNATURES_short ].
Qed.

Lemma what_Bytes fs h : what fs (Bytes h) None = what fs NoFile (Some h).
Proof. reflexivity. Qed.

(** What the loop returns comes from an entry of the table that matches. *)
Lemma check_signatures_sound sigs header typ :
  check_signatures sigs header = Some typ ->
  exists sig, (sig, typ) ∈ sigs /\ startswith header sig = true
              /\ (typ = "webp" -> contains WEBP (slice 8 16 header) = true).
Proof.
  induction sigs as [ | [sig typ'] sigs IH ]; [ done | ]. cbn [check_signatures].
  assert (Hrest : check_signatures sigs header = Some typ ->
                  exists sig0, (sig0, typ) ∈ (sig, typ') :: sigs
                               /\ startswith header sig0 = true
                               /\ (typ = "webp" -> contains WEBP (slice 8 16 header) = true)).
  { intros (sig0 & Hin & Hs & Hw)%IH. exists sig0.
    split; [ by apply list_elem_of_further | done ]. }
  destruct (startswith header sig) eqn:Hs; [ | done ].
  destruct (String.eqb typ' "webp") eqn:Hwebp.
  - destruct (contains WEBP (slice 8 16 header)) eqn:Hc; [ | done ].
    intros [= <-]. apply String.eqb_eq in Hwebp as ->.
    exists sig. split; [ apply list_elem_of_here | done ].
  - intros [= <-]. apply String.eqb_neq in Hwebp.
    exists sig. split; [ apply list_elem_of_here | done ].
Qed.

(** The table, test by test. *)
Lemma check_signatures_table header :
  check_signatures _SIGNATURES header
  = if startswith header [xff; xd8; xff] then Some "jpeg"
    else if startswith header [x89; x50; x4e; x47; x0d; x0a; x1a; x0a] then Some "png"
    else if startswith header [x47; x49; x46; x38; x37; x61] then Some "gif"
    else if startswith header [x47; x49; x46; x38; x39; x61] then Some "gif"
    else if startswith header [x42; x4d] then Some "bmp"
    else if startswith header [x52; x49; x46; x46]
              && contains WEBP (slice 8 16 header) then Some "webp"
    else if startswith header [x49; x49; x2a; x00] then Some "tiff"
    else if startswith header [x4d; x4d; x00; x2a] then Some "tiff"
    else None.
Proof.
  unfold _SIGNATURES. cbn [check_signatures String.eqb Ascii.eqb Bool.eqb].
  repeat match goal with
         | |- context [startswith header ?sig] => destruct (startswith header sig)
         end; cbn [andb]; try done;
    by destruct (contains WEBP (slice 8 16 header)).
Qed.

(** X12.  [what] looks at the first sixteen bytes of a header only,
    although it reads thirty-two. *)
Theorem what_reads_sixteen_bytes fs file h :
  what fs file (Some h) = what fs file (Some (take 16 h))
  /\ what fs (Bytes h) None = what fs (Bytes (take 16 h)) None.
Proof.
  assert (H : what fs file (Some h) = what fs file (Some (take 16 h))).
  { rewrite !what_header. destruct h as [ | b h ]; [ done | ].
    change (take 16 (b :: h)) with (b :: take 15 h) at 1.
    change (b :: take 15 h) with (take 16 (b :: h)).
    symmetry. apply check_signatures_take; [ lia | apply _SIGNATURES_short ]. }
  split; [ exact H | ].
  rewrite !what_Bytes, !what_header. rewrite !what_header in H. exact H.
Qed.

(** X13.  The answer of [what] does not depend on the order of the
    table: a header is of a type exactly when it starts with a signature of
    that type and, for WebP, has [WEBP] within its bytes 8 to 15.  So a RIFF
    file that is not WebP is of no type. *)
Theorem what_decided_by_signature fs file h typ :
  what fs file (Some h) = Some typ
  <-> exists sig, (sig, typ) ∈ _SIGNATURES /\ startswith h sig = true
                  /\ (typ = "webp" -> contains WEBP (slice 8 16 h) = true).
Proof.
  rewrite what_header. split.
  - destruct h as [ | b h ]; [ done | ]. apply check_signatures_sound.
  - intros (sig & Hin & Hs & Hw).
    rewrite check_signatures_table.
    remember (contains WEBP (slice 8 16 h)) as c eqn:Hc. clear Hc.
    apply startswith_app in Hs as [rest ->].
    unfold _SIGNATURES in Hin.
    repeat (apply elem_of_cons in Hin as [Hin | Hin]);
      try (by apply elem_of_nil in Hin);
      injection Hin as -> ->; cbn; try done.
    by rewrite Hw.
Qed.

End Signatures.

(** A WAV file is a RIFF file; an AVI file with [WEBP] further on is none
    either.  A WebP header is one whatever follows. *)
Example what_riff :
  let riff := [x52; x49; x46; x46] in
  let size := [x24; x08; x00; x00] in
  Imghdr.what (fun _ => inl (Py.Exception "OSError")) Imghdr.NoFile
              (Some (riff ++ size ++ [x57; x41; x56; x45; x66; x6d; x74; x20])) = None
  /\ Imghdr.what (fun _ => inl (Py.Exception "OSError")) Imghdr.NoFile
                 (Some (riff ++ size ++ [x41; x56; x49; x20; x4c; x49; x53; x54]
                             ++ Imghdr.WEBP)) = None
  /\ Imghdr.what (fun _ => inl (Py.Exception "OSError")) Imghdr.NoFile
                 (Some (riff ++ size ++ Imghdr.WEBP ++ [x56; x50; x38; x20]))
     = Some "webp".
Proof. cbv zeta. by split; [ | split ]. Qed.

(** ** The watcher: waiting for a file to be stable *)

Section Stability.
Import Watcher.

Lemma paced_weaken interval probes t t' :
  (t' <= t)%Q -> paced t interval probes -> paced t' interval probes.
Proof.
  destruct probes as [ | p rest ]; [ done | ]. cbn [paced].
  intros Ht [Hp Hrest]. split; [ lra | done ].
Qed.

(** After [j] sleeps, [consecutive] is at most [j]: when the timeout is
    over before [stable_checks] sleeps, the loop cannot count that far. *)
Lemma wait_loop_too_short start timeout interval stable_checks :
  (0 <= interval)%Q ->
  (timeout <= inject_Z (stable_checks - 1) * interval)%Q ->
  forall turns j last_size consecutive,
    0 <= j <= stable_checks - 1 ->
    consecutive <= j ->
    paced (start + inject_Z j * interval) interval turns ->
    snd (wait_loop start timeout interval stable_checks last_size consecutive turns)
      <> Some true
    /\ (stable_checks - j <= Z.of_nat (length turns) ->
        snd (wait_loop start timeout interval stable_checks last_size consecutive turns)
        = Some false).
Proof.
  intros Hint Hshort.
  induction turns as [ | p rest IH ]; intros j last_size consecutive Hj Hc Hpaced.
  - cbn. split; [ done | lia ].
  - cbn [wait_loop paced] in *. destruct Hpaced as [Hclock Hrest].
    destruct (Qgtb timeout (clock p - start)) eqn:Htest; [ | by split ].
    apply Qgtb_lt in Htest.
    assert (Hjs : j < stable_checks - 1).
    { destruct (Z_lt_le_dec j (stable_checks - 1)) as [ | Hge ]; [ done | exfalso ].
      assert (inject_Z (stable_checks - 1) * interval <= inject_Z j * interval)%Q.
      { apply Qmult_le_compat_r; [ by rewrite <- Zle_Qle | done ]. }
      lra. }
    assert (Hnext : forall last consecutive',
               consecutive' <= j + 1 ->
               snd (wait_loop start timeout interval stable_checks last consecutive' rest)
                 <> Some true
               /\ (stable_checks - (j + 1) <= Z.of_nat (length rest) ->
                   snd (wait_loop start timeout interval stable_checks last
                                  consecutive' rest) = Some false)).
    { intros last consecutive' Hc'. apply IH; [ lia | done | ].
      apply (paced_weaken _ _ (clock p + interval)); [ | done ].
      rewrite inject_Z_plus. change (inject_Z 1) with 1%Q. lra. }
    destruct (size p) as [ sz | ]; [ | by split ].
    destruct (sz =? last_size).
    + destruct (Z.geb_spec (consecutive + 1) stable_checks) as [ Hge | _ ]; [ lia | ].
      destruct (Hnext sz (consecutive + 1)) as [Hne Hfalse]; [ lia | ].
      destruct (wait_loop start timeout interval stable_checks sz (consecutive + 1) rest)
        as [ev r].
      cbn [snd length] in *. split; [ done | intros; apply Hfalse; lia ].
    + destruct (Hnext sz 0) as [Hne Hfalse]; [ lia | ].
      destruct (wait_loop start timeout interval stable_checks sz 0 rest) as [ev r].
      cbn [snd length] in *. split; [ done | intros; apply Hfalse; lia ].
Qed.

Lemma wait_for_stable_file_too_short start first timeout interval stable_checks probes :
  (0 <= interval)%Q ->
  1 <= stable_checks ->
  (timeout <= inject_Z (stable_checks - 1) * interval)%Q ->
  paced start interval probes ->
  snd (wait_for_stable_file start first timeout interval stable_checks probes)
    <> Some true
  /\ (stable_checks <= Z.of_nat (length probes) ->
      snd (wait_for_stable_file start first timeout interval stable_checks probes)
      = Some false).
Proof.
  intros Hint Hsc Hshort Hpaced. unfold wait_for_stable_file.
  destruct first as [ last_size | ]; [ | by split ].
  destruct (wait_loop_too_short start timeout interval stable_checks Hint Hshort
              probes 0 last_size 0) as [Hne Hfalse]; [ lia | lia | | ].
  - apply (paced_weaken _ _ start); [ | done ]. change (inject_Z 0) with 0%Q. lra.
  - split; [ done | ]. intros Hlen. apply Hfalse. lia.
Qed.

(** X14.  [wait_for_stable_file] needs [stable_checks] sleeps of
    [interval] seconds to see a file stable.  When [timeout] is not more
    than [(stable_checks - 1) * interval], on a clock that advances by at
    least [interval] over each sleep, it never returns [True], whatever the
    file does, and it returns [False] within [stable_checks] turns.  The
    defaults of the command line (timeout 1.0, interval 0.5, three checks)
    are such. *)
Theorem wait_for_stable_file_never_true start first timeout interval stable_checks probes :
  (0 <= interval)%Q ->
  1 <= stable_checks ->
  (timeout <= inject_Z (stable_checks - 1) * interval)%Q ->
  paced start interval probes ->
  snd (wait_for_stable_file start first timeout interval stable_checks probes)
    <> Some true
  /\ (stable_checks <= Z.of_nat (length probes) ->
      snd (wait_for_stable_file start first timeout interval stable_checks probes)
      = Some false).
Proof. apply wait_for_stable_file_too_short. Qed.

End Stability.

(** The defaults of the command line, on a file that never changes. *)
Lemma wait_for_stable_file_never_true_demo :
  let probes := [ {| Watcher.clock := 100; Watcher.size := Some 4096 |};
                  {| Watcher.clock := 100 + (1 # 2); Watcher.size := Some 4096 |};
                  {| Watcher.clock := 101; Watcher.size := Some 4096 |} ] in
  ((0 <= 1 # 2)%Q
   /\ 1 <= 3
   /\ (1 <= inject_Z (3 - 1) * (1 # 2))%Q
   /\ paced 100 (1 # 2) probes)
  /\ Watcher.wait_for_stable_file 100 (Some 4096) 1 (1 # 2) 3 probes
     = ([Watcher.time_sleep (1 # 2); Watcher.time_sleep (1 # 2)], Some false)
  /\ snd (Watcher.wait_for_stable_file 100 (Some 4096) 1 (1 # 2) 3 probes) <> Some true.
Proof.
  cbv zeta.
  assert (Hpaced : paced 100 (1 # 2)
            [ {| Watcher.clock := 100; Watcher.size := Some 4096 |};
              {| Watcher.clock := 100 + (1 # 2); Watcher.size := Some 4096 |};
              {| Watcher.clock := 101; Watcher.size := Some 4096 |} ]).
  { cbn. repeat split; by vm_compute. }
  split; [ | split; [ reflexivity | ] ].
  - split; [ by vm_compute | ]. split; [ lia | ]. split; [ by vm_compute | exact Hpaced ].
  - apply wait_for_stable_file_never_true;
      [ by vm_compute | lia | by vm_compute | exact Hpaced ].
Defined.

(** With a timeout of ten seconds the same file is found stable at the
    third check. *)
Example wait_for_stable_file_stable :
  Watcher.wait_for_stable_file 100 (Some 4096) 10 (1 # 2) 3
    [ {| Watcher.clock := 100; Watcher.size := Some 4096 |};
      {| Watcher.clock := 100 + (1 # 2); Watcher.size := Some 4096 |};
      {| Watcher.clock := 101; Watcher.size := Some 4096 |} ]
  = ([Watcher.time_sleep (1 # 2); Watcher.time_sleep (1 # 2); Watcher.time_sleep (1 # 2)],
     Some true).
Proof. reflexivity. Qed.

(** ** The watcher: the loop *)

Section WatchLoop.
Import Watcher.

Variable os : Os.
Variable directory : string.
Variable poll_interval stability_timeout : Q.
Variable stable_checks : Z.
Variable dry_run : bool.

Lemma rename_sources_app ev1 ev2 :
  rename_sources (ev1 ++ ev2) = rename_sources ev1 ++ rename_sources ev2.
Proof. apply omap_app. Qed.

(** Waiting only sleeps. *)
Lemma wait_loop_sleeps start timeout interval checks : forall turns last_size consecutive,
  rename_sources (fst (wait_loop start timeout interval checks last_size consecutive turns))
  = [].
Proof.
  induction turns as [ | p rest IH ]; intros last_size consecutive; [ done | ].
  cbn [wait_loop]. destruct (Qgtb _ _); [ | done ].
  destruct (size p) as [ sz | ]; [ | done ].
  destruct (sz =? last_size).
  - destruct (_ >=? _); [ done | ].
    specialize (IH sz (consecutive + 1)). by destruct (wait_loop _ _ _ _ _ _ rest).
  - specialize (IH sz 0). by destruct (wait_loop _ _ _ _ _ _ rest).
Qed.

Lemma wait_for_stable_file_sleeps start first timeout interval checks turns :
  rename_sources (fst (wait_for_stable_file start first timeout interval checks turns))
  = [].
Proof.
  unfold wait_for_stable_file. destruct first; [ apply wait_loop_sleeps | done ].
Qed.

(** What [rename_file_safely] does: at most one call of [os.rename], on
    the path it was given. *)
Lemma rename_file_safely_events ev i src_path dest_dir :
  match rename_file_safely os ev i src_path dest_dir dry_run with
  | (_, ev', r) =>
      rename_sources ev' = rename_sources ev
      \/ (rename_sources ev' = rename_sources ev ++ [src_path]
          /\ exists new_name, r = inr new_name)
  end.
Proof.
  unfold rename_file_safely.
  destruct (generate_random_name _ _ _ _ _) as [i' [ e | new_name ]]; [ by left | ].
  destruct dry_run; [ by left | ].
  destruct (rename os ev src_path _); right;
    rewrite rename_sources_app; (split; [ done | by eexists ]).
Qed.

(** One entry: the names seen are kept; a file is handed to [os.rename] only
    if it is new and not hidden, and then it is marked as seen. *)
Lemma handle_entry_step entry self :
  match handle_entry os directory poll_interval stability_timeout stable_checks
                     dry_run entry self with
  | (self', ending) =>
      seen self ⊆ seen self'
      /\ (rename_sources (trace self') = rename_sources (trace self)
          \/ (rename_sources (trace self')
              = rename_sources (trace self) ++ [join os directory (name entry)]
              /\ (name entry ∉ seen self)
              /\ hidden (name entry) = false
              /\ name entry ∈ seen self'))
  end.
Proof.
  unfold handle_entry.
  destruct (negb (is_file entry)); [ split; [ done | by left ] | ].
  destruct (decide (name entry ∈ seen self)) as [ Hin | Hnew ];
    [ split; [ done | by left ] | ].
  destruct (hidden (name entry)) eqn:Hhid.
  { split; [ apply union_subseteq_r | by left ]. }
  pose proof (wait_for_stable_file_sleeps (start entry) (first_size entry) stability_timeout
                (Qmin (1 # 2) poll_interval) stable_checks (probes entry)) as Hsl.
  destruct (wait_for_stable_file _ _ _ _ _ _) as [slept stable]. cbn [fst] in Hsl.
  assert (Hsame : rename_sources (trace self ++ slept) = rename_sources (trace self)).
  { by rewrite rename_sources_app, Hsl, app_nil_r. }
  destruct stable as [ [ | ] | ]; cbn [seen trace drawn];
    [ | split; [ done | by left ] | split; [ done | by left ] ].
  destruct (negb (is_image_file _ _ _)).
  { split; [ apply union_subseteq_r | by left ]. }
  pose proof (rename_file_safely_events (trace self ++ slept) (drawn self)
                (join os directory (name entry)) directory) as Hev.
  destruct (rename_file_safely _ _ _ _ _ _) as [[i ev] [ e | new_name ]].
  - cbn [seen trace]. split; [ done | ]. left.
    destruct Hev as [ Hev | (_ & ? & [=]) ]. by rewrite Hev.
  - assert (Hsrc : rename_sources ev = rename_sources (trace self)
                   \/ rename_sources ev
                      = rename_sources (trace self) ++ [join os directory (name entry)]).
    { destruct Hev as [ Hev | (Hev & _) ]; rewrite Hev, Hsame; [ by left | by right ]. }
    assert (Hgoal : forall self',
               trace self' = ev ->
               {[ name entry ]} ∪ seen self ⊆ seen self' ->
               seen self ⊆ seen self'
               /\ (rename_sources (trace self') = rename_sources (trace self)
                   \/ (rename_sources (trace self')
                       = rename_sources (trace self) ++ [join os directory (name entry)]
                       /\ (name entry ∉ seen self)
                       /\ hidden (name entry) = false
                       /\ name entry ∈ seen self'))).
    { intros self' Htr Hsub. rewrite Htr.
      apply union_subseteq in Hsub as [Hname Hsub]. split; [ done | ].
      destruct Hsrc as [ Hs | Hs ]; rewrite Hs; [ by left | right ].
      split; [ done | ]. split; [ done | ]. split; [ done | ].
      by apply singleton_subseteq_l. }
    rewrite Hhid in Hgoal.
    destruct new_name as [ new_name | ]; [ destruct (String.eqb new_name "") | ];
      apply Hgoal; cbn [trace seen add_seen]; first [ done | apply union_subseteq_r ].
Qed.

Hypothesis join_inj : forall a b, join os directory a = join os directory b -> a = b.

Lemma handle_entry_watching seeded entry self :
  watching os directory seeded self ->
  watching os directory seeded (fst (handle_entry os directory poll_interval stability_timeout
                                     stable_checks dry_run entry self)).
Proof.
  intros (Hseed & Hnodup & Hsrc).
  pose proof (handle_entry_step entry self) as Hstep.
  destruct (handle_entry _ _ _ _ _ _ _ _) as [self' ending]. cbn [fst].
  destruct Hstep as (Hsub & [ Heq | (Heq & Hnew & Hhid & Hin) ]); unfold watching; rewrite Heq.
  - split; [ set_solver | ]. split; [ done | ].
    intros src (n & -> & ? & ? & ?)%Hsrc. exists n. set_solver.
  - split; [ set_solver | ]. split.
    + apply NoDup_app. split; [ done | ]. split; [ | apply NoDup_singleton ].
      intros src (n & -> & _ & _ & Hn)%Hsrc Heq'%list_elem_of_singleton.
      apply join_inj in Heq' as ->. done.
    + intros src [ (n & -> & ? & ? & ?)%Hsrc | ->%list_elem_of_singleton ]%elem_of_app.
      * exists n. set_solver.
      * exists (name entry). set_solver.
Qed.

Lemma scan_watching seeded : forall entries self,
  watching os directory seeded self ->
  watching os directory seeded (fst (scan os directory poll_interval stability_timeout
                             stable_checks dry_run entries self)).
Proof.
  induction entries as [ | entry rest IH ]; intros self Hw; [ done | ]. cbn [scan].
  pose proof (handle_entry_watching seeded entry self Hw) as Hw1.
  destruct (handle_entry _ _ _ _ _ _ _ _) as [self1 [ | e | ]]; cbn [fst] in *;
    [ by apply IH | done | done ].
Qed.

Lemma polls_watching seeded : forall scans self,
  watching os directory seeded self ->
  watching os directory seeded (fst (polls os directory poll_interval stability_timeout
                              stable_checks dry_run scans self)).
Proof.
  induction scans as [ | entries rest IH ]; intros self Hw; [ done | ]. cbn [polls].
  pose proof (scan_watching seeded entries self Hw) as Hw1.
  destruct (scan _ _ _ _ _ _ _ _) as [self1 [ | e | ]]; cbn [fst] in *;
    [ | done | done ].
  apply IH. destruct Hw1 as (Hseed & Hnodup & Hsrc). unfold watching. cbn [seen trace].
  rewrite rename_sources_app. cbn [rename_sources omap]. rewrite app_nil_r. done.
Qed.

(** X15.  The watcher hands a file to [os.rename] at most once, and only a
    file that was not in the directory when the watcher started and whose
    name does not start with [.] or [~]; whether the rename succeeded or
    not, the file is marked as seen. *)
Theorem watcher_renames_new_files_once existing scans :
  match watch_directory os directory poll_interval stability_timeout stable_checks
                        dry_run existing scans with
  | (self, ending) =>
      NoDup (rename_sources (trace self))
      /\ forall src, src ∈ rename_sources (trace self) ->
           exists n, src = join os directory n
                     /\ (n ∉ seed existing) /\ hidden n = false /\ n ∈ seen self
  end.
Proof.
  unfold watch_directory. destruct (negb (isdir os directory)).
  { split; [ apply NoDup_nil_2 | by intros src ?%elem_of_nil ]. }
  pose proof (polls_watching (seed existing) scans (mk (seed existing) [] 0)) as Hw.
  destruct (polls _ _ _ _ _ _ _ _) as [self ending]. cbn [fst] in Hw.
  apply Hw. split; [ done | ]. split; [ apply NoDup_nil_2 | by intros src ?%elem_of_nil ].
Qed.

End WatchLoop.

Section WatchDefaults.
Import Watcher.

Variable os : Os.
Variable directory : string.
Variable poll_interval stability_timeout : Q.
Variable stable_checks : Z.
Variable dry_run : bool.

Hypothesis poll_interval_nonneg : (0 <= poll_interval)%Q.
Hypothesis stable_checks_pos : 1 <= stable_checks.
Hypothesis too_short :
  (stability_timeout <= inject_Z (stable_checks - 1) * Qmin (1 # 2) poll_interval)%Q.




End WatchDefaults.


Lemma posix_join_inj directory a b :
  Demo.posix_join directory a = Demo.posix_join directory b -> a = b.
Proof.
  unfold Demo.posix_join. intros H.
  apply String.app_inj in H. by apply String.app_inj in H.
Qed.

(** An old image, a new one, a hidden file and a text, polled twice with a
    timeout of ten seconds: the new image alone is renamed, once. *)
Lemma watcher_renames_new_files_once_demo :
  let old := WatchDemo.steady "old.png" 100 (1 # 2) in
  let new := WatchDemo.steady "new.png" 100 (1 # 2) in
  let hid := WatchDemo.steady ".tmp.png" 100 (1 # 2) in
  let txt := WatchDemo.steady "notes.txt" 100 (1 # 2) in
  let run := Watcher.watch_directory WatchDemo.os "in" 1 10 3 false
               [old] [[old; new; hid; txt]; [old; new; hid; txt]] in
  (forall a b, Demo.posix_join "in" a = Demo.posix_join "in" b -> a = b)
  /\ rename_sources (Watcher.trace (fst run)) = ["in/new.png"]
  /\ match run with
     | (self, ending) =>
         NoDup (rename_sources (Watcher.trace self))
         /\ forall src, src ∈ rename_sources (Watcher.trace self) ->
              exists n, src = Demo.posix_join "in" n
                        /\ (n ∉ Watcher.seed [old]) /\ Watcher.hidden n = false
                        /\ n ∈ Watcher.seen self
     end.
Proof.
  cbv zeta. split; [ apply posix_join_inj | ]. split; [ by vm_compute | ].
  apply (watcher_renames_new_files_once WatchDemo.os "in" 1 10 3 false).
  apply posix_join_inj.
Defined.


(** What the watcher does in the first of these runs. *)
Example watch_directory_run :
  let new := WatchDemo.steady "new.png" 100 (1 # 2) in
  let txt := WatchDemo.steady "notes.txt" 100 (1 # 2) in
  let run := Watcher.watch_directory WatchDemo.os "in" 1 10 3 false [] [[new; txt]; [new]] in
  Watcher.trace (fst run)
  = [ Watcher.time_sleep (1 # 2); Watcher.time_sleep (1 # 2); Watcher.time_sleep (1 # 2);
      Watcher.os_rename "in/new.png" "in/id0.png";
      Watcher.time_sleep (1 # 2); Watcher.time_sleep (1 # 2); Watcher.time_sleep (1 # 2);
      Watcher.time_sleep 1; Watcher.time_sleep 1 ]
  /\ Watcher.seen (fst run) = {[ "new.png"; "id0.png"; "notes.txt" ]}
  /\ snd run = Watcher.Goes_on.
Proof. cbv zeta. split; [ by vm_compute | ]. split; [ | by vm_compute ]. by vm_compute. Qed.

(** ** The extension of a renamed file *)

Section Extension.
Import Watcher.

(** [what] answers with one of six types. *)
Lemma what_kinds fs file h kind :
  Imghdr.what fs file h = Some kind ->
  kind ∈ ["jpeg"; "png"; "gif"; "bmp"; "webp"; "tiff"].
Proof.
  unfold Imghdr.what.
  assert (Hsound : forall header,
             Imghdr.check_signatures Imghdr._SIGNATURES header = Some kind ->
             kind ∈ ["jpeg"; "png"; "gif"; "bmp"; "webp"; "tiff"]).
  { intros header (sig & Hin & _)%check_signatures_sound.
    unfold Imghdr._SIGNATURES in Hin.
    repeat (apply elem_of_cons in Hin as [Hin | Hin]);
      try (by apply elem_of_nil in Hin);
      injection Hin as -> ->; repeat first [ apply list_elem_of_here | apply list_elem_of_further ]. }
  destruct h as [ h | ]; [ | destruct file as [ path | b | ] ]; try done;
    match goal with
    | |- match ?l with _ => _ end = _ -> _ => destruct l eqn:Hl; [ done | rewrite <- Hl; apply Hsound ]
    end.
Qed.

(** X17.  A file that passes [is_image_file] is given one of six
    extensions by [infer_extension], decided by its first bytes: neither the
    default [f'.{kind}'] of the lookup nor the extension the file had on
    disk is used for it. *)
Theorem image_files_get_known_extension os ev path :
  is_image_file os ev path = true ->
  infer_extension os ev path ∈ [".jpg"; ".png"; ".gif"; ".bmp"; ".webp"; ".tif"].
Proof.
  unfold is_image_file, infer_extension.
  destruct (Imghdr.what (read_file os ev) (Imghdr.Str path) None) as [ kind | ] eqn:Hwhat;
    [ intros _ | done ].
  apply what_kinds in Hwhat.
  repeat (apply elem_of_cons in Hwhat as [ -> | Hwhat ]);
    try (by apply elem_of_nil in Hwhat);
    vm_compute; repeat first [ apply list_elem_of_here | apply list_elem_of_further ].
Qed.

End Extension.

(** A PNG image stored as [photo.jpeg]. *)
Lemma image_files_get_known_extension_demo :
  Watcher.is_image_file WatchDemo.os [] "in/photo.jpeg" = true
  /\ Watcher.infer_extension WatchDemo.os [] "in/photo.jpeg" = ".png"
  /\ Watcher.infer_extension WatchDemo.os [] "in/photo.jpeg"
     ∈ [".jpg"; ".png"; ".gif"; ".bmp"; ".webp"; ".tif"].
Proof.
  split; [ reflexivity | ]. split; [ reflexivity | ].
  by apply image_files_get_known_extension.
Defined.

(** ** The addresses of the scraper *)

Section Addresses.
Import Scraper.

Lemma first_occurrences_elem_of x : forall l, x ∈ first_occurrences l <-> x ∈ l.
Proof.
  induction l as [ | y l IH ]; [ done | ]. cbn [first_occurrences].
  rewrite !elem_of_cons, list_elem_of_filter, IH. split.
  - intros [ -> | [_ Hx] ]; [ by left | by right ].
  - intros [ -> | Hx ]; [ by left | ].
    destruct (decide (x = y)) as [ -> | Hne ]; [ by left | right; by split ].
Qed.

Lemma first_occurrences_NoDup : forall l, NoDup (first_occurrences l).
Proof.
  induction l as [ | y l IH ]; [ apply NoDup_nil_2 | ]. cbn [first_occurrences].
  apply NoDup_cons. split; [ | by apply NoDup_filter ].
  by intros [? _]%list_elem_of_filter.
Qed.

Lemma first_occurrences_sublist : forall l, first_occurrences l `sublist_of` l.
Proof.
  induction l as [ | y l IH ]; [ done | ]. cbn [first_occurrences].
  apply sublist_skip. etransitivity; [ apply sublist_filter | done ].
Qed.

(** The loop, from any point it can reach. *)
Lemma dedupe_spec max_images : forall urls seen out,
  (forall x, x ∈ seen <-> x ∈ out) ->
  Z.of_nat (length out) < Z.max 1 max_images ->
  dedupe max_images urls seen out
  = take (Z.to_nat (Z.max 1 max_images))
         (out ++ filter (fun y => y ∉ out) (first_occurrences urls)).
Proof.
  induction urls as [ | u rest IH ]; intros seen out Hseen Hlen.
  - cbn. rewrite app_nil_r, take_ge; [ done | lia ].
  - cbn [dedupe first_occurrences]. destruct (decide (u ∈ seen)) as [ Hin | Hnew ].
    + apply Hseen in Hin.
      destruct (Z.geb_spec (Z.of_nat (length out)) max_images) as [ Hge | _ ].
      { destruct out; [ by apply elem_of_nil in Hin | cbn [length] in *; lia ]. }
      rewrite IH by done. rewrite filter_cons_False by (intros Hn; by apply Hn).
      rewrite list_filter_filter_l; [ done | ]. by intros y Hy ->.
    + assert (Hout : u ∉ out) by (by rewrite <- Hseen).
      rewrite filter_cons_True by done.
      rewrite list_filter_filter.
      destruct (Z.geb_spec (Z.of_nat (length (out ++ [u]))) max_images) as [ Hge | Hlt ].
      * rewrite length_app in Hge. cbn [length] in Hge.
        rewrite (cons_middle u out (filter _ _)), (assoc_L (++)).
        rewrite take_app_length'; [ done | ].
        rewrite length_app. cbn [length]. lia.
      * rewrite IH.
        -- rewrite (cons_middle u out (filter _ _)), (assoc_L (++)). do 2 f_equal.
           apply list_filter_iff. intros y.
           rewrite elem_of_app, list_elem_of_singleton. split.
           ++ intros Hy. split; [ intros Hy'; apply Hy; by left | ].
              intros ->. apply Hy. by right.
           ++ intros [Hy Hne] [ Hy' | -> ]; done.
        -- intros x. rewrite elem_of_union, elem_of_singleton, elem_of_app,
             list_elem_of_singleton, Hseen. split; intros [ ? | ? ]; auto.
        -- rewrite length_app in *. cbn [length] in *. lia.
Qed.

(** X18.  [gather_image_urls_requests] returns the addresses found in the
    page at their first occurrence, in order and without repetition, cut
    after [max_images] of them; but after one when [max_images] is zero or
    less, so that a limit of zero still gives an address. *)
Theorem gather_keeps_first_occurrences urls max_images :
  gather_image_urls_requests (inr urls) max_images
  = inr (take (Z.to_nat (Z.max 1 max_images)) (first_occurrences urls))
  /\ NoDup (take (Z.to_nat (Z.max 1 max_images)) (first_occurrences urls))
  /\ take (Z.to_nat (Z.max 1 max_images)) (first_occurrences urls) `sublist_of` urls.
Proof.
  split; [ | split ].
  - unfold gather_image_urls_requests. f_equal.
    rewrite dedupe_spec; [ | set_solver | cbn [length]; lia ].
    cbn [app]. f_equal.
    induction (first_occurrences urls) as [ | x l IH ]; [ done | ].
    rewrite filter_cons_True by apply not_elem_of_nil. by rewrite IH.
  - eapply sublist_NoDup; [ apply first_occurrences_NoDup | apply sublist_take ].
  - etransitivity; [ apply sublist_take | apply first_occurrences_sublist ].
Qed.

End Addresses.

(** Four addresses, one of them twice, with limits of two and of zero. *)
Example gather_image_urls_requests_limits :
  let urls := ["https://a/1.jpg"; "https://a/2.jpg"; "https://a/1.jpg"; "https://a/3.jpg"] in
  Scraper.gather_image_urls_requests (inr urls) 2 = inr ["https://a/1.jpg"; "https://a/2.jpg"]
  /\ Scraper.gather_image_urls_requests (inr urls) 50
     = inr ["https://a/1.jpg"; "https://a/2.jpg"; "https://a/3.jpg"]
  /\ Scraper.gather_image_urls_requests (inr urls) 0 = inr ["https://a/1.jpg"].
Proof. cbv zeta. split; [ by vm_compute | ]. split; by vm_compute. Qed.

(** ** Synthetic scenes *)

Section Scenes.
Import CombineImage.

Variable fl : Q -> Q.

Lemma boxes_overlap_sym box1 box2 :
  boxes_overlap fl box1 box2 = boxes_overlap fl box2 box1.
Proof.
  destruct box1 as [[[x1 y1] w1] h1], box2 as [[[x2 y2] w2] h2]. cbn.
  rewrite (Z.max_comm x2 x1), (Z.max_comm y2 y1),
    (Z.min_comm (x2 + w2) (x1 + w1)), (Z.min_comm (y2 + h2) (y1 + h1)),
    (Z.add_comm (w2 * h2) (w1 * h1)).
  done.
Qed.

(** X19.  For boxes of non-negative width and height, [boxes_overlap] is
    a number between 0 and 1 that does not depend on the order of the two
    boxes.  The rounding of the quotient does not lower a number below
    another, and leaves 0 and 1 as they are. *)
Theorem boxes_overlap_is_a_ratio x1 y1 w1 h1 x2 y2 w2 h2 :
  (forall x y, x <= y -> fl x <= fl y)%Q ->
  (fl 0 == 0)%Q ->
  (fl 1 == 1)%Q ->
  0 <= w1 -> 0 <= h1 -> 0 <= w2 -> 0 <= h2 ->
  (0 <= boxes_overlap fl (x1, y1, w1, h1) (x2, y2, w2, h2) <= 1)%Q
  /\ boxes_overlap fl (x1, y1, w1, h1) (x2, y2, w2, h2)
     = boxes_overlap fl (x2, y2, w2, h2) (x1, y1, w1, h1).
Proof.
  intros Hmono Hfl0 Hfl1 Hw1 Hh1 Hw2 Hh2. split; [ | apply boxes_overlap_sym ].
  cbn.
  set (a := Z.max 0 (Z.min (x1 + w1) (x2 + w2) - Z.max x1 x2)).
  set (b := Z.max 0 (Z.min (y1 + h1) (y2 + h2) - Z.max y1 y2)).
  assert (Ha : 0 <= a <= w1 /\ a <= w2) by (unfold a; lia).
  assert (Hb : 0 <= b <= h1 /\ b <= h2) by (unfold b; lia).
  assert (H1 : a * b <= w1 * h1) by (apply Z.mul_le_mono_nonneg; lia).
  assert (H2 : a * b <= w2 * h2) by (apply Z.mul_le_mono_nonneg; lia).
  assert (H0 : 0 <= a * b) by (apply Z.mul_nonneg_nonneg; lia).
  destruct (Z.eqb_spec (w1 * h1 + w2 * h2 - a * b) 0) as [ | Hne ]; [ by split | ].
  assert (Hpos : (0 < inject_Z (w1 * h1 + w2 * h2 - a * b))%Q).
  { change 0%Q with (inject_Z 0). rewrite <- Zlt_Qlt. lia. }
  split.
  - rewrite <- Hfl0. apply Hmono.
    apply Qle_shift_div_l; [ done | ]. rewrite Qmult_0_l.
    change 0%Q with (inject_Z 0). rewrite <- Zle_Qle. done.
  - rewrite <- Hfl1. apply Hmono.
    apply Qle_shift_div_r; [ done | ]. rewrite Qmult_1_l. rewrite <- Zle_Qle. lia.
Qed.

Lemma place_from_spec max_overlap obj placed_boxes : forall n i,
  place_from n i fl max_overlap obj placed_boxes = placed_boxes
  \/ exists x y,
       place_from n i fl max_overlap obj placed_boxes
       = placed_boxes ++ [(x, y, scale obj, scale obj)]
       /\ Forall (fun b =>
                    (boxes_overlap fl (x, y, scale obj, scale obj) b < max_overlap)%Q)
                 placed_boxes.
Proof.
  induction n as [ | n IH ]; intros i; cbn [place_from]; [ by left | ].
  destruct (position obj i) as [x y].
  destruct (forallb _ placed_boxes) eqn:Hall; [ | apply IH ].
  right. exists x, y. split; [ done | ].
  apply Forall_forall. intros b Hb. apply Qgtb_lt.
  rewrite forallb_forall in Hall. apply Hall. by apply list_elem_of_In.
Qed.

Lemma scene_from_spec max_overlap : forall used placed_boxes,
  pairwise_below fl max_overlap placed_boxes ->
  pairwise_below fl max_overlap (fold_left (place fl max_overlap) used placed_boxes)
  /\ (length (fold_left (place fl max_overlap) used placed_boxes)
      <= length placed_boxes + length used)%nat.
Proof.
  induction used as [ | obj used IH ]; intros placed_boxes Hpw; cbn [fold_left].
  - split; [ done | lia ].
  - unfold place at 2 4.
    destruct (place_from_spec max_overlap obj placed_boxes 100 0)
      as [ -> | (x & y & -> & Hnew) ].
    + destruct (IH placed_boxes Hpw) as [Hp Hl]. split; [ done | cbn [length]; lia ].
    + destruct (IH (placed_boxes ++ [(x, y, scale obj, scale obj)])) as [Hp Hl].
      * intros i j b1 b2 Hi Hj Hij.
        rewrite Forall_forall in Hnew.
        destruct (decide (i < length placed_boxes)%nat) as [ Hil | Hil ];
          destruct (decide (j < length placed_boxes)%nat) as [ Hjl | Hjl ].
        -- rewrite lookup_app_l in Hi, Hj by done. by apply (Hpw i j).
        -- rewrite lookup_app_l in Hi by done. rewrite lookup_app_r in Hj by lia.
           apply list_lookup_singleton_Some in Hj as [_ <-].
           rewrite boxes_overlap_sym. apply Hnew. by eapply list_elem_of_lookup_2.
        -- rewrite lookup_app_l in Hj by done. rewrite lookup_app_r in Hi by lia.
           apply list_lookup_singleton_Some in Hi as [_ <-].
           apply Hnew. by eapply list_elem_of_lookup_2.
        -- rewrite lookup_app_r in Hi, Hj by lia.
           apply list_lookup_singleton_Some in Hi as [Hi _].
           apply list_lookup_singleton_Some in Hj as [Hj _]. lia.
      * split; [ done | ]. rewrite length_app in Hl. cbn [length] in *. lia.
Qed.

(** X20.  In a scene no two placed objects overlap by [max_overlap] or
    more, whatever sizes and positions are drawn, and there are at most as
    many boxes as objects: an object for which none of the hundred positions
    fits is left out. *)
Theorem scene_boxes_overlap_below_max max_overlap used :
  pairwise_below fl max_overlap (scene fl max_overlap used)
  /\ (length (scene fl max_overlap used) <= length used)%nat.
Proof.
  unfold scene. destruct (scene_from_spec max_overlap used []) as [Hp Hl].
  - intros i j b1 b2 Hi. by rewrite lookup_nil in Hi.
  - split; [ done | ]. cbn [length] in Hl. lia.
Qed.

End Scenes.

(** Two squares of side 200 that share a quarter, their quotient taken
    as it is. *)
Lemma boxes_overlap_is_a_ratio_demo :
  let fl := fun q : Q => q in
  ((forall x y, x <= y -> fl x <= fl y)%Q
   /\ (fl 0 == 0)%Q /\ (fl 1 == 1)%Q
   /\ 0 <= 200 /\ 0 <= 200 /\ 0 <= 200 /\ 0 <= 200)
  /\ (CombineImage.boxes_overlap fl (0, 0, 200, 200)%Z (100, 100, 200, 200)%Z == 1 # 7)%Q
  /\ (0 <= CombineImage.boxes_overlap fl (0, 0, 200, 200)%Z (100, 100, 200, 200)%Z <= 1)%Q
  /\ CombineImage.boxes_overlap fl (0, 0, 200, 200)%Z (100, 100, 200, 200)%Z
     = CombineImage.boxes_overlap fl (100, 100, 200, 200)%Z (0, 0, 200, 200)%Z.
Proof.
  cbv zeta. split; [ | split; [ by vm_compute | ] ].
  - split; [ done | ]. split; [ done | ]. split; [ done | lia ].
  - apply (boxes_overlap_is_a_ratio (fun q : Q => q)); try lia; done.
Defined.

(** Three objects and the bound [0.1] of the script; the second finds room
    at its third position, the third nowhere. *)
Example scene_of_three :
  let first := {| CombineImage.scale := 300; CombineImage.position := fun _ => (0, 0) |} in
  let second := {| CombineImage.scale := 200;
                   CombineImage.position := fun i => if (i <? 2)%nat then (50, 50)
                                                     else (312, 312) |} in
  let third := {| CombineImage.scale := 400; CombineImage.position := fun _ => (100, 100) |} in
  CombineImage.scene (fun q => q) (3602879701896397 # 36028797018963968)
                     [first; second; third]
  = [(0, 0, 300, 300); (312, 312, 200, 200)].
Proof. by vm_compute. Qed.

(** ** The label of a detection *)

Section Label.
Import LiveView.

(** A number less than half a unit below an integer rounds to it. *)
Lemma round_half_even_below (x : Q) (k : Z) :
  (inject_Z k - (1 # 2) < x)%Q -> (x < inject_Z k)%Q -> round_half_even x = k.
Proof.
  intros Hlo Hhi. unfold round_half_even.
  pose proof (Qfloor_le x) as Hfl. pose proof (Qlt_floor x) as Hlt.
  assert (Hf : Qfloor x = k - 1).
  { assert (H1 : (inject_Z (Qfloor x) < inject_Z k)%Q) by lra.
    rewrite <- Zlt_Qlt in H1.
    assert (H2 : (inject_Z k < inject_Z (Qfloor x + 1 + 1))%Q).
    { rewrite (inject_Z_plus (Qfloor x + 1) 1). change (inject_Z 1) with 1%Q. lra. }
    rewrite <- Zlt_Qlt in H2. lia. }
  rewrite Hf.
  assert (Hgt : (x - inject_Z (k - 1) ?= 1 # 2)%Q = Gt).
  { apply Qgt_alt. unfold Z.sub. rewrite inject_Z_plus.
    change (inject_Z (- (1))) with (- (1))%Q. lra. }
  rewrite Hgt. lia.
Qed.

Lemma format_2f_rounds_up (x : Q) (k : Z) :
  0 < k ->
  (inject_Z k - (1 # 2) < x * inject_Z 100)%Q -> (x * inject_Z 100 < inject_Z k)%Q ->
  format_2f x = pretty (k / 100) +:+ "." +:+ pad2 (k mod 100).
Proof.
  intros Hk Hlo Hhi. unfold format_2f.
  assert (Hpos : (0 < x)%Q).
  { assert (H : (0 < x * inject_Z 100)%Q).
    { assert (H1 : (inject_Z 1 <= inject_Z k)%Q) by (rewrite <- Zle_Qle; lia).
      change (inject_Z 1) with 1%Q in H1. lra. }
    change (inject_Z 100) with (100 # 1)%Q in H. lra. }
  assert (Habs : Qabs x = x).
  { destruct x as [n dn]. unfold Qabs. f_equal. apply Z.abs_eq.
    unfold Qlt in Hpos. cbn in Hpos. lia. }
  rewrite Habs, (round_half_even_below _ k Hlo Hhi).
  assert (Hsign : Qgtb 0 x = false) by (apply Qgtb_le; lra).
  by rewrite Hsign.
Qed.

(** X21.  The label shows the confidence rounded to two decimals, but the
    grade is taken from the confidence itself: a detection with a confidence
    above 0.795 and below 0.8 is shown as [0.80 (Good)], although 0.8 is
    [Excellent], and one above 0.495 and below 0.5 as [0.50 (Poor)]. *)
Theorem label_rounds_up_across_a_grade d :
  (795 # 1000 < confidence d < 8 # 10)%Q \/ (495 # 1000 < confidence d < 5 # 10)%Q ->
  detection_info (Some d)
  = if Qgeb (confidence d) (1 # 2)
    then (class_name d +:+ ": 0.80 (Good)", "#f39c12")
    else (class_name d +:+ ": 0.50 (Poor)", "#e74c3c").
Proof.
  unfold detection_info, Qgeb. intros [ [Hlo Hhi] | [Hlo Hhi] ].
  - assert (H8 : Qle_bool (3602879701896397 # 4503599627370496) (confidence d) = false).
    { apply not_true_is_false. intros H%Qle_bool_iff.
      assert ((8 # 10) < (3602879701896397 # 4503599627370496))%Q by done. lra. }
    assert (H5 : Qle_bool (1 # 2) (confidence d) = true).
    { apply Qle_bool_iff. lra. }
    rewrite H8, H5.
    rewrite (format_2f_rounds_up (confidence d) 80); [ done | lia | | ];
      change (inject_Z 100) with (100 # 1)%Q; change (inject_Z 80) with (80 # 1)%Q; lra.
  - assert (H8 : Qle_bool (3602879701896397 # 4503599627370496) (confidence d) = false).
    { apply not_true_is_false. intros H%Qle_bool_iff.
      assert ((8 # 10) < (3602879701896397 # 4503599627370496))%Q by done. lra. }
    assert (H5 : Qle_bool (1 # 2) (confidence d) = false).
    { apply not_true_is_false. intros H%Qle_bool_iff. lra. }
    rewrite H8, H5.
    rewrite (format_2f_rounds_up (confidence d) 50); [ done | lia | | ];
      change (inject_Z 100) with (100 # 1)%Q; change (inject_Z 50) with (50 # 1)%Q; lra.
Qed.

End Label.

(** A mug at 0.7985, and at 0.8001. *)
Lemma label_rounds_up_across_a_grade_demo :
  let d := {| class_name := "Mug"; confidence := 7985 # 10000; class_id := Some 5 |} in
  ((795 # 1000 < confidence d < 8 # 10)%Q \/ (495 # 1000 < confidence d < 5 # 10)%Q)
  /\ LiveView.detection_info (Some d) = ("Mug: 0.80 (Good)", "#f39c12")
  /\ LiveView.detection_info
       (Some {| class_name := "Mug"; confidence := 8001 # 10000; class_id := Some 5 |})
     = ("Mug: 0.80 (Excellent)", "#27ae60").
Proof.
  cbv zeta.
  assert (H : (795 # 1000 < 7985 # 10000 < 8 # 10)%Q) by (split; reflexivity).
  split; [ by left | ]. split; [ | reflexivity ].
  rewrite (label_rounds_up_across_a_grade
             {| class_name := "Mug"; confidence := 7985 # 10000; class_id := Some 5 |});
    [ reflexivity | by left ].
Defined.

(** ** The live view *)

Section Live.
Import LiveView.

Variable w : World.
Variable fl : Q -> Q.

(** [predict_single] returns, keeps the objects of the store, and gives
    back its input or a new object. *)
Lemma predict_single_shape ml image h :
  exists h' out detection,
    ModelLoader.predict_single w ml image h = (h', inr (out, detection))
    /\ extends h h'
    /\ (out = image \/ is_Some (h' !! out)).
Proof.
  assert (Hext : forall h', (forall l, (l < length h)%nat -> h' !! l = h !! l) ->
                            extends h h').
  { intros h' Hold. split; [ | done ].
    destruct (decide (length h = 0)%nat) as [ -> | Hne ]; [ lia | ].
    assert (Hlast : is_Some (h' !! (length h - 1)%nat)).
    { rewrite Hold by lia. apply lookup_lt_is_Some. lia. }
    apply lookup_lt_is_Some in Hlast. lia. }
  unfold ModelLoader.predict_single.
  destruct (ModelLoader.use_mock ml);
    [ exists h, image, None; split; [ done | split; [ apply extends_refl | by left ] ] | ].
  destruct (ModelLoader.model ml) as [ m | ];
    [ | exists h, image, None; split; [ done | split; [ apply extends_refl | by left ] ] ].
  pose proof (predict_single_try_frame w ml m image h) as Hframe.
  unfold try_except.
  destruct (ModelLoader.predict_single_try w ml m image h)
    as [h' [ e | [out [ d | ]] ]]; destruct Hframe as [Hold Hres].
  - exists h', image, None. split; [ done | ]. split; [ by apply Hext | by left ].
  - destruct Hres as (-> & img & ops & _ & Hout).
    exists h', (length h), (Some d). split; [ done | ]. split; [ by apply Hext | ].
    right. by rewrite Hout.
  - destruct Hres as [-> ->]. exists h, image, None.
    split; [ done | ]. split; [ apply extends_refl | by left ].
Qed.

Ltac run_monad :=
  cbv [bind emit ask on_store update self_ alloc ret lift raise read copy count_frame].

(** A call that does not process its frame shows the picture that was
    kept. *)
Lemma skipped_frame_call self h ev c t frame img flipped kept :
  MainWindow.is_camera_on (window self) = true ->
  MainWindow.processing_files (window self) = false ->
  frame_counter self = Some c ->
  ((c + 1) mod 3 =? 0) = false ->
  last_detection_frame self = Some kept ->
  h !! frame = Some img ->
  flip w img = inr flipped ->
  exists self1,
    process_camera_frame w fl t frame (self, h, ev)
    = ((self1, h ++ [img; flipped], ev ++ [display_detected_image kept]), inr tt)
    /\ window self1 = window self
    /\ frame_counter self1 = Some (c + 1)
    /\ last_detection_frame self1 = Some kept.
Proof.
  destruct self as [win ldl ldt lcf fc ldf]. cbn. intros Hon Hoff -> Hthird -> Hframe Hflip.
  unfold process_camera_frame. run_monad. cbn. rewrite Hon, Hoff. cbn.
  rewrite Hframe. cbn.
  rewrite lookup_app_l by (by eapply lookup_lt_Some). rewrite Hframe, Hflip.
  cbn. rewrite Hthird. cbn.
  rewrite <- (assoc_L (++)). cbn. eauto.
Qed.

(** A call that processes its frame shows what [predict_single] gives for
    the mirrored frame and keeps a copy of it. *)
Lemma processed_frame_call self h ev c t frame img flipped :
  MainWindow.is_camera_on (window self) = true ->
  MainWindow.processing_files (window self) = false ->
  frame_counter self = Some c ->
  ((c + 1) mod 3 =? 0) = true ->
  h !! frame = Some img ->
  flip w img = inr flipped ->
  exists self1 h1 shown detection picture log,
    process_camera_frame w fl t frame (self, h, ev)
    = ((self1, h1 ++ [picture],
        ev ++ log ++ [display_detected_image shown; update_detection_info detection]),
       inr tt)
    /\ ModelLoader.predict_single w (MainWindow.model_loader (window self))
                                  (S (length h)) (h ++ [img; flipped])
       = (h1, inr (shown, detection))
    /\ h1 !! shown = Some picture
    /\ extends h h1
    /\ (forall e, e ∈ log -> exists msg, e = log_message msg)
    /\ window self1 = window self
    /\ frame_counter self1 = Some (c + 1)
    /\ last_detection_frame self1 = Some (length h1).
Proof.
  destruct self as [win ldl ldt lcf fc ldf]. cbn. intros Hon Hoff -> Hthird Hframe Hflip.
  unfold process_camera_frame. run_monad. cbn. rewrite Hon, Hoff. cbn.
  rewrite Hframe. cbn.
  rewrite lookup_app_l by (by eapply lookup_lt_Some). rewrite Hframe, Hflip.
  cbn. rewrite Hthird. cbn.
  rewrite <- (assoc_L (++) h [img] [flipped]). cbn [app].
  rewrite length_app, Nat.add_1_r. cbn [length].
  destruct (predict_single_shape win.(MainWindow.model_loader) (S (length h))
                                 (h ++ [img; flipped]))
    as (h1 & shown & detection & Hpredict & Hext & Hshown).
  rewrite Hpredict.
  assert (Hpicture : is_Some (h1 !! shown)).
  { destruct Hshown as [ -> | Hshown ]; [ | done ].
    destruct Hext as [_ Hold]. rewrite Hold by (rewrite length_app; cbn; lia).
    rewrite (lookup_app_r h) by lia.
    replace (S (length h) - length h)%nat with 1%nat by lia. by eexists. }
  destruct Hpicture as [picture Hpicture]. rewrite Hpicture.
  assert (Hext' : extends h h1).
  { eapply extends_trans; [ | exact Hext ].
    change [img; flipped] with ([img] ++ [flipped]). rewrite (assoc_L (++)).
    eapply extends_trans; apply extends_alloc. }
  destruct detection as [ d | ]; [ destruct (Qgtb (fl (t - ldl)) 2) | ]; cbn.
  - eexists _, h1, shown, (Some d), picture, [log_message (live_msg d)].
    split; [ by rewrite <- !(assoc_L (++)) | ].
    repeat match goal with |- _ /\ _ => split end; try done.
    intros e ->%list_elem_of_singleton. by eexists.
  - eexists _, h1, shown, (Some d), picture, [].
    split; [ by rewrite <- !(assoc_L (++)) | ].
    repeat match goal with |- _ /\ _ => split end; try done. intros e []%elem_of_nil.
  - eexists _, h1, shown, None, picture, [].
    split; [ by rewrite <- !(assoc_L (++)) | ].
    repeat match goal with |- _ /\ _ => split end; try done. intros e []%elem_of_nil.
Qed.

(** X22.  Two camera frames out of three never reach the screen.  After a
    frame that is processed (the frame counter reaches a multiple of three),
    the next two calls of [process_camera_frame] show the copy kept of the
    processed picture again, whatever frames the camera delivers, and leave
    the label as it was. *)
Theorem skipped_frames_repeat_processed_picture self h ev c t1 t2 t3 f1 f2 f3 img1 :
  MainWindow.is_camera_on (window self) = true ->
  MainWindow.processing_files (window self) = false ->
  frame_counter self = Some c ->
  (c + 1) mod 3 = 0 ->
  h !! f1 = Some img1 -> is_Some (h !! f2) -> is_Some (h !! f3) ->
  (forall img, exists flipped, flip w img = inr flipped) ->
  exists self' h' log shown detection kept picture,
    (process_camera_frame w fl t1 f1 ;;;
     process_camera_frame w fl t2 f2 ;;;
     process_camera_frame w fl t3 f3)%py (self, h, ev)
    = ((self', h',
        ev ++ log ++ [display_detected_image shown; update_detection_info detection;
                      display_detected_image kept; display_detected_image kept]),
       inr tt)
    /\ (forall e, e ∈ log -> exists msg, e = log_message msg)
    /\ live_result w (MainWindow.model_loader (window self)) h img1
       = Some (picture, detection)
    /\ h' !! shown = Some picture
    /\ h' !! kept = Some picture
    /\ frame_counter self' = Some (c + 3).
Proof.
  intros Hon Hoff Hc Hthird Hf1 [img2 Hf2] [img3 Hf3] Hflip.
  destruct (Hflip img1) as [flipped1 Hflip1].
  destruct (Hflip img2) as [flipped2 Hflip2].
  destruct (Hflip img3) as [flipped3 Hflip3].
  destruct (processed_frame_call self h ev c t1 f1 img1 flipped1)
    as (self1 & h1 & shown & detection & picture & log
        & Hcall1 & Hpredict & Hshown & Hext & Hlog & Hwin1 & Hc1 & Hkept1);
    try done; [ by apply Z.eqb_eq | ].
  assert (Hext1 : extends h (h1 ++ [picture])).
  { eapply extends_trans; [ exact Hext | apply extends_alloc ]. }
  assert (Hold1 : forall l x, h !! l = Some x -> (h1 ++ [picture]) !! l = Some x).
  { intros l x Hl. destruct Hext1 as [_ Hold]. rewrite Hold; [ done | ].
    by eapply lookup_lt_Some. }
  destruct (skipped_frame_call self1 (h1 ++ [picture])
              (ev ++ log ++ [display_detected_image shown; update_detection_info detection])
              (c + 1) t2 f2 img2 flipped2 (length h1))
    as (self2 & Hcall2 & Hwin2 & Hc2 & Hkept2); try done; try congruence.
  { apply Z.eqb_neq. intros H. replace (c + 1 + 1) with ((c + 1) + 1) in H by lia.
      rewrite Z.add_mod, Hthird in H by lia. done. }
  { by apply Hold1. }
  destruct (skipped_frame_call self2 ((h1 ++ [picture]) ++ [img2; flipped2])
              ((ev ++ log ++ [display_detected_image shown; update_detection_info detection])
               ++ [display_detected_image (length h1)])
              (c + 1 + 1) t3 f3 img3 flipped3 (length h1))
    as (self3 & Hcall3 & Hwin3 & Hc3 & Hkept3); try done; try congruence.
  { apply Z.eqb_neq. intros H. replace (c + 1 + 1 + 1) with ((c + 1) + 2) in H by lia.
      rewrite Z.add_mod, Hthird in H by lia. done. }
  { apply lookup_app_l_Some. by apply Hold1. }
  exists self3, (((h1 ++ [picture]) ++ [img2; flipped2]) ++ [img3; flipped3]),
    log, shown, detection, (length h1), picture.
  split.
  { unfold bind. rewrite Hcall1, Hcall2, Hcall3.
    by rewrite <- !(assoc_L (++)). }
  split; [ done | ].
  split.
  { unfold live_result. by rewrite Hflip1, Hpredict, Hshown. }
  split.
  { do 3 apply lookup_app_l_Some. done. }
  split.
  { do 2 apply lookup_app_l_Some. by rewrite (list_lookup_middle h1 [] picture). }
  rewrite Hc3. f_equal. lia.
Qed.

End Live.

(** Three frames from the camera, a mug, a pen and a telephone, the first
    of them processed: the mug is shown three times. *)
Lemma skipped_frames_repeat_processed_picture_demo :
  let w := Demo.world_by_pixel in
  let self := LiveView.mk (MainWindow.mk Demo.loaded true false) 0 0 None (Some 2) None in
  let h := [Demo.frame_mug; Demo.frame_pen; Demo.frame_phone] in
  (forall img, exists flipped, flip w img = inr flipped)
  /\ exists self' h' log shown detection kept picture,
       (LiveView.process_camera_frame w (fun q => q) 10 0%nat ;;;
        LiveView.process_camera_frame w (fun q => q) 11 1%nat ;;;
        LiveView.process_camera_frame w (fun q => q) 12 2%nat)%py (self, h, [])
       = ((self', h',
           [] ++ log ++ [display_detected_image shown; update_detection_info detection;
                         display_detected_image kept; display_detected_image kept]),
          inr tt)
       /\ h' !! kept = Some picture
       /\ pixels picture = [5]
       /\ detection = Some {| class_name := "Mug"; confidence := 9 # 10;
                              class_id := Some 5 |}.
Proof.
  cbv zeta.
  assert (Hflip : forall img, exists flipped, flip Demo.world_by_pixel img = inr flipped)
    by (intros img; by exists img).
  split; [ exact Hflip | ].
  destruct (skipped_frames_repeat_processed_picture
              Demo.world_by_pixel (fun q => q)
              (LiveView.mk (MainWindow.mk Demo.loaded true false) 0 0 None (Some 2) None)
              [Demo.frame_mug; Demo.frame_pen; Demo.frame_phone] [] 2 10 11 12
              0%nat 1%nat 2%nat Demo.frame_mug)
    as (self' & h' & log & shown & detection & kept & picture
        & Hcalls & _ & Hlive & _ & Hkept & _); try done; try (by eexists).
  exists self', h', log, shown, detection, kept, picture.
  split; [ exact Hcalls | ]. split; [ exact Hkept | ].
  vm_compute in Hlive. injection Hlive as <- <-. done.
Defined.
